(** * FaSTrack: trajectories and the graph dynamic planner

    A shallow embedding of the header-only C++ templates
    [fastrack::planning::Trajectory<S>] and
    [fastrack::planning::GraphDynamicPlanner<S, ...>].

    Conventions of the embedding.
    - [double] is IEEE 754 binary64 as the Standard Library specifies it
      ([spec_float] with 53 bits of precision, round to nearest even):
      rounding, overflow, signed zeros and NaN are those of the hardware
      type.
    - [std::shared_ptr<Node>] is an index into an arena ([heap]) that owns
      every node created during one [Plan] call; [nullptr] is [None].
    - Undefined behaviour of the C++ code (indexing a vector out of range,
      dereferencing [nullptr]) is an explicit [Fault]; loops whose
      termination depends on the shape of the graph take fuel and report
      [OutOfFuel] when it is exhausted. *)

From Stdlib Require Import ZArith Lia List Bool String.
From Stdlib Require Import Floats.SpecFloat.
From stdpp Require Import base list.
Import ListNotations.

Open Scope nat_scope.

(* ===================================================================== *)
(** ** Results of fallible computations *)
(* ===================================================================== *)

Inductive fault : Type :=
| NullDeref                          (* [p->field] with [p == nullptr] *)
| OutOfRange (index size : nat)      (* [v[index]], [v.front()], [v.back()] *)
| Dangling (p : nat).                (* an index that the arena never issued *)

Inductive outcome (A : Type) : Type :=
| Done (a : A)
| Fault (f : fault)
| OutOfFuel.

Arguments Done {A} a.
Arguments Fault {A} f.
Arguments OutOfFuel {A}.

Definition obind {A B} (m : outcome A) (k : A -> outcome B) : outcome B :=
  match m with
  | Done a => k a
  | Fault f => Fault f
  | OutOfFuel => OutOfFuel
  end.

Notation "'let!' x ':=' m 'in' k" := (obind m (fun x => k))
  (at level 10, x pattern, m at level 100, k at level 200).

Definition terminates {A} (m : outcome A) : Prop := m <> OutOfFuel.

(** [v[i]] on a [std::vector]. *)
Definition at_ {A} (v : list A) (i : nat) : outcome A :=
  match v !! i with
  | Some x => Done x
  | None => Fault (OutOfRange i (length v))
  end.

(** [v.front()] and [v.back()]. *)
Definition front {A} (v : list A) : outcome A := at_ v 0.
Definition back {A} (v : list A) : outcome A :=
  match v with
  | [] => Fault (OutOfRange 0 0)
  | _ => at_ v (length v - 1)
  end.

(* ===================================================================== *)
(** ** Doubles and vectors *)
(* ===================================================================== *)

Abbreviation double := spec_float (only parsing).

Definition dadd : double -> double -> double := SFadd 53 1024.
Definition dsub : double -> double -> double := SFsub 53 1024.
Definition dmul : double -> double -> double := SFmul 53 1024.
Definition ddiv : double -> double -> double := SFdiv 53 1024.
Definition dsqrt : double -> double := SFsqrt 53 1024.

(** [a < b] and [a <= b]; [a > b] is [b < a].  Every comparison with a
    NaN is false. *)
Definition dlt (a b : double) : bool := SFltb a b.
Definition dle (a b : double) : bool := SFleb a b.

(** The double of an integer literal. *)
Definition dZ (z : Z) : double := binary_normalize 53 1024 z 0 false.

Declare Scope double_scope.
Delimit Scope double_scope with D.
Notation "x + y" := (dadd x y) : double_scope.
Notation "x - y" := (dsub x y) : double_scope.
Notation "x * y" := (dmul x y) : double_scope.
Notation "x / y" := (ddiv x y) : double_scope.
Notation "x <? y" := (dlt x y) : double_scope.
Notation "x <=? y" := (dle x y) : double_scope.

(** [std::min(a, b)]: [b < a ? b : a]. *)
Definition dmin (a b : double) : double := if (b <? a)%D then b else a.

(** A double that is neither zero, nor infinite, nor NaN. *)
Definition finite_nonzero (x : double) : Prop :=
  match x with
  | S754_finite _ _ _ => True
  | _ => False
  end.

(** [Eigen::VectorXd], with the operations the planner uses. *)
Definition VectorXd : Type := list double.

Definition vsub (a b : VectorXd) : VectorXd :=
  map (fun p => (fst p - snd p)%D) (combine a b).

(** [v.sum()], the coefficients added up in the order of their index
    (Eigen's reduction without vectorisation; on the one-dimensional
    states of the scenarios there is a single coefficient). *)
Definition vsum (v : VectorXd) : double :=
  match v with
  | [] => dZ 0
  | x :: rest => fold_left dadd rest x
  end.

(** [v.squaredNorm()], that is [v.cwiseAbs2().sum()], and [v.norm()], its
    square root. *)
Definition squaredNorm (v : VectorXd) : double :=
  vsum (map (fun x => (x * x)%D) v).

Definition norm (v : VectorXd) : double := dsqrt (squaredNorm v).

(** [v.norm() < bound] and [v.norm() <= bound]. *)
Definition norm_lt (v : VectorXd) (bound : double) : bool :=
  (norm v <? bound)%D.

Definition norm_le (v : VectorXd) (bound : double) : bool :=
  (norm v <=? bound)%D.

(** [a.isApprox(b, prec)] of Eigen:
    [(a - b).cwiseAbs2().sum()
       <= prec * prec * min(a.cwiseAbs2().sum(), b.cwiseAbs2().sum())]. *)
Definition isApprox (a b : VectorXd) (prec : double) : bool :=
  (squaredNorm (vsub a b)
   <=? prec * prec * dmin (squaredNorm a) (squaredNorm b))%D.

(** The cases of the comparisons of [SFcompare]. *)
Ltac compare_cases :=
  repeat match goal with
         | H : context [Z.compare ?x ?y] |- _ =>
             destruct (Z.compare_spec x y); simpl in H
         | |- context [Z.compare ?x ?y] =>
             destruct (Z.compare_spec x y); simpl
         | H : context [Pos.compare_cont Eq ?x ?y] |- _ =>
             change (Pos.compare_cont Eq x y) with (Pos.compare x y) in H;
             destruct (Pos.compare_spec x y); simpl in H
         | |- context [Pos.compare_cont Eq ?x ?y] =>
             change (Pos.compare_cont Eq x y) with (Pos.compare x y);
             destruct (Pos.compare_spec x y); simpl
         end.

(** Facts about [<] and [<=] by the cases of [SFcompare]: the classes of
    the operands, their signs, and the exponents and mantissas of finite
    ones. *)
Ltac float_order :=
  unfold dle, dlt, SFleb, SFltb;
  repeat match goal with x : spec_float |- _ => destruct x end;
  simpl;
  repeat match goal with s : bool |- _ => destruct s end;
  simpl; intros;
  try discriminate; try reflexivity;
  compare_cases; subst;
  try discriminate; try reflexivity; try lia.

(* ===================================================================== *)
(** ** States *)
(* ===================================================================== *)

(** What the templates ask of the state type [S]: a vector view
    ([ToVector]), addition, and scaling by a double on the left. *)
Class State (St : Type) : Type := {
  ToVector : St -> VectorXd;
  splus : St -> St -> St;
  smult : double -> St -> St
}.

(** A one-dimensional state, for the scenarios of the test plan. *)
#[export] Instance Line_State : State double := {
  ToVector s := [s];
  splus a b := (a + b)%D;
  smult c a := (c * a)%D
}.

(* ===================================================================== *)
(** ** Trajectories *)
(* ===================================================================== *)

Section Trajectory.
Context {St : Type} `{State St}.

Record Trajectory : Type := {
  states_ : list St;
  times_ : list double
}.

(** The loop [for (ii = 1; ii < times_.size(); ii++)] of the constructor;
    [todo] counts the iterations left.  The assignment reads
    [times_[ii + 1]]. *)
Fixpoint fix_inversions (todo ii : nat) (times : list double)
  : outcome (list double) :=
  match todo with
  | O => Done times
  | Datatypes.S todo' =>
      let! prev := at_ times (ii - 1) in
      let! here := at_ times ii in
      if (here <? prev)%D then
        let! next := at_ times (ii + 1) in
        fix_inversions todo' (ii + 1) (<[ii := next]> times)
      else fix_inversions todo' (ii + 1) times
  end.

(** [Trajectory<S>::Trajectory(states, times)]. *)
Definition Trajectory_ctor (states : list St) (times : list double)
  : outcome Trajectory :=
  let '(states, times) :=
    if negb (length states =? length times) then
      if length times <? length states
      then (take (length times) states, times)
      else (states, take (length states) times)
    else (states, times) in
  let! times := fix_inversions (length times - 1) 1 times in
  Done {| states_ := states; times_ := times |}.

(** [std::lower_bound(times_.begin(), times_.end(), t)] as an offset from
    [begin()], by the bisection of the library:
    [while (len > 0) { half = len >> 1; middle = first + half;
       if (first[half] < t) { first = middle + 1; len = len - half - 1; }
       else len = half; }  return first;].
    [middle] is always inside the range; the loop halves [len], so that
    fuel equal to the length covers it. *)
Fixpoint lower_bound_loop (fuel first len : nat) (times : list double)
    (t : double) : nat :=
  match fuel with
  | O => first
  | Datatypes.S fuel' =>
      if len =? 0 then first
      else
        let half := len / 2 in
        let middle := first + half in
        match times !! middle with
        | Some x =>
            if (x <? t)%D
            then lower_bound_loop fuel' (middle + 1) (len - half - 1) times t
            else lower_bound_loop fuel' first half times t
        | None => first
        end
  end.

Definition lower_bound (times : list double) (t : double) : nat :=
  lower_bound_loop (length times) 0 (length times) times t.

(** [Trajectory<S>::Interpolate(t)]. *)
Definition Interpolate (traj : Trajectory) (t : double) : outcome St :=
  let iter := lower_bound (times_ traj) t in
  if iter =? 0 then front (states_ traj)
  else if iter =? length (times_ traj) then back (states_ traj)
  else
    let hi := iter in
    let lo := hi - 1 in
    let! t_lo := at_ (times_ traj) lo in
    let! t_hi := at_ (times_ traj) hi in
    let frac := ((t - t_lo) / (t_hi - t_lo))%D in
    let! s_lo := at_ (states_ traj) lo in
    let! s_hi := at_ (states_ traj) hi in
    Done (splus (smult (dZ 1 - frac)%D s_lo) (smult frac s_hi)).

(** The two invariants of the data model. *)
Definition same_length (traj : Trajectory) : Prop :=
  length (states_ traj) = length (times_ traj).

Fixpoint non_decreasing (times : list double) : Prop :=
  match times with
  | [] => True
  | x :: rest =>
      match rest with
      | [] => True
      | y :: _ => (x <=? y)%D = true /\ non_decreasing rest
      end
  end.

(** Two states agree within [eps]: the distance of their vectors is at
    most [eps]. *)
Definition within (eps : double) (a b : St) : Prop :=
  norm_le (vsub (ToVector a) (ToVector b)) eps = true.

(** Modelled from the spec: the default constructor [Trajectory()], which
    the constructor above does not come with; the empty trajectory
    "is legal and represents planner failure". *)
Definition empty_Trajectory : Trajectory := {| states_ := []; times_ := [] |}.

(** Modelled from the spec: [Size()], the number of samples. *)
Definition Size (traj : Trajectory) : nat := length (states_ traj).

(** Modelled from the spec: [Duration() = t[n-1] - t[0]]; taken to be 0 on
    the empty trajectory, where the spec is silent. *)
Definition Duration (traj : Trajectory) : double :=
  match times_ traj with
  | [] => dZ 0
  | t0 :: _ => (List.last (times_ traj) t0 - t0)%D
  end.

(** Modelled from the spec: [ResetFirstTime(t0)] "translates all
    timestamps by [t0 - t[0]]". *)
Definition ResetFirstTime (traj : Trajectory) (t0 : double) : Trajectory :=
  match times_ traj with
  | [] => traj
  | first :: _ =>
      {| states_ := states_ traj;
         times_ := map (fun t => (t + (t0 - first))%D) (times_ traj) |}
  end.

(** Modelled from the spec: the constructor from a list of trajectories
    ([Concatenate]): the first timestamp is that of the first input, each
    later trajectory is re-timed to start at the last timestamp of what
    precedes it, and boundary samples are kept. *)
Definition Concatenate (trajs : list Trajectory) : Trajectory :=
  fold_left
    (fun acc traj =>
       match times_ acc with
       | [] => traj
       | t0 :: _ =>
           let traj' := ResetFirstTime traj (List.last (times_ acc) t0) in
           {| states_ := states_ acc ++ states_ traj';
              times_ := times_ acc ++ times_ traj' |}
       end)
    trajs empty_Trajectory.

End Trajectory.

Arguments Trajectory St : clear implicits.

(* ===================================================================== *)
(** ** The planning graph *)
(* ===================================================================== *)

(** [Node::Ptr]: an index into the arena; [nullptr] is [None]. *)
Abbreviation ptr := nat (only parsing).

Section Graph.
Context {St : Type} `{State St}.

Record Node : Type := {
  state : St;
  time : double;
  cost_to_come : double;
  is_viable : bool;
  best_parent : option ptr;
  children : list ptr;
  trajs_to_children : list (Trajectory St)
}.

(** The arena: every node created during one call of [Plan]. *)
Local Abbreviation heap := (list Node) (only parsing).

Definition deref (h : heap) (p : ptr) : outcome Node :=
  match h !! p with
  | Some n => Done n
  | None => Fault (Dangling p)
  end.

(** [p->field] for a pointer that may be null. *)
Definition deref_opt (h : heap) (p : option ptr) : outcome Node :=
  match p with
  | Some p => deref h p
  | None => Fault NullDeref
  end.

Definition set_is_viable (b : bool) (n : Node) : Node :=
  {| state := state n; time := time n; cost_to_come := cost_to_come n;
     is_viable := b; best_parent := best_parent n;
     children := children n; trajs_to_children := trajs_to_children n |}.

Definition set_best_parent (p : option ptr) (n : Node) : Node :=
  {| state := state n; time := time n; cost_to_come := cost_to_come n;
     is_viable := is_viable n; best_parent := p;
     children := children n; trajs_to_children := trajs_to_children n |}.

Definition set_time (t : double) (n : Node) : Node :=
  {| state := state n; time := t; cost_to_come := cost_to_come n;
     is_viable := is_viable n; best_parent := best_parent n;
     children := children n; trajs_to_children := trajs_to_children n |}.

Definition set_cost_to_come (c : double) (n : Node) : Node :=
  {| state := state n; time := time n; cost_to_come := c;
     is_viable := is_viable n; best_parent := best_parent n;
     children := children n; trajs_to_children := trajs_to_children n |}.

Definition set_trajs_to_children (ts : list (Trajectory St)) (n : Node)
  : Node :=
  {| state := state n; time := time n; cost_to_come := cost_to_come n;
     is_viable := is_viable n; best_parent := best_parent n;
     children := children n; trajs_to_children := ts |}.

(** [children.push_back(c); trajs_to_children.push_back(traj)]. *)
Definition push_child (c : ptr) (traj : Trajectory St) (n : Node) : Node :=
  {| state := state n; time := time n; cost_to_come := cost_to_come n;
     is_viable := is_viable n; best_parent := best_parent n;
     children := children n ++ [c];
     trajs_to_children := trajs_to_children n ++ [traj] |}.

(** [Node::operator==]: the states agree up to [kSmallNumber = 1e-8]. *)
Definition kSmallNumber : double := (dZ 1 / dZ 100000000)%D.

Definition Node_eq (a b : Node) : bool :=
  isApprox (ToVector (state a)) (ToVector (state b)) kSmallNumber.

(** Modelled from the spec: [SearchableSet<Node, S>], of which only the
    uses are at hand: "a bag of nodes plus a spatial index over their
    state", here the nodes in insertion order.  [InitialNode()] is "the
    node used to construct the set". *)
Record SearchableSet : Type := {
  InitialNode : ptr;
  inserted : list ptr
}.

(** Modelled from the spec: the constructor [SearchableSet(node)]. *)
Definition SearchableSet_ctor (p : ptr) : SearchableSet :=
  {| InitialNode := p; inserted := [] |}.

(** Modelled from the spec: the nodes of the set, oldest first. *)
Definition registry (set : SearchableSet) : list ptr :=
  InitialNode set :: inserted set.

(** Modelled from the spec: the squared "state-vector distance" between a
    node of the arena and a state. *)
Definition squaredDistance (h : heap) (x : St) (p : ptr) : outcome double :=
  let! n := deref h p in
  Done (squaredNorm (vsub (ToVector (state n)) (ToVector x))).

(** Modelled from the spec: insertion into a list sorted by distance, in
    front of the entries that are not nearer ("ties broken by insertion
    order" when the nodes are inserted youngest first). *)
Fixpoint insert_by_distance (e : ptr * double)
    (sorted : list (ptr * double)) : list (ptr * double) :=
  match sorted with
  | [] => [e]
  | e' :: rest =>
      if (snd e <=? snd e')%D then e :: e' :: rest
      else e' :: insert_by_distance e rest
  end.

(** Modelled from the spec: each node with its squared distance to [x]. *)
Fixpoint with_distances (h : heap) (x : St) (ps : list ptr)
  : outcome (list (ptr * double)) :=
  match ps with
  | [] => Done []
  | p :: rest =>
      let! d := squaredDistance h x p in
      let! tail := with_distances h x rest in
      Done ((p, d) :: tail)
  end.

(** Modelled from the spec: [KnnSearch(s, k)], "k nearest nodes by
    state-vector distance (ties broken by insertion order)". *)
Definition KnnSearch (set : SearchableSet) (h : heap) (x : St) (k : nat)
  : outcome (list ptr) :=
  let! ds := with_distances h x (registry set) in
  Done (take k (map fst (fold_right insert_by_distance [] ds))).

(** Modelled from the spec: [RadiusSearch(s, r)], "all nodes within
    Euclidean distance r". *)
Definition RadiusSearch (set : SearchableSet) (h : heap) (x : St) (r : double)
  : outcome (list ptr) :=
  let! ds := with_distances h x (registry set) in
  Done (map fst
          (List.filter
             (fun e => (dZ 0 <=? r)%D && (snd e <=? r * r)%D) ds)).

End Graph.

Arguments Node St : clear implicits.

Abbreviation heap St := (list (Node St)) (only parsing).

(* ===================================================================== *)
(** ** The graph dynamic planner *)
(* ===================================================================== *)

(** The planner object: the pure virtual [SubPlan], the virtual [Cost],
    the members [num_neighbors_] and [search_radius_], and the constants
    [constants::kInfinity] and [constants::kEpsilon], which are declared in
    [fastrack/utils/types.h], not among the sources at hand. *)
Record GraphDynamicPlanner (St : Type) : Type := {
  SubPlan : St -> St -> double -> Trajectory St;
  Cost : Trajectory St -> double;
  num_neighbors_ : nat;
  search_radius_ : double;
  kInfinity : double;
  kEpsilon : double
}.

Arguments SubPlan {St} _ _ _ _.
Arguments Cost {St} _ _.
Arguments num_neighbors_ {St} _.
Arguments search_radius_ {St} _.
Arguments kInfinity {St} _.
Arguments kEpsilon {St} _.

(** The body of [Cost] in the base class: "Defaults to time, but can be
    overridden". *)
Definition default_Cost {St : Type} (traj : Trajectory St) : double :=
  Duration traj.

(** Where the planner stands between two of its operations. *)
Inductive point (St : Type) : Type :=
| AtLoopHead
| Attached (sample : St) (sample_node : ptr)
| Connected (sample_node child : ptr)
| Updating (sample_node : ptr) (queue : list ptr)
| Rewired (sample_node : ptr)
| Returned.

Arguments AtLoopHead {St}.
Arguments Attached {St} sample sample_node.
Arguments Connected {St} sample_node child.
Arguments Updating {St} sample_node queue.
Arguments Rewired {St} sample_node.
Arguments Returned {St}.

Section GraphDynamicPlanner.
Context {St : Type} `{State St}.
Variable this : GraphDynamicPlanner St.

(** *** UpdateDescendants *)

(** The rewiring test, as written:
    [child->best_parent != nullptr ||
     child->best_parent->cost_to_come > current_node->cost_to_come]. *)
Definition rewiring_test (h : heap St) (child current_node : Node St)
  : outcome bool :=
  match best_parent child with
  | Some _ => Done true
  | None =>
      let! parent := deref_opt h (best_parent child) in
      Done (cost_to_come current_node <? cost_to_come parent)%D
  end.

(** One round of the loop over [ii]: the statements between
    [const Node::Ptr child = ...] and the end of the loop body. *)
Definition visit_child (current_node : ptr) (ii : nat)
    (h : heap St) (queue : list ptr) : outcome (heap St * list ptr) :=
  let! current := deref h current_node in
  let! child := at_ (children current) ii in
  let queue := queue ++ [child] in
  let! traj := at_ (trajs_to_children current) ii in
  let traj := ResetFirstTime traj (time current) in
  let h := alter (set_trajs_to_children
                    (<[ii := traj]> (trajs_to_children current)))
                 current_node h in
  let! current := deref h current_node in
  let! c := deref h child in
  let! reattach := rewiring_test h c current in
  if reattach then
    let h := alter (set_best_parent (Some current_node)) child h in
    let h := alter (set_time (time current + Duration traj)%D) child h in
    let h := alter (set_cost_to_come (cost_to_come current + Cost this traj)%D)
                   child h in
    Done (h, queue)
  else Done (h, queue).

(** [for (ii = 0; ii < current_node->children.size(); ii++)]; [todo] is
    the number of rounds left (the loop does not change [children]). *)
Fixpoint visit_children (todo ii : nat) (current_node : ptr)
    (h : heap St) (queue : list ptr) : outcome (heap St * list ptr) :=
  match todo with
  | O => Done (h, queue)
  | Datatypes.S todo' =>
      let! (h, queue) := visit_child current_node ii h queue in
      visit_children todo' (ii + 1) current_node h queue
  end.

(** The body of [while (queue.size() > 0)] on a non-empty queue whose
    oldest node is [current_node]. *)
Definition UpdateDescendants_body (start current_node : ptr)
    (h : heap St) (queue : list ptr) : outcome (heap St * list ptr) :=
  if current_node =? start then Done (h, queue)
  else
    let! current := deref h current_node in
    visit_children (length (children current)) 0 current_node h queue.

(** [while (queue.size() > 0)], one unit of fuel for each node taken off
    the queue. *)
Fixpoint UpdateDescendants_loop (fuel : nat) (start : ptr)
    (h : heap St) (queue : list ptr) : outcome (heap St) :=
  match queue with
  | [] => Done h
  | current_node :: queue =>
      match fuel with
      | O => OutOfFuel
      | Datatypes.S fuel' =>
          let! (h, queue) :=
            UpdateDescendants_body start current_node h queue in
          UpdateDescendants_loop fuel' start h queue
      end
  end.

Definition UpdateDescendants (fuel : nat) (h : heap St) (node start : ptr)
  : outcome (heap St) :=
  UpdateDescendants_loop fuel start h [node].

(** *** ExtractTrajectory *)

(** The search of [node] among [parent->children], by [Node::operator==];
    the trajectory of the first match is pushed to the front. *)
Fixpoint find_child (h : heap St) (parent node : Node St) (ii todo : nat)
    (trajs : list (Trajectory St)) : outcome (list (Trajectory St)) :=
  match todo with
  | O => Done trajs
  | Datatypes.S todo' =>
      let! c := at_ (children parent) ii in
      let! cn := deref h c in
      if Node_eq cn node then
        let! traj := at_ (trajs_to_children parent) ii in
        Done (traj :: trajs)
      else find_child h parent node (ii + 1) todo' trajs
  end.

(** The [while] loop of [ExtractTrajectory]: it runs as long as the node
    differs from the start by [Node::operator!=], or equals it while
    [trajs] is still empty; a null parent breaks out of it.  The arena
    does not change during the extraction, so the start is read once. *)
Fixpoint ExtractTrajectory_loop (fuel : nat) (h : heap St)
    (start : Node St) (node : ptr) (trajs : list (Trajectory St))
  : outcome (list (Trajectory St)) :=
  let! n := deref h node in
  if negb (Node_eq n start) || (Node_eq n start && (length trajs =? 0)) then
    match best_parent n with
    | None => Done trajs
    | Some parent =>
        match fuel with
        | O => OutOfFuel
        | Datatypes.S fuel' =>
            let! p := deref h parent in
            let! trajs := find_child h p n 0 (length (children p)) trajs in
            ExtractTrajectory_loop fuel' h start parent trajs
        end
    end
  else Done trajs.

Definition ExtractTrajectory (fuel : nat) (h : heap St) (start goal : ptr)
  : outcome (Trajectory St) :=
  let! s := deref h start in
  let! trajs := ExtractTrajectory_loop fuel h s goal [] in
  Done (Concatenate trajs).

(** *** RecursivePlan *)

(** The loop over [neighbors] (steps 2 and 3): the first neighbor that is
    not too close to the sample and reaches it by a non-empty sub-plan
    becomes the parent of a new node.  The new node is handed out by the
    arena at the next free index. *)
Fixpoint attach (h : heap St) (sample : St) (neighbors : list ptr)
  : outcome (heap St * option ptr) :=
  match neighbors with
  | [] => Done (h, None)
  | neighbor :: rest =>
      let! nb := deref h neighbor in
      if norm_lt (vsub (ToVector (state nb)) (ToVector sample))
                 (kEpsilon this)
      then attach h sample rest
      else
        let sub_plan := SubPlan this (state nb) sample (time nb) in
        if 0 <? Size sub_plan then
          let parent := neighbor in
          let sample_node := length h in
          let h := h ++ [{| state := sample;
                            time := (time nb + Duration sub_plan)%D;
                            cost_to_come :=
                              (cost_to_come nb + Cost this sub_plan)%D;
                            is_viable := false;
                            best_parent := Some parent;
                            children := [];
                            trajs_to_children := [] |}] in
          let h := alter (push_child sample_node sub_plan) parent h in
          Done (h, Some sample_node)
        else attach h sample rest
  end.

(** The loop over [neighboring_goals] (step 4). *)
Fixpoint connect (h : heap St) (sample : St) (sample_node : ptr)
    (neighboring_goals : list ptr) : outcome (heap St * option ptr) :=
  match neighboring_goals with
  | [] => Done (h, None)
  | goal :: rest =>
      let! g := deref h goal in
      if negb (is_viable g) then connect h sample sample_node rest
      else
        let! sn := deref h sample_node in
        let sub_plan := SubPlan this sample (state g) (time sn) in
        if 0 <? Size sub_plan then
          let child := goal in
          let h := alter (push_child child sub_plan) sample_node h in
          Done (h, Some child)
        else connect h sample sample_node rest
  end.

(** The test that guards the goal's new parent, as written:
    [child->best_parent == nullptr ||
     child->best_parent->cost_to_come > sample_node->cost_to_come]. *)
Definition better_parent_test (h : heap St) (child sample_node : Node St)
  : outcome bool :=
  match best_parent child with
  | None => Done true
  | Some _ =>
      let! parent := deref_opt h (best_parent child) in
      Done (cost_to_come sample_node <? cost_to_come parent)%D
  end.

(** "Update goal to ensure it always has the best parent". *)
Definition rewire (fuel : nat) (h : heap St) (sample_node child : ptr)
    (graph goals : SearchableSet) (outbound : bool) : outcome (heap St) :=
  let! c := deref h child in
  let! sn := deref h sample_node in
  let! better := better_parent_test h c sn in
  if better then
    let h := alter (set_best_parent (Some sample_node)) child h in
    let start_node :=
      if outbound then InitialNode graph else InitialNode goals in
    UpdateDescendants fuel h sample_node start_node
  else Done h.

(** "Make sure all ancestors are viable":
    [while (parent != nullptr && !parent->is_viable)]. *)
Fixpoint mark_viable (fuel : nat) (h : heap St) (parent : option ptr)
  : outcome (heap St) :=
  match parent with
  | None => Done h
  | Some p =>
      let! n := deref h p in
      if negb (is_viable n) then
        match fuel with
        | O => OutOfFuel
        | Datatypes.S fuel' =>
            mark_viable fuel' (alter (set_is_viable true) p h)
                        (best_parent n)
        end
      else Done h
  end.

(** The [while] loop of [RecursivePlan].  The clock is part of the
    environment: the loop is given one sample for each round that starts
    before the deadline, and the list ends where the test
    [(now - initial_call_time) < max_runtime_] fails.  The loop answers
    [Some traj] when a round returns [traj], and [None] when it runs
    out of time.  The recursive call of step 5 is commented out in the
    source: a round that finds no goal does nothing more.  The parameter
    [start_time] of the source is never read and is left out. *)
Fixpoint RecursivePlan_loop (fuel : nat) (samples : list St)
    (h : heap St) (graph goals : SearchableSet) (outbound : bool)
  : outcome (heap St * option (Trajectory St)) :=
  match samples with
  | [] => Done (h, None)
  | sample :: samples =>
      let! neighbors := KnnSearch graph h sample (num_neighbors_ this) in
      let! (h, sample_node) := attach h sample neighbors in
      match sample_node with
      | None => RecursivePlan_loop fuel samples h graph goals outbound
      | Some sample_node =>
          let! neighboring_goals :=
            RadiusSearch goals h sample (search_radius_ this) in
          let! (h, child) := connect h sample sample_node neighboring_goals in
          match child with
          | None => RecursivePlan_loop fuel samples h graph goals outbound
          | Some child =>
              let! h := rewire fuel h sample_node child graph goals outbound in
              let! h := mark_viable fuel h (Some sample_node) in
              if outbound then
                let! traj := ExtractTrajectory fuel h (InitialNode graph)
                                               (InitialNode goals) in
                Done (h, Some traj)
              else Done (h, Some empty_Trajectory)
          end
      end
  end.

(** What [RecursivePlan] does once the loop has run out of time; the
    messages are those of [ROS_ERROR] and [ROS_INFO], without the name of
    the planner. *)
Definition out_of_time (fuel : nat) (h : heap St) (graph : SearchableSet)
    (outbound : bool) : outcome (Trajectory St * list string) :=
  let log := ["Planner ran out of time."%string] in
  if negb outbound then Done (empty_Trajectory, log)
  else
    let! start := deref h (InitialNode graph) in
    match best_parent start with
    | None =>
        Done (empty_Trajectory, log ++ ["No viable loops available."%string])
    | Some _ =>
        let! traj := ExtractTrajectory fuel h (InitialNode graph)
                                       (InitialNode graph) in
        Done (traj, log ++ ["Found a viable loop."%string])
    end.

Definition RecursivePlan (fuel : nat) (samples : list St) (h : heap St)
    (graph goals : SearchableSet) (outbound : bool)
  : outcome (heap St * Trajectory St * list string) :=
  let! (h, answer) :=
    RecursivePlan_loop fuel samples h graph goals outbound in
  match answer with
  | Some traj => Done (h, traj, [])
  | None =>
      let! (traj, log) := out_of_time fuel h graph outbound in
      Done (h, traj, log)
  end.

(** *** Plan *)

Definition start_ptr : ptr := 0.
Definition goal_ptr : ptr := 1.

(** The arena after the two [Node::Create()] of [Plan]. *)
Definition Plan_setup (start goal : St) (start_time : double) : heap St :=
  [ {| state := start; time := start_time; cost_to_come := dZ 0;
       is_viable := true; best_parent := None;
       children := []; trajs_to_children := [] |};
    {| state := goal; time := kInfinity this; cost_to_come := kInfinity this;
       is_viable := true; best_parent := None;
       children := []; trajs_to_children := [] |} ].

Definition Plan (fuel : nat) (samples : list St) (start goal : St)
    (start_time : double)
  : outcome (heap St * Trajectory St * list string) :=
  RecursivePlan fuel samples (Plan_setup start goal start_time)
                (SearchableSet_ctor start_ptr) (SearchableSet_ctor goal_ptr)
                true.

(** *** The graph states of one call of [Plan] *)

Section Reachable.
Variables (start goal : St) (start_time : double).

Let graph : SearchableSet := SearchableSet_ctor start_ptr.
Let goals : SearchableSet := SearchableSet_ctor goal_ptr.

(** The arena at every point that a call [Plan(start, goal, start_time)]
    can reach, whatever the samples and however long the clock lets the
    loop run: after the set-up, an attach, a goal connection, the
    assignment of the goal's parent, each round of the breadth-first
    rewiring, and the marking of the viable ancestors. *)
Inductive reachable : point St -> heap St -> Prop :=
| reach_setup :
    reachable AtLoopHead (Plan_setup start goal start_time)
| reach_attach h sample neighbors h' sample_node :
    reachable AtLoopHead h ->
    KnnSearch graph h sample (num_neighbors_ this) = Done neighbors ->
    attach h sample neighbors = Done (h', Some sample_node) ->
    reachable (Attached sample sample_node) h'
| reach_no_goal h sample sample_node neighboring_goals h' :
    reachable (Attached sample sample_node) h ->
    RadiusSearch goals h sample (search_radius_ this) = Done neighboring_goals ->
    connect h sample sample_node neighboring_goals = Done (h', None) ->
    reachable AtLoopHead h'
| reach_connect h sample sample_node neighboring_goals h' child :
    reachable (Attached sample sample_node) h ->
    RadiusSearch goals h sample (search_radius_ this) = Done neighboring_goals ->
    connect h sample sample_node neighboring_goals = Done (h', Some child) ->
    reachable (Connected sample_node child) h'
| reach_new_parent h sample_node child c sn :
    reachable (Connected sample_node child) h ->
    h !! child = Some c -> h !! sample_node = Some sn ->
    better_parent_test h c sn = Done true ->
    reachable (Updating sample_node [sample_node])
              (alter (set_best_parent (Some sample_node)) child h)
| reach_old_parent h sample_node child c sn :
    reachable (Connected sample_node child) h ->
    h !! child = Some c -> h !! sample_node = Some sn ->
    better_parent_test h c sn = Done false ->
    reachable (Rewired sample_node) h
| reach_update h sample_node current_node queue h' queue' :
    reachable (Updating sample_node (current_node :: queue)) h ->
    UpdateDescendants_body (InitialNode graph) current_node h queue
      = Done (h', queue') ->
    reachable (Updating sample_node queue') h'
| reach_updated h sample_node :
    reachable (Updating sample_node []) h ->
    reachable (Rewired sample_node) h
| reach_viable h sample_node fuel h' :
    reachable (Rewired sample_node) h ->
    mark_viable fuel h (Some sample_node) = Done h' ->
    reachable Returned h'.

End Reachable.

End GraphDynamicPlanner.

(* ===================================================================== *)
(** ** Properties of graphs and trajectories *)
(* ===================================================================== *)

Section Properties.
Context {St : Type} `{State St}.

(** Following [best_parent] from [p] meets a node without parent after at
    most [k] steps. *)
Fixpoint reaches_root (k : nat) (h : heap St) (p : ptr) : bool :=
  match h !! p with
  | None => false
  | Some n =>
      match best_parent n with
      | None => true
      | Some q =>
          match k with
          | O => false
          | Datatypes.S k' => reaches_root k' h q
          end
      end
  end.

(** The [k]-th ancestor of [p] along [best_parent], if the chain is that
    long. *)
Fixpoint ancestor (k : nat) (h : heap St) (p : ptr) : option ptr :=
  match k with
  | O => Some p
  | Datatypes.S k' =>
      match h !! p with
      | None => None
      | Some n =>
          match best_parent n with
          | None => None
          | Some q => ancestor k' h q
          end
      end
  end.

(** The cost to come of every sample node is the time elapsed since
    [start_time], by the [==] of the doubles. *)
Definition cost_is_elapsed_time (start_time : double) (h : heap St) : Prop :=
  forall i n, h !! i = Some n -> 2 <= i ->
    SFeqb (cost_to_come n) (time n - start_time)%D = true.

(** The shape of the arena of [Plan]: the start is node 0 and the goal
    node 1; a child is younger than its parent or is the goal, which has
    no children; a best parent is older than the node, or the node is the
    goal, and the goal is nobody's parent. *)
Definition children_ranked (h : heap St) : Prop :=
  forall i n, h !! i = Some n ->
    (i = goal_ptr -> children n = []) /\
    (forall c, c ∈ children n -> i < c \/ c = goal_ptr).

Definition parents_ranked (h : heap St) : Prop :=
  forall i n p, h !! i = Some n -> best_parent n = Some p ->
    p < length h /\ p <> goal_ptr /\ (p < i \/ i = goal_ptr).

Definition well_formed (h : heap St) : Prop :=
  2 <= length h /\ children_ranked h /\ parents_ranked h.

(** What a point of the planner promises about the nodes it names. *)
Definition point_ok (pt : point St) (h : heap St) : Prop :=
  match pt with
  | AtLoopHead | Returned => True
  | Attached _ sn | Rewired sn | Updating sn _ =>
      sn < length h /\ sn <> goal_ptr
  | Connected sn child =>
      sn < length h /\ sn <> goal_ptr /\ child = goal_ptr
  end.

(** The children of [p], none for a pointer outside the arena. *)
Definition children_of (h : heap St) (p : ptr) : list ptr :=
  match h !! p with
  | Some n => children n
  | None => []
  end.

(** The number of rounds the breadth-first loop spends on [p] and on what
    it enqueues from there, down to [depth] generations. *)
Fixpoint weight (depth : nat) (h : heap St) (p : ptr) : nat :=
  match depth with
  | O => 1
  | Datatypes.S d => 1 + sum_list_with (weight d h) (children_of h p)
  end.

(** How many generations lie below [p] at most. *)
Definition generations (h : heap St) (p : ptr) : nat :=
  if p =? goal_ptr then 0 else length h - p.

(** Two arenas with the same nodes up to fields other than [children]. *)
Definition same_children (h h' : heap St) : Prop :=
  length h' = length h /\
  forall i n', h' !! i = Some n' ->
    exists n, h !! i = Some n /\ children n' = children n.

(** The two lists of a node are aligned, and every child is a node of the
    arena with a best parent, unless [excused]. *)
Definition linked (excused : ptr -> Prop) (h : heap St) : Prop :=
  forall i n, h !! i = Some n ->
    length (trajs_to_children n) = length (children n) /\
    forall c, c ∈ children n ->
      exists cn, h !! c = Some cn /\ (best_parent cn <> None \/ excused c).

(** Every node has as many edge trajectories as children, and every
    child is a node of the arena. *)
Definition aligned (h : heap St) : Prop :=
  forall i n, h !! i = Some n ->
    length (trajs_to_children n) = length (children n) /\
    forall c, c ∈ children n -> c < length h.

(** Between the connection to the goal and the choice of its parent the
    goal may be a child without best parent. *)
Definition may_lack_parent (pt : point St) (c : ptr) : Prop :=
  match pt with
  | Connected _ _ => c = goal_ptr
  | _ => False
  end.

(** Interpolation idempotence, as the test plan words it: at each of its
    timestamps the trajectory interpolates to the state stored there. *)
Definition interpolation_idempotent (eps : double) (traj : Trajectory St)
  : Prop :=
  forall i t s,
    times_ traj !! i = Some t -> states_ traj !! i = Some s ->
    exists r, Interpolate traj t = Done r /\ within eps r s.

(** [k] is the partition point of [times] for [element < t]: the elements
    before it are less than [t] and those from it on are not, which is
    what [std::lower_bound] asks of its range. *)
Definition partition_point (times : list double) (t : double) (k : nat)
  : Prop :=
  k <= length times /\
  (forall j x, j < k -> times !! j = Some x -> (x <? t)%D = true) /\
  (forall j x, k <= j -> times !! j = Some x -> (x <? t)%D = false).

(** No earlier sample carries the timestamp of sample [i]. *)
Definition first_occurrence (times : list double) (i : nat) : Prop :=
  forall j tj ti, j < i -> times !! j = Some tj -> times !! i = Some ti ->
    (tj <? ti)%D = true.

End Properties.

(** The tolerance of the data model. *)
Definition epsilon : double := (dZ 1 / dZ 100000000)%D.

(** The sub-planner of the scenarios: a straight line at unit speed. *)
Definition straight_line (from to : double) (start_time : double)
  : Trajectory double :=
  {| states_ := [from; to];
     times_ := [start_time;
                (start_time + (if (from <=? to)%D then to - from
                               else from - to))%D] |}.

(** The planner of scenario S1 on the line: straight sub-plans, the
    default cost, goals sought within distance 1; a large number stands
    for [kInfinity]. *)
Definition line_planner : GraphDynamicPlanner double :=
  {| SubPlan := straight_line; Cost := default_Cost;
     num_neighbors_ := 3; search_radius_ := dZ 1;
     kInfinity := dZ 1000; kEpsilon := (dZ 1 / dZ 100000000)%D |}.

(** A sub-planner at unit speed that times its trajectories from zero,
    and the planner built on it. *)
Definition line_from_zero (from to : double) (start_time : double)
  : Trajectory double :=
  {| states_ := [from; to];
     times_ := [dZ 0;
                if (from <=? to)%D then (to - from)%D else (from - to)%D] |}.

Definition zero_timed_planner : GraphDynamicPlanner double :=
  {| SubPlan := line_from_zero; Cost := default_Cost;
     num_neighbors_ := 3; search_radius_ := dZ 1;
     kInfinity := dZ 1000; kEpsilon := (dZ 1 / dZ 100000000)%D |}.

(** The doubles nearest to 0.1 and to 0.2. *)
Definition tenth : double := (dZ 1 / dZ 10)%D.
Definition fifth : double := (dZ 2 / dZ 10)%D.

(** The arena of [Plan(0, 10, 0.1)] under [zero_timed_planner] once the
    sample 0.2 has been attached to the start. *)
Definition arena_at_a_tenth : heap double :=
  [ {| state := dZ 0; time := tenth; cost_to_come := dZ 0;
       is_viable := true; best_parent := None; children := [2];
       trajs_to_children := [line_from_zero (dZ 0) fifth tenth] |};
    {| state := dZ 10; time := dZ 1000; cost_to_come := dZ 1000;
       is_viable := true;
       best_parent := None; children := []; trajs_to_children := [] |};
    {| state := fifth; time := (tenth + fifth)%D;
       cost_to_come := (dZ 0 + fifth)%D; is_viable := false;
       best_parent := Some 0; children := []; trajs_to_children := [] |} ].

(** The arena of [Plan(0, 10, 0)] under [line_planner] once the sample 9
    has been attached to the start and connected to the goal, and the
    goal has been given the sample node as its best parent: the state in
    which [RecursivePlan] calls [UpdateDescendants]. *)
Definition arena_before_update : heap double :=
  [ {| state := (dZ 0); time := (dZ 0); cost_to_come := (dZ 0); is_viable := true;
       best_parent := None; children := [2];
       trajs_to_children := [straight_line (dZ 0) (dZ 9) (dZ 0)] |};
    {| state := (dZ 10); time := (dZ 1000); cost_to_come := (dZ 1000);
       is_viable := true;
       best_parent := Some 2; children := []; trajs_to_children := [] |};
    {| state := (dZ 9); time := (dZ 9); cost_to_come := (dZ 9); is_viable := false;
       best_parent := Some 0; children := [1];
       trajs_to_children := [straight_line (dZ 9) (dZ 10) (dZ 9)] |} ].

(** An arena in which the start (node 0, at 0) and a second node (at 5)
    are each other's best parent: a loop anchored at the start. *)
Definition arena_with_loop : heap double :=
  [ {| state := (dZ 0); time := (dZ 0); cost_to_come := (dZ 0); is_viable := true;
       best_parent := Some 1; children := [1];
       trajs_to_children := [straight_line (dZ 0) (dZ 5) (dZ 0)] |};
    {| state := (dZ 5); time := (dZ 5); cost_to_come := (dZ 5); is_viable := true;
       best_parent := Some 0; children := [0];
       trajs_to_children := [straight_line (dZ 5) (dZ 0) (dZ 5)] |} ].

(** ** Notions for the further properties *)

Section MoreProperties.
Context {St : Type} `{State St}.

(** A neighbor that the attach loop passes over: it is nearer to the
    sample than [kEpsilon], or its sub-plan to the sample is empty. *)
Definition passed_over (this : GraphDynamicPlanner St) (h : heap St)
    (sample : St) (neighbor : ptr) : Prop :=
  exists nb, h !! neighbor = Some nb /\
    (norm_lt (vsub (ToVector (state nb)) (ToVector sample)) (kEpsilon this)
       = true \/
     Size (SubPlan this (state nb) sample (time nb)) = 0).

(** The number of nodes that are not viable. *)
Definition count_not_viable (h : heap St) : nat :=
  length (List.filter (fun n => negb (is_viable n)) h).

(** What a rewiring may do to an arena: every node keeps its state, its
    viability, its children and the number of its edge trajectories, and
    a node whose best parent changes gets a node that lists it as a
    child. *)
Definition rewired_from (h h' : heap St) : Prop :=
  length h' = length h /\
  forall i n', h' !! i = Some n' ->
    exists n, h !! i = Some n /\
      state n' = state n /\ is_viable n' = is_viable n /\
      children n' = children n /\
      length (trajs_to_children n') = length (trajs_to_children n) /\
      (best_parent n' = best_parent n \/
       exists p np, best_parent n' = Some p /\ h !! p = Some np /\
                    i ∈ children np).

(** Which nodes may list the goal among their children at a point of
    [Plan], and what the goal's best parent is there. *)
Definition goal_child_of (pt : point St) (i : ptr) : Prop :=
  match pt with
  | Connected sn _ | Updating sn _ | Rewired sn => i = sn
  | Returned => 2 <= i
  | AtLoopHead | Attached _ _ => False
  end.

Definition goal_parent_at (pt : point St) (h : heap St)
    (parent : option ptr) : Prop :=
  match pt with
  | AtLoopHead | Attached _ _ | Connected _ _ => parent = None
  | Updating sn _ | Rewired sn => parent = Some sn
  | Returned =>
      exists sn s, parent = Some sn /\ 2 <= sn /\ h !! sn = Some s /\
                   is_viable s = true
  end.

Definition sample_of (pt : point St) : option ptr :=
  match pt with
  | Attached _ sn | Connected sn _ | Updating sn _ | Rewired sn => Some sn
  | AtLoopHead | Returned => None
  end.

(** The arena of [Plan] is a star: the set [graph] holds the start alone,
    so that every sample node hangs under the start and has no child
    but the goal; the start and the goal are viable. *)
Definition star (pt : point St) (h : heap St) : Prop :=
  (forall i n, h !! i = Some n -> 2 <= i ->
     best_parent n = Some start_ptr) /\
  (forall n, h !! start_ptr = Some n ->
     is_viable n = true /\ best_parent n = None) /\
  (forall n, h !! goal_ptr = Some n ->
     is_viable n = true /\ goal_parent_at pt h (best_parent n)) /\
  (forall i n c, h !! i = Some n -> c ∈ children n ->
     (2 <= c /\ i = start_ptr) \/ (c = goal_ptr /\ goal_child_of pt i)) /\
  (forall sn, sample_of pt = Some sn -> 2 <= sn).

(** Every node is listed among the children of its best parent; between
    the connection to the goal and the choice of its parent the goal is
    listed under the sample node already. *)
Definition listed (pt : point St) (h : heap St) : Prop :=
  (forall i n p, h !! i = Some n -> best_parent n = Some p ->
     exists pn, h !! p = Some pn /\ i ∈ children pn) /\
  match pt with
  | Connected sn child => exists s, h !! sn = Some s /\ child ∈ children s
  | _ => True
  end.

(** [ResetFirstTime(t0)], [k] times over. *)
Definition retimed (k : nat) (traj : Trajectory St) (t0 : double)
  : Trajectory St :=
  Nat.iter k (fun T => ResetFirstTime T t0) traj.

(** What the nodes and the edges of an arena of [Plan] hold: the start
    and the goal keep their states, and the start its time; an edge out
    of the start is the sub-plan from the start to the child at the
    start time; a sample node is timed by the sub-plan that reaches it,
    and an edge out of it is the sub-plan from there to the goal, re-timed
    to the time of the node by the rewirings that went over it. *)
Definition edges (this : GraphDynamicPlanner St) (start goal : St)
    (start_time : double) (h : heap St) : Prop :=
  (forall r, h !! start_ptr = Some r ->
     state r = start /\ time r = start_time /\
     forall jj c cn T, children r !! jj = Some c -> h !! c = Some cn ->
       trajs_to_children r !! jj = Some T ->
       T = SubPlan this start (state cn) start_time) /\
  (forall g, h !! goal_ptr = Some g -> state g = goal) /\
  (forall i n, h !! i = Some n -> 2 <= i ->
     time n = (start_time
               + Duration (SubPlan this start (state n) start_time))%D /\
     forall T, T ∈ trajs_to_children n ->
       exists k, T = retimed k (SubPlan this (state n) goal (time n))
                             (time n)).

(** The costs to come in an arena of [Plan]: zero at the start, and at a
    sample node zero plus the cost of the sub-plan that reaches it from
    the start. *)
Definition costed (this : GraphDynamicPlanner St) (start : St)
    (start_time : double) (h : heap St) : Prop :=
  (forall r, h !! start_ptr = Some r -> cost_to_come r = dZ 0) /\
  (forall i n, h !! i = Some n -> 2 <= i ->
     cost_to_come n
     = (dZ 0 + Cost this (SubPlan this start (state n) start_time))%D).

(** A step that keeps the states, and the costs to come outside the
    goal. *)
Definition keeps_costs (h h' : heap St) : Prop :=
  forall i n', h' !! i = Some n' ->
    exists n, h !! i = Some n /\ state n' = state n /\
      (i <> goal_ptr -> cost_to_come n' = cost_to_come n).

(** A step that keeps the states and the children, the times outside the
    goal and the edges of the start, and at most re-times the edges of
    the other nodes to the time of their node. *)
Definition re_timed_from (h h' : heap St) : Prop :=
  forall i n', h' !! i = Some n' ->
    exists n, h !! i = Some n /\ state n' = state n /\
      children n' = children n /\
      (i <> goal_ptr -> time n' = time n) /\
      (i = start_ptr -> trajs_to_children n' = trajs_to_children n) /\
      (forall T, T ∈ trajs_to_children n' ->
         T ∈ trajs_to_children n \/
         exists T0, T0 ∈ trajs_to_children n /\
                    T = ResetFirstTime T0 (time n)).

(** The goal is timed along the edge [T] out of the sample node [s],
    its best parent [sn]. *)
Definition goal_timed (this : GraphDynamicPlanner St) (h : heap St)
    (sn : ptr) (s : Node St) (T : Trajectory St) : Prop :=
  exists g, h !! goal_ptr = Some g /\ best_parent g = Some sn /\
    time g = (time s + Duration T)%D /\
    cost_to_come g = (cost_to_come s + Cost this T)%D.

(** The sample node of the current round, point by point: a leaf after
    the attach; then with the goal as only child, along the sub-plan from
    its state to the goal at its time; once the rewiring has visited it,
    with that sub-plan re-timed and the goal timed along it. *)
Definition sample_edge (this : GraphDynamicPlanner St) (goal : St)
    (pt : point St) (h : heap St) : Prop :=
  match pt with
  | AtLoopHead => True
  | Attached sample sn =>
      exists s, h !! sn = Some s /\ state s = sample /\
        children s = [] /\ trajs_to_children s = []
  | Connected sn _ =>
      exists s, h !! sn = Some s /\ children s = [goal_ptr] /\
        trajs_to_children s = [SubPlan this (state s) goal (time s)]
  | Updating sn q =>
      exists s, h !! sn = Some s /\ children s = [goal_ptr] /\
        ((q = [sn] /\
          trajs_to_children s = [SubPlan this (state s) goal (time s)]) \/
         ((q = [goal_ptr] \/ q = []) /\
          trajs_to_children s
          = [ResetFirstTime (SubPlan this (state s) goal (time s)) (time s)]
          /\
          goal_timed this h sn s
            (ResetFirstTime (SubPlan this (state s) goal (time s))
                            (time s))))
  | Rewired sn =>
      exists s, h !! sn = Some s /\ children s = [goal_ptr] /\
        trajs_to_children s
        = [ResetFirstTime (SubPlan this (state s) goal (time s)) (time s)] /\
        goal_timed this h sn s
          (ResetFirstTime (SubPlan this (state s) goal (time s)) (time s))
  | Returned =>
      exists sn s, h !! sn = Some s /\ children s = [goal_ptr] /\
        trajs_to_children s
        = [ResetFirstTime (SubPlan this (state s) goal (time s)) (time s)] /\
        goal_timed this h sn s
          (ResetFirstTime (SubPlan this (state s) goal (time s)) (time s))
  end.

(** Right after the attach the new node holds the sample. *)
Definition holds_sample (pt : point St) (h : heap St) : Prop :=
  match pt with
  | Attached sample sn => exists s, h !! sn = Some s /\ state s = sample
  | _ => True
  end.

End MoreProperties.

(** A sub-planner that never finds a connection, and the planner of
    scenario S2 built on it. *)
Definition no_connection (from to : double) (start_time : double)
  : Trajectory double :=
  empty_Trajectory.

Definition stuck_planner : GraphDynamicPlanner double :=
  {| SubPlan := no_connection; Cost := default_Cost;
     num_neighbors_ := 3; search_radius_ := dZ 1;
     kInfinity := dZ 1000; kEpsilon := (dZ 1 / dZ 100000000)%D |}.

(** The arena of [Plan(0, 10, 0)] under [line_planner] when it returns
    after the samples 3 and 9. *)
Definition arena_at_return : heap double :=
  [ {| state := (dZ 0); time := (dZ 0); cost_to_come := (dZ 0); is_viable := true;
       best_parent := None; children := [2; 3];
       trajs_to_children := [straight_line (dZ 0) (dZ 3) (dZ 0);
                             straight_line (dZ 0) (dZ 9) (dZ 0)] |};
    {| state := (dZ 10); time := (dZ 10); cost_to_come := (dZ 10); is_viable := true;
       best_parent := Some 3; children := []; trajs_to_children := [] |};
    {| state := (dZ 3); time := (dZ 3); cost_to_come := (dZ 3); is_viable := false;
       best_parent := Some 0; children := []; trajs_to_children := [] |};
    {| state := (dZ 9); time := (dZ 9); cost_to_come := (dZ 9); is_viable := true;
       best_parent := Some 0; children := [1];
       trajs_to_children := [straight_line (dZ 9) (dZ 10) (dZ 9)] |} ].

(** The arena of [Plan(0, 10, 0)] under [line_planner] once the sample 9
    has been attached to the start. *)
Definition arena_after_attach : heap double :=
  [ {| state := (dZ 0); time := (dZ 0); cost_to_come := (dZ 0); is_viable := true;
       best_parent := None; children := [2];
       trajs_to_children := [straight_line (dZ 0) (dZ 9) (dZ 0)] |};
    {| state := (dZ 10); time := (dZ 1000); cost_to_come := (dZ 1000);
       is_viable := true;
       best_parent := None; children := []; trajs_to_children := [] |};
    {| state := (dZ 9); time := (dZ 9); cost_to_come := (dZ 9); is_viable := false;
       best_parent := Some 0; children := []; trajs_to_children := [] |} ].

(** The trajectory that [Plan(0, 10, 0)] returns under [line_planner]
    after the samples 3 and 9. *)
Definition path_at_return : Trajectory double :=
  {| states_ := [(dZ 0); (dZ 9); (dZ 9); (dZ 10)]; times_ := [(dZ 0); (dZ 9); (dZ 9); (dZ 10)] |}.

(** The arena of [Plan(0, 10, 0)] under [line_planner] when the clock
    stops it after the sample 5, from which the goal is out of reach. *)
Definition arena_out_of_time : heap double :=
  [ {| state := (dZ 0); time := (dZ 0); cost_to_come := (dZ 0); is_viable := true;
       best_parent := None; children := [2];
       trajs_to_children := [straight_line (dZ 0) (dZ 5) (dZ 0)] |};
    {| state := (dZ 10); time := (dZ 1000); cost_to_come := (dZ 1000);
       is_viable := true;
       best_parent := None; children := []; trajs_to_children := [] |};
    {| state := (dZ 5); time := (dZ 5); cost_to_come := (dZ 5); is_viable := false;
       best_parent := Some 0; children := []; trajs_to_children := [] |} ].

(** The arena of [Plan(0, 10, 0)] under [line_planner] once the sample 9
    has been attached to the start and connected to the goal. *)
Definition arena_connected : heap double :=
  [ {| state := (dZ 0); time := (dZ 0); cost_to_come := (dZ 0); is_viable := true;
       best_parent := None; children := [2];
       trajs_to_children := [straight_line (dZ 0) (dZ 9) (dZ 0)] |};
    {| state := (dZ 10); time := (dZ 1000); cost_to_come := (dZ 1000);
       is_viable := true;
       best_parent := None; children := []; trajs_to_children := [] |};
    {| state := (dZ 9); time := (dZ 9); cost_to_come := (dZ 9); is_viable := false;
       best_parent := Some 0; children := [1];
       trajs_to_children := [straight_line (dZ 9) (dZ 10) (dZ 9)] |} ].

(** An arena whose two nodes are each other's best parent and are not
    viable. *)
Definition arena_with_idle_loop : heap double :=
  [ {| state := (dZ 0); time := (dZ 0); cost_to_come := (dZ 0); is_viable := false;
       best_parent := Some 1; children := [1];
       trajs_to_children := [straight_line (dZ 0) (dZ 5) (dZ 0)] |};
    {| state := (dZ 5); time := (dZ 5); cost_to_come := (dZ 5); is_viable := false;
       best_parent := Some 0; children := [0];
       trajs_to_children := [straight_line (dZ 5) (dZ 0) (dZ 5)] |} ].

(* ===================================================================== *)
(** ** The tracker *)
(* ===================================================================== *)

Module tracking.

(** The node handle, as far as [Tracker] uses it: its namespace and what
    [getParam(key, var)] finds for a [std::string] and for a [double]
    variable; [None] is where [getParam] returns false and leaves the
    variable alone. *)
Record NodeHandle : Type := {
  getNamespace : string;
  getParam_string : string -> option string;
  getParam_double : string -> option double
}.

(** The member functions that [RegisterCallbacks] hands to ROS. *)
Inductive callback : Type :=
| TrackingBoundServer
| PlannerDynamicsServer
| PlannerStateCallback
| TrackerStateCallback
| TimerCallback.

(** The calls by which a tracker registers with ROS. *)
Inductive registration : Type :=
| advertiseService (name : string) (server : callback)
| subscribe (topic : string) (queue_size : nat) (cb : callback)
| advertise (topic : string) (queue_size : nat) (latch : bool)
| createTimer (period : double) (cb : callback).

(** The members of [Tracker] that [Initialize] reads or writes. *)
Record Tracker : Type := {
  tracker_state_topic_ : string;
  planner_state_topic_ : string;
  control_topic_ : string;
  bound_name_ : string;
  planner_dynamics_name_ : string;
  time_step_ : double;
  initialized_ : bool;
  name_ : string
}.

(** [explicit Tracker() : initialized_(false) {}]: the strings are empty;
    [time_step_] is not initialised and holds whatever it holds. *)
Definition Tracker_ctor (time_step : double) : Tracker :=
  {| tracker_state_topic_ := EmptyString;
     planner_state_topic_ := EmptyString;
     control_topic_ := EmptyString; bound_name_ := EmptyString;
     planner_dynamics_name_ := EmptyString;
     time_step_ := time_step; initialized_ := false;
     name_ := EmptyString |}.

Definition set_tracker_state_topic (v : string) (t : Tracker) : Tracker :=
  {| tracker_state_topic_ := v;
     planner_state_topic_ := planner_state_topic_ t;
     control_topic_ := control_topic_ t; bound_name_ := bound_name_ t;
     planner_dynamics_name_ := planner_dynamics_name_ t;
     time_step_ := time_step_ t; initialized_ := initialized_ t;
     name_ := name_ t |}.

Definition set_planner_state_topic (v : string) (t : Tracker) : Tracker :=
  {| tracker_state_topic_ := tracker_state_topic_ t;
     planner_state_topic_ := v;
     control_topic_ := control_topic_ t; bound_name_ := bound_name_ t;
     planner_dynamics_name_ := planner_dynamics_name_ t;
     time_step_ := time_step_ t; initialized_ := initialized_ t;
     name_ := name_ t |}.

Definition set_bound_name (v : string) (t : Tracker) : Tracker :=
  {| tracker_state_topic_ := tracker_state_topic_ t;
     planner_state_topic_ := planner_state_topic_ t;
     control_topic_ := control_topic_ t; bound_name_ := v;
     planner_dynamics_name_ := planner_dynamics_name_ t;
     time_step_ := time_step_ t; initialized_ := initialized_ t;
     name_ := name_ t |}.

Definition set_planner_dynamics_name (v : string) (t : Tracker) : Tracker :=
  {| tracker_state_topic_ := tracker_state_topic_ t;
     planner_state_topic_ := planner_state_topic_ t;
     control_topic_ := control_topic_ t; bound_name_ := bound_name_ t;
     planner_dynamics_name_ := v;
     time_step_ := time_step_ t; initialized_ := initialized_ t;
     name_ := name_ t |}.

Definition set_time_step (v : double) (t : Tracker) : Tracker :=
  {| tracker_state_topic_ := tracker_state_topic_ t;
     planner_state_topic_ := planner_state_topic_ t;
     control_topic_ := control_topic_ t; bound_name_ := bound_name_ t;
     planner_dynamics_name_ := planner_dynamics_name_ t;
     time_step_ := v; initialized_ := initialized_ t;
     name_ := name_ t |}.

Definition set_initialized (v : bool) (t : Tracker) : Tracker :=
  {| tracker_state_topic_ := tracker_state_topic_ t;
     planner_state_topic_ := planner_state_topic_ t;
     control_topic_ := control_topic_ t; bound_name_ := bound_name_ t;
     planner_dynamics_name_ := planner_dynamics_name_ t;
     time_step_ := time_step_ t; initialized_ := v;
     name_ := name_ t |}.

Definition set_name (v : string) (t : Tracker) : Tracker :=
  {| tracker_state_topic_ := tracker_state_topic_ t;
     planner_state_topic_ := planner_state_topic_ t;
     control_topic_ := control_topic_ t; bound_name_ := bound_name_ t;
     planner_dynamics_name_ := planner_dynamics_name_ t;
     time_step_ := time_step_ t; initialized_ := initialized_ t;
     name_ := v |}.

(** [Tracker::LoadParameters]: five reads, each of which ends the
    function with [false] when it fails; what has been read by then
    stays. *)
Definition LoadParameters (t : Tracker) (n : NodeHandle) : bool * Tracker :=
  match getParam_string n "topic/tracker_state" with
  | None => (false, t)
  | Some v =>
  let t := set_tracker_state_topic v t in
  match getParam_string n "topic/planner_state" with
  | None => (false, t)
  | Some v =>
  let t := set_planner_state_topic v t in
  match getParam_string n "srv/bound" with
  | None => (false, t)
  | Some v =>
  let t := set_bound_name v t in
  match getParam_string n "srv/planner_dynamics" with
  | None => (false, t)
  | Some v =>
  let t := set_planner_dynamics_name v t in
  match getParam_double n "time_step" with
  | None => (false, t)
  | Some v => (true, set_time_step v t)
  end end end end end.

(** [Tracker::RegisterCallbacks]: two services, two subscribers, the
    control publisher and the timer, in this order; it always returns
    true. *)
Definition RegisterCallbacks (t : Tracker) : bool * list registration :=
  (true,
   [ advertiseService (bound_name_ t) TrackingBoundServer;
     advertiseService (planner_dynamics_name_ t) PlannerDynamicsServer;
     subscribe (planner_state_topic_ t) 1 PlannerStateCallback;
     subscribe (tracker_state_topic_ t) 1 TrackerStateCallback;
     advertise (control_topic_ t) 1 false;
     createTimer (time_step_ t) TimerCallback ]).

Section Initialize.

(** [value_.Initialize(n)] of the value function [V], and
    [ros::names::append]. *)
Variable value_Initialize : NodeHandle -> bool.
Variable append : string -> string -> string.

(** [Tracker::Initialize]; the answer comes with the tracker it leaves,
    the registrations it has made and the [ROS_ERROR] messages, without
    the name in front. *)
Definition Initialize (t : Tracker) (n : NodeHandle)
  : bool * Tracker * list registration * list string :=
  let t := set_name (append (getNamespace n) "Tracker") t in
  if negb (value_Initialize n) then
    (false, t, [], ["Failed to initialize value function."%string])
  else
    let (loaded, t) := LoadParameters t n in
    if negb loaded then
      (false, t, [], ["Failed to load parameters."%string])
    else
      let (registered, regs) := RegisterCallbacks t in
      if negb registered then
        (false, t, regs, ["Failed to register callbacks."%string])
      else (true, set_initialized true t, regs, []).

End Initialize.

(** The parameters that the launch file of the tracker node sets, with
    their defaults. *)
Definition launch_file : NodeHandle :=
  {| getNamespace := "/tracker";
     getParam_string := fun key =>
       if String.eqb key "topic/ready" then Some "/ready"%string
       else if String.eqb key "topic/tracker_state"
       then Some "/state/tracker"%string
       else if String.eqb key "topic/planner_state"
       then Some "/state/planner"%string
       else if String.eqb key "topic/control"
       then Some "/fastrack/control"%string
       else if String.eqb key "vis/bound" then Some "/vis/bound"%string
       else if String.eqb key "srv/bound" then Some "/bound"%string
       else if String.eqb key "srv/planner_dynamics"
       then Some "/planner_dynamics"%string
       else if String.eqb key "frames/planner" then Some "planner"%string
       else None;
     getParam_double := fun key =>
       if String.eqb key "time_step" then Some (dZ 2 / dZ 100)%D
       else None |}.

End tracking.

(* ===================================================================== *)
(** * Part II: theorems *)
(* ===================================================================== *)

(** ** The order of the doubles *)

Lemma dlt_irrefl (a : double) : (a <? a)%D = false.
Proof. float_order. Qed.

Lemma dle_trans (a b c : double) :
  (a <=? b)%D = true -> (b <=? c)%D = true -> (a <=? c)%D = true.
Proof. float_order. Qed.

Lemma dle_lt_trans (a b c : double) :
  (a <=? b)%D = true -> (b <? c)%D = true -> (a <? c)%D = true.
Proof. float_order. Qed.

Lemma dlt_le_trans (a b c : double) :
  (a <? b)%D = true -> (b <=? c)%D = true -> (a <? c)%D = true.
Proof. float_order. Qed.

Lemma dle_not_lt (a b : double) :
  (a <=? b)%D = true -> (b <? a)%D = false.
Proof. float_order. Qed.

Lemma dlt_le (a b : double) : (a <? b)%D = true -> (a <=? b)%D = true.
Proof. float_order. Qed.

(** A finite non-zero double divided by itself is one: the quotient of
    the mantissas is exact. *)
Lemma ddiv_self (x : double) : finite_nonzero x -> (x / x)%D = dZ 1.
Proof.
  destruct x as [| | |s m e]; try contradiction. intros _.
  unfold ddiv, SFdiv, SFdiv_core_binary.
  rewrite !Z.sub_diag.
  change (Z.min (fexp 53 1024 0) 0) with (-53)%Z.
  change (0 - -53)%Z with 53%Z. cbv iota beta.
  assert (Hdiv : Z.div_eucl (Z.shiftl (Z.pos m) 53) (Z.pos m)
                 = (2 ^ 53, 0)%Z).
  { rewrite Z.shiftl_mul_pow2 by lia.
    pose proof (Z.div_mul (2 ^ 53) (Z.pos m) ltac:(lia)) as Hq.
    pose proof (Z.mod_mul (2 ^ 53) (Z.pos m) ltac:(lia)) as Hr.
    rewrite (Z.mul_comm (2 ^ 53)) in Hq, Hr.
    unfold Z.div, Z.modulo in Hq, Hr.
    destruct (Z.div_eucl (Z.pos m * 2 ^ 53) (Z.pos m)) as [q r].
    simpl in Hq, Hr. subst. reflexivity. }
  rewrite Hdiv. unfold new_location.
  destruct (Z.even (Z.pos m)); destruct s; reflexivity.
Qed.

(** ** The trajectory constructor *)

Section TrajectoryFacts.
Context {St : Type} `{State St}.

Lemma fix_inversions_length todo : forall ii times times',
  fix_inversions todo ii times = Done times' -> length times' = length times.
Proof.
  induction todo as [|todo IH]; intros ii times times' Hrun; simpl in Hrun.
  - congruence.
  - destruct (at_ times (ii - 1)) as [prev| |]; simpl in Hrun; try discriminate.
    destruct (at_ times ii) as [here| |]; simpl in Hrun; try discriminate.
    destruct (here <? prev)%D.
    + destruct (at_ times (ii + 1)) as [next| |]; simpl in Hrun;
        try discriminate.
      apply IH in Hrun. rewrite Hrun. apply length_insert.
    + apply IH in Hrun. exact Hrun.
Qed.

(** The first invariant holds whenever the constructor returns. *)
Lemma Trajectory_ctor_same_length (states : list St) times traj :
  Trajectory_ctor states times = Done traj -> same_length traj.
Proof.
  unfold Trajectory_ctor, same_length. intros Hctor.
  destruct (negb (length states =? length times)) eqn:Hne.
  - destruct (length times <? length states) eqn:Hlt.
    + destruct (fix_inversions _ _ _) as [times'| |] eqn:Hfix;
        simpl in Hctor; try discriminate.
      injection Hctor as <-. simpl.
      rewrite (fix_inversions_length _ _ _ _ Hfix), length_take.
      apply Nat.ltb_lt in Hlt. lia.
    + destruct (fix_inversions _ _ _) as [times'| |] eqn:Hfix;
        simpl in Hctor; try discriminate.
      injection Hctor as <-. simpl.
      rewrite (fix_inversions_length _ _ _ _ Hfix), length_take.
      apply Nat.ltb_ge in Hlt. lia.
  - destruct (fix_inversions _ _ _) as [times'| |] eqn:Hfix;
      simpl in Hctor; try discriminate.
    injection Hctor as <-. simpl.
    rewrite (fix_inversions_length _ _ _ _ Hfix).
    apply negb_false_iff, Nat.eqb_eq in Hne. exact Hne.
Qed.

(** An inversion at the last index makes the repair read one past the
    end, whatever precedes it, provided the loop gets that far. *)
Lemma fix_inversions_last (times : list double) ii prev here :
  ii + 1 = length times ->
  times !! (ii - 1) = Some prev -> times !! ii = Some here ->
  (here <? prev)%D = true ->
  fix_inversions 1 ii times = Fault (OutOfRange (ii + 1) (length times)).
Proof.
  intros Hlast Hprev Hhere Hinv.
  assert (Hnext : times !! (ii + 1) = None) by (apply lookup_ge_None; lia).
  unfold fix_inversions, at_. rewrite Hprev, Hhere. cbn [obind].
  rewrite Hinv, Hnext. reflexivity.
Qed.

End TrajectoryFacts.

(** C3: the constructor does not establish the ordering invariant.  On
    three states with times 5, 1, 2 no index is out of range; the one
    inversion found, at index 1, is overwritten with the next timestamp,
    2, and the stored times 5, 2, 2 still decrease (the lengths do
    agree). *)
Theorem Trajectory_ctor_keeps_inversion :
  exists traj,
    Trajectory_ctor [dZ 1; dZ 2; dZ 3] [dZ 5; dZ 1; dZ 2] = Done traj /\
    times_ traj = [dZ 5; dZ 2; dZ 2] /\
    same_length traj /\
    ~ non_decreasing (times_ traj).
Proof.
  eexists. split; [reflexivity|]. split; [reflexivity|].
  split; [reflexivity|].
  simpl. intros [Hle _]. vm_compute in Hle. discriminate.
Qed.

(** C7: for some input the inversion sits at the last index, and the
    repair reads [times_[ii + 1]] with [ii + 1] the length of the list:
    the lookup finds nothing there and the constructor faults on exactly
    that index. *)
Theorem Trajectory_ctor_reads_past_end :
  exists (states times : list double) (ii : nat) (prev here : double),
    length states = length times /\
    ii + 1 = length times /\
    times !! (ii - 1) = Some prev /\ times !! ii = Some here /\
    (here <? prev)%D = true /\
    times !! (ii + 1) = None /\
    Trajectory_ctor states times
      = Fault (OutOfRange (ii + 1) (length times)).
Proof.
  exists [dZ 0; dZ 1; dZ 2], [dZ 0; dZ 2; dZ 1], 2, (dZ 2), (dZ 1).
  repeat split; try reflexivity.
Qed.

(** ** Interpolation *)

(** C4: on the empty trajectory the code has no error to report:
    [lower_bound] answers [begin()], the first branch is taken, and
    [states_.front()] is evaluated on an empty vector. *)
Theorem Interpolate_empty_reads_front {St : Type} `{State St} (t : double) :
  Interpolate (St := St) empty_Trajectory t = Fault (OutOfRange 0 0).
Proof. reflexivity. Qed.

Section InterpolateFacts.
Context {St : Type} `{State St}.

(** The bisection stays inside the range it is given. *)
Lemma lower_bound_loop_bound (times : list double) t :
  forall fuel first len,
    first <= lower_bound_loop fuel first len times t <= first + len.
Proof.
  induction fuel as [|fuel IH]; intros first len;
    cbn [lower_bound_loop]; [lia|].
  destruct (len =? 0) eqn:Hlen; [lia|]. apply Nat.eqb_neq in Hlen.
  pose proof (Nat.div_lt len 2 ltac:(lia) Nat.lt_1_2) as Hhalf.
  destruct (times !! (first + len / 2)) as [x|]; [|lia].
  destruct (x <? t)%D.
  - specialize (IH (first + len / 2 + 1) (len - len / 2 - 1)). lia.
  - specialize (IH first (len / 2)). lia.
Qed.

Lemma lower_bound_le_length (times : list double) t :
  lower_bound times t <= length times.
Proof.
  unfold lower_bound.
  pose proof (lower_bound_loop_bound times t (length times) 0
                (length times)). lia.
Qed.

(** On a partitioned range the bisection finds the partition point. *)
Lemma lower_bound_loop_partition (times : list double) t k :
  partition_point times t k ->
  forall fuel first len,
    len <= fuel -> first <= k <= first + len -> first + len <= length times ->
    lower_bound_loop fuel first len times t = k.
Proof.
  intros (_ & Hbefore & Hafter).
  induction fuel as [|fuel IH]; intros first len Hfuel Hk Hrange;
    cbn [lower_bound_loop]; [lia|].
  destruct (len =? 0) eqn:Hlen; [apply Nat.eqb_eq in Hlen; lia|].
  apply Nat.eqb_neq in Hlen.
  pose proof (Nat.div_lt len 2 ltac:(lia) Nat.lt_1_2) as Hhalf.
  destruct (lookup_lt_is_Some_2 times (first + len / 2)) as [x Hx]; [lia|].
  rewrite Hx. destruct (x <? t)%D eqn:Hlt.
  - apply IH; [lia | | lia].
    destruct (Nat.le_gt_cases k (first + len / 2)) as [Hle|Hgt]; [|lia].
    rewrite (Hafter _ _ Hle Hx) in Hlt. discriminate.
  - apply IH; [lia | | lia].
    destruct (Nat.le_gt_cases k (first + len / 2)) as [Hle|Hgt]; [lia|].
    rewrite (Hbefore _ _ Hgt Hx) in Hlt. discriminate.
Qed.

Lemma lower_bound_partition (times : list double) t k :
  partition_point times t k -> lower_bound times t = k.
Proof.
  intros Hpart. unfold lower_bound.
  apply (lower_bound_loop_partition times t k Hpart); [lia | | lia].
  destruct Hpart as (Hk & _). lia.
Qed.

(** In a non-decreasing list an earlier time is at most a later one, and
    no time is a NaN once there are two. *)
Lemma non_decreasing_le : forall (times : list double) i j a b,
  non_decreasing times -> i < j ->
  times !! i = Some a -> times !! j = Some b -> (a <=? b)%D = true.
Proof.
  induction times as [|x rest IH]; intros i j a b Hsorted Hij Ha Hb;
    [discriminate|].
  destruct rest as [|y rest']; [destruct j as [|[|j]]; try lia; discriminate|].
  destruct Hsorted as [Hxy Hrest].
  destruct j as [|j]; [lia|]. simpl in Hb.
  destruct i as [|i].
  - injection Ha as <-. destruct j as [|j].
    + injection Hb as <-. exact Hxy.
    + apply (dle_trans x y b Hxy).
      apply (IH 0 (Datatypes.S j) y b Hrest); [lia | reflexivity | exact Hb].
  - simpl in Ha. apply (IH i j a b Hrest); [lia | exact Ha | exact Hb].
Qed.

(** The first occurrence of a stored timestamp is the partition point
    of a non-decreasing list for it. *)
Lemma first_occurrence_partition (times : list double) i t :
  non_decreasing times -> times !! i = Some t -> first_occurrence times i ->
  partition_point times t i.
Proof.
  intros Hsorted Hi Hfirst. split; [|split].
  - apply lookup_lt_Some in Hi. lia.
  - intros j x Hj Hx. exact (Hfirst j x t Hj Hx Hi).
  - intros j x Hj Hx.
    destruct (Nat.eq_dec j i) as [->|Hne].
    + assert (x = t) as -> by congruence. apply dlt_irrefl.
    + apply dle_not_lt.
      apply (non_decreasing_le times i j t x Hsorted); [lia | exact Hi | exact Hx].
Qed.


End InterpolateFacts.



(** Why the width of the bracket has to be finite: with the times
    -2^1023 and 2^1023 no timestamp is repeated, but their difference
    overflows, the quotient is infinity over infinity, and the
    interpolation at the second timestamp is a NaN. *)
Remark Interpolate_overflow_example :
  non_decreasing [dZ (- 2 ^ 1023); dZ (2 ^ 1023)] /\
  first_occurrence [dZ (- 2 ^ 1023); dZ (2 ^ 1023)] 1 /\
  Interpolate {| states_ := [dZ 0; dZ 1];
                 times_ := [dZ (- 2 ^ 1023); dZ (2 ^ 1023)] |}
              (dZ (2 ^ 1023))
    = Done S754_nan /\
  ~ within epsilon S754_nan (dZ 1).
Proof.
  split; [simpl; split; [vm_compute; reflexivity | exact I]|].
  split.
  { intros j tj ti Hj Htj Hti. destruct j as [|j]; [|lia].
    simpl in Htj, Hti. injection Htj as <-. injection Hti as <-.
    vm_compute. reflexivity. }
  split; [vm_compute; reflexivity|].
  unfold within. vm_compute. discriminate.
Qed.

(** ** The rewiring test of UpdateDescendants *)

Section RewiringTest.
Context {St : Type}.

(** With a parent in place the test of the source succeeds without
    looking at any cost... *)
Lemma rewiring_test_parent (h : heap St) (child current : Node St) p :
  best_parent child = Some p -> rewiring_test h child current = Done true.
Proof. intros Hp. unfold rewiring_test. rewrite Hp. reflexivity. Qed.

(** ... and without one it dereferences the null parent. *)
Lemma rewiring_test_null (h : heap St) (child current : Node St) :
  best_parent child = None ->
  rewiring_test h child current = Fault NullDeref.
Proof. intros Hp. unfold rewiring_test. rewrite Hp. reflexivity. Qed.

Lemma rewiring_test_never_false (h : heap St) (child current : Node St) b :
  rewiring_test h child current = Done b -> b = true.
Proof.
  unfold rewiring_test. destruct (best_parent child); simpl; congruence.
Qed.

End RewiringTest.

Lemma arena_before_update_reachable :
  reachable line_planner (dZ 0) (dZ 10) (dZ 0) (Updating 2 [2]) arena_before_update.
Proof.
  pose proof (reach_setup line_planner (dZ 0) (dZ 10) (dZ 0)) as R0.
  pose proof (reach_attach line_planner (dZ 0) (dZ 10) (dZ 0) _ (dZ 9) [0] _ 2
                R0 eq_refl eq_refl) as R1.
  pose proof (reach_connect line_planner (dZ 0) (dZ 10) (dZ 0) _ (dZ 9) 2 [1] _ 1
                R1 eq_refl eq_refl) as R2.
  exact (reach_new_parent line_planner (dZ 0) (dZ 10) (dZ 0) _ 2 1 _ _
           R2 eq_refl eq_refl eq_refl).
Qed.

Lemma arena_connected_reachable :
  reachable line_planner (dZ 0) (dZ 10) (dZ 0) (Connected 2 1) arena_connected.
Proof.
  pose proof (reach_setup line_planner (dZ 0) (dZ 10) (dZ 0)) as R0.
  pose proof (reach_attach line_planner (dZ 0) (dZ 10) (dZ 0) _ (dZ 9) [0] _ 2
                R0 eq_refl eq_refl) as R1.
  exact (reach_connect line_planner (dZ 0) (dZ 10) (dZ 0) _ (dZ 9) 2 [1] _ 1
           R1 eq_refl eq_refl).
Qed.

(** C1: the code reattaches a child whose best parent is in place and is
    no more expensive than the visited node.  In [arena_before_update] the
    goal (node 1) has the visited node 2 as best parent, so that
    [best_parent.cost_to_come > current.cost_to_come] is false, and yet
    the visit overwrites the goal's time and cost to come. *)
Theorem visit_child_ignores_costs :
  exists current child h' child',
    arena_before_update !! 2 = Some current /\
    arena_before_update !! 1 = Some child /\
    children current !! 0 = Some 1 /\
    best_parent child = Some 2 /\
    (cost_to_come current <? cost_to_come current)%D = false /\
    visit_child line_planner 2 0 arena_before_update [] = Done (h', [1]) /\
    h' !! 1 = Some child' /\
    best_parent child' = Some 2 /\
    time child = (dZ 1000) /\ time child' = (dZ 10) /\
    cost_to_come child = (dZ 1000) /\ cost_to_come child' = (dZ 10).
Proof.
  do 4 eexists. repeat split; reflexivity.
Qed.

(** ** A round that connects to no goal *)

Section NoGoal.
Context {St : Type} `{State St}.
Variable this : GraphDynamicPlanner St.

Lemma connect_none_heap (sample : St) sample_node :
  forall neighboring_goals (h h' : heap St),
    connect this h sample sample_node neighboring_goals = Done (h', None) ->
    h' = h.
Proof.
  induction neighboring_goals as [|goal rest IH]; intros h h' Hrun;
    simpl in Hrun; [congruence|].
  destruct (deref h goal) as [g| |]; simpl in Hrun; try discriminate.
  destruct (negb (is_viable g)); [exact (IH _ _ Hrun)|].
  destruct (deref h sample_node) as [sn| |]; simpl in Hrun; try discriminate.
  destruct (0 <? Size _); [discriminate | exact (IH _ _ Hrun)].
Qed.

(** Without a goal in reach the round ends after the attach, outbound or
    not: the loop goes on with the next sample on the arena as the attach
    left it. *)
Lemma round_without_goal fuel (sample : St) samples (h : heap St)
    graph goals outbound neighbors h1 sample_node neighboring_goals h2 :
  KnnSearch graph h sample (num_neighbors_ this) = Done neighbors ->
  attach this h sample neighbors = Done (h1, Some sample_node) ->
  RadiusSearch goals h1 sample (search_radius_ this) = Done neighboring_goals ->
  connect this h1 sample sample_node neighboring_goals = Done (h2, None) ->
  RecursivePlan_loop this fuel (sample :: samples) h graph goals outbound
    = RecursivePlan_loop this fuel samples h1 graph goals outbound.
Proof.
  intros Hknn Hattach Hradius Hconnect.
  pose proof (connect_none_heap _ _ _ _ _ Hconnect) as ->.
  cbn [RecursivePlan_loop]. rewrite Hknn. cbn [obind].
  rewrite Hattach. cbn [obind]. rewrite Hradius. cbn [obind].
  rewrite Hconnect. reflexivity.
Qed.

End NoGoal.

(** C2: the code makes no recursive call.  In [Plan(0, 10, 0)] with
    [line_planner] the sample 3 is attached to the start and lies out of
    reach of the goal; the round ends there, whether outbound or not, the
    new node 2 is left not viable, and when the clock stops the planner
    answers with the empty trajectory. *)
Theorem no_goal_no_recursive_call (fuel : nat) :
  exists h sample_node,
    (forall outbound,
        RecursivePlan_loop line_planner fuel [(dZ 3)]
          (Plan_setup line_planner (dZ 0) (dZ 10) (dZ 0))
          (SearchableSet_ctor start_ptr) (SearchableSet_ctor goal_ptr)
          outbound = Done (h, None)) /\
    length h = 3 /\
    h !! 2 = Some sample_node /\
    state sample_node = (dZ 3) /\ best_parent sample_node = Some start_ptr /\
    children sample_node = [] /\
    is_viable sample_node = false /\
    Plan line_planner fuel [(dZ 3)] (dZ 0) (dZ 10) (dZ 0)
      = Done (h, empty_Trajectory,
              ["Planner ran out of time."%string;
               "No viable loops available."%string]).
Proof.
  do 2 eexists. split; [intros outbound; reflexivity|].
  repeat split; reflexivity.
Qed.

(** ** Running out of time *)

(** C6: when the loop ends on the deadline, [RecursivePlan] answers with
    the empty trajectory if it is not outbound; if it is outbound and the
    initial node of the graph has a best parent, with whatever
    [ExtractTrajectory(start, start)] yields; and otherwise with the
    empty trajectory, reporting that no viable loops are available. *)
Theorem RecursivePlan_out_of_time {St : Type} `{State St}
    (this : GraphDynamicPlanner St) fuel samples (h : heap St)
    graph goals outbound h' start :
  RecursivePlan_loop this fuel samples h graph goals outbound
    = Done (h', None) ->
  h' !! InitialNode graph = Some start ->
  (outbound = false ->
   RecursivePlan this fuel samples h graph goals outbound
     = Done (h', empty_Trajectory, ["Planner ran out of time."%string])) /\
  (outbound = true -> best_parent start <> None ->
   RecursivePlan this fuel samples h graph goals outbound
     = let! traj := ExtractTrajectory fuel h' (InitialNode graph)
                                      (InitialNode graph) in
       Done (h', traj, ["Planner ran out of time."%string;
                        "Found a viable loop."%string])) /\
  (outbound = true -> best_parent start = None ->
   RecursivePlan this fuel samples h graph goals outbound
     = Done (h', empty_Trajectory,
             ["Planner ran out of time."%string;
              "No viable loops available."%string])).
Proof.
  intros Hloop Hstart. unfold RecursivePlan. rewrite Hloop. cbn [obind].
  unfold out_of_time, deref. rewrite Hstart. cbn [obind].
  split; [|split].
  - intros ->. reflexivity.
  - intros -> Hparent. destruct (best_parent start); [|congruence].
    cbn [negb]. destruct (ExtractTrajectory _ _ _ _); reflexivity.
  - intros -> Hparent. rewrite Hparent. reflexivity.
Qed.

(** ** Arena updates *)

Section ArenaFacts.
Context {St : Type}.
Implicit Types (h : heap St) (n : Node St) (p i : nat).

Lemma deref_Done h p n : deref h p = Done n <-> h !! p = Some n.
Proof.
  unfold deref. destruct (h !! p); split; intros Heq; congruence.
Qed.

Lemma deref_terminates h p : terminates (deref h p).
Proof. unfold terminates, deref. destruct (h !! p); discriminate. Qed.

Lemma at_terminates {A} (v : list A) i : terminates (at_ v i).
Proof. unfold terminates, at_. destruct (v !! i); discriminate. Qed.

Lemma obind_terminates {A B} (m : outcome A) (k : A -> outcome B) :
  terminates m -> (forall a, m = Done a -> terminates (k a)) ->
  terminates (obind m k).
Proof.
  intros Hm Hk. destruct m as [a| |]; simpl.
  - apply Hk. reflexivity.
  - discriminate.
  - exfalso. apply Hm. reflexivity.
Qed.

Lemma at_Done {A} (v : list A) i x : at_ v i = Done x <-> v !! i = Some x.
Proof.
  unfold at_. destruct (v !! i); split; intros Heq; congruence.
Qed.

(** A node read after [alter f p] is the old node, passed through [f] if
    it sits at [p]. *)
Lemma lookup_alter_Some (f : Node St -> Node St) p h i n' :
  alter f p h !! i = Some n' ->
  exists n, h !! i = Some n /\
            ((i = p /\ n' = f n) \/ (i <> p /\ n' = n)).
Proof.
  intros Hlook. destruct (decide (i = p)) as [->|Hne].
  - rewrite list_lookup_alter_eq in Hlook.
    destruct (h !! p) as [n|]; simpl in Hlook; [|discriminate].
    exists n. split; [reflexivity|]. left. split; congruence.
  - rewrite list_lookup_alter_ne in Hlook by congruence.
    exists n'. split; [exact Hlook|]. right. split; [exact Hne|reflexivity].
Qed.

Lemma children_of_lookup h p n : h !! p = Some n -> children_of h p = children n.
Proof. intros Hp. unfold children_of. rewrite Hp. reflexivity. Qed.

Lemma children_of_outside h p : length h <= p -> children_of h p = [].
Proof.
  intros Hp. unfold children_of.
  rewrite (proj2 (lookup_ge_None h p)) by exact Hp. reflexivity.
Qed.

Lemma same_children_of h h' p :
  same_children h h' -> children_of h' p = children_of h p.
Proof.
  intros [Hlen Hsame]. unfold children_of at 1.
  destruct (h' !! p) as [n'|] eqn:Hp'.
  - destruct (Hsame _ _ Hp') as (n & Hp & Hch).
    rewrite (children_of_lookup _ _ _ Hp). exact Hch.
  - symmetry. apply children_of_outside.
    apply lookup_ge_None in Hp'. lia.
Qed.

End ArenaFacts.

(** ** One visit of UpdateDescendants *)

Section UpdateFacts.
Context {St : Type}.
Variable this : GraphDynamicPlanner St.

(** A visit enqueues the child and leaves every node as it was, except
    that the child is given the visited node as parent, with time and cost
    to come counted from there. *)
Lemma visit_child_spec cur ii (h : heap St) q h' q' :
  visit_child this cur ii h q = Done (h', q') ->
  exists current child,
    h !! cur = Some current /\ children current !! ii = Some child /\
    q' = q ++ [child] /\ length h' = length h /\
    forall i n', h' !! i = Some n' ->
      exists n, h !! i = Some n /\ children n' = children n /\
        ((best_parent n' = best_parent n /\ time n' = time n /\
          cost_to_come n' = cost_to_come n) \/
         (i = child /\ best_parent n' = Some cur /\
          exists traj,
            time n' = (time current + Duration traj)%D /\
            cost_to_come n' = (cost_to_come current + Cost this traj)%D)).
Proof.
  unfold visit_child. intros Hrun.
  destruct (deref h cur) as [current| |] eqn:Hcur; simpl in Hrun;
    try discriminate.
  apply deref_Done in Hcur.
  destruct (at_ (children current) ii) as [child| |] eqn:Hchild;
    simpl in Hrun; try discriminate.
  apply at_Done in Hchild.
  destruct (at_ (trajs_to_children current) ii) as [traj| |];
    simpl in Hrun; try discriminate.
  unfold deref at 1 in Hrun.
  rewrite list_lookup_alter_eq, Hcur in Hrun. simpl in Hrun.
  destruct (deref _ child) as [c| |]; simpl in Hrun; try discriminate.
  destruct (rewiring_test _ _ _) as [reattach| |]; simpl in Hrun;
    try discriminate.
  exists current, child. split; [exact Hcur|]. split; [exact Hchild|].
  destruct reattach; injection Hrun as <- <-.
  - split; [reflexivity|]. split; [rewrite !length_alter; reflexivity|].
    intros i n' Hlook.
    apply lookup_alter_Some in Hlook as (n3 & Hn3 & Hcase3).
    apply lookup_alter_Some in Hn3 as (n2 & Hn2 & Hcase2).
    apply lookup_alter_Some in Hn2 as (n1 & Hn1 & Hcase1).
    apply lookup_alter_Some in Hn1 as (n & Hn & Hcase).
    exists n. split; [exact Hn|].
    destruct Hcase3 as [[-> ->]|[Hne ->]];
      destruct Hcase2 as [[? ->]|[? ->]]; try congruence;
      destruct Hcase1 as [[? ->]|[? ->]]; try congruence;
      destruct Hcase as [[? ->]|[? ->]]; simpl;
      (split; [reflexivity|]); eauto 10.
  - split; [reflexivity|]. split; [rewrite !length_alter; reflexivity|].
    intros i n' Hlook.
    apply lookup_alter_Some in Hlook as (n & Hn & Hcase).
    exists n. split; [exact Hn|].
    destruct Hcase as [[-> ->]|[Hne ->]]; simpl; eauto.
Qed.

Lemma visit_child_same_children cur ii (h : heap St) q h' q' :
  visit_child this cur ii h q = Done (h', q') -> same_children h h'.
Proof.
  intros Hrun.
  destruct (visit_child_spec _ _ _ _ _ _ Hrun)
    as (current & child & _ & _ & _ & Hlen & Hnodes).
  split; [exact Hlen|]. intros i n' Hi.
  destruct (Hnodes _ _ Hi) as (n & Hn & Hch & _). eauto.
Qed.

Lemma visit_child_terminates cur ii (h : heap St) q :
  terminates (visit_child this cur ii h q).
Proof.
  unfold visit_child.
  apply obind_terminates; [apply deref_terminates | intros current _].
  apply obind_terminates; [apply at_terminates | intros child _].
  apply obind_terminates; [apply at_terminates | intros traj _].
  apply obind_terminates; [apply deref_terminates | intros current' _].
  apply obind_terminates; [apply deref_terminates | intros c _].
  apply obind_terminates.
  - unfold rewiring_test. destruct (best_parent c); discriminate.
  - intros [|] _; discriminate.
Qed.

(** The visit keeps the arena of [Plan] well formed. *)
Lemma visit_child_well_formed cur ii (h : heap St) q h' q' :
  well_formed h -> visit_child this cur ii h q = Done (h', q') ->
  well_formed h'.
Proof.
  intros (Htwo & Hkids & Hparents) Hrun.
  destruct (visit_child_spec _ _ _ _ _ _ Hrun)
    as (current & child & Hcur & Hchild & _ & Hlen & Hnodes).
  assert (Hin : child ∈ children current)
    by (eapply list_elem_of_lookup_2; exact Hchild).
  destruct (Hkids _ _ Hcur) as [Hgoal Hrank].
  split; [lia|]. split.
  - intros i n' Hi. destruct (Hnodes _ _ Hi) as (n & Hn & Hch & _).
    rewrite Hch. exact (Hkids _ _ Hn).
  - intros i n' p Hi Hp.
    destruct (Hnodes _ _ Hi) as (n & Hn & _ & [(Hbp & _)|(-> & Hbp & _)]).
    + rewrite Hlen. apply (Hparents i n p Hn). congruence.
    + assert (p = cur) as -> by congruence.
      rewrite Hlen. split; [exact (lookup_lt_Some _ _ _ Hcur)|].
      split.
      * intros ->. rewrite (Hgoal eq_refl) in Hin. inversion Hin.
      * exact (Hrank _ Hin).
Qed.

(** Whatever each visit keeps, the loop over the children keeps. *)
Lemma visit_children_invariant (Inv : heap St -> Prop) cur :
  (forall ii h q h' q',
      Inv h -> visit_child this cur ii h q = Done (h', q') -> Inv h') ->
  forall todo ii h q h' q',
    Inv h -> visit_children this todo ii cur h q = Done (h', q') -> Inv h'.
Proof.
  intros Hstep. induction todo as [|todo IH]; intros ii h q h' q' Hinv Hrun;
    simpl in Hrun.
  - injection Hrun as <- <-. exact Hinv.
  - destruct (visit_child this cur ii h q) as [[h1 q1]| |] eqn:Hvisit;
      simpl in Hrun; try discriminate.
    exact (IH _ _ _ _ _ (Hstep _ _ _ _ _ Hinv Hvisit) Hrun).
Qed.

Lemma visit_children_terminates cur : forall todo ii (h : heap St) q,
  terminates (visit_children this todo ii cur h q).
Proof.
  induction todo as [|todo IH]; intros ii h q; simpl; [discriminate|].
  destruct (visit_child this cur ii h q) as [[h1 q1]| |] eqn:Hvisit; simpl.
  - apply IH.
  - discriminate.
  - intros _. exact (visit_child_terminates _ _ _ _ Hvisit).
Qed.

(** The loop enqueues the children in order and changes no list of
    children. *)
Lemma visit_children_queue cur : forall todo ii (h : heap St) q h' q' current,
  h !! cur = Some current ->
  ii + todo = length (children current) ->
  visit_children this todo ii cur h q = Done (h', q') ->
  q' = q ++ drop ii (children current) /\ same_children h h'.
Proof.
  induction todo as [|todo IH]; intros ii h q h' q' current Hcur Hcount Hrun;
    simpl in Hrun.
  - injection Hrun as <- <-. split.
    + rewrite drop_ge by lia. rewrite app_nil_r. reflexivity.
    + split; [reflexivity|]. eauto.
  - destruct (visit_child this cur ii h q) as [[h1 q1]| |] eqn:Hvisit;
      simpl in Hrun; try discriminate.
    destruct (visit_child_spec _ _ _ _ _ _ Hvisit)
      as (current0 & child & Hcur0 & Hchild & -> & Hlen & Hnodes).
    assert (current0 = current) as -> by congruence.
    destruct (lookup_lt_is_Some_2 h1 cur) as [current1 Hcur1];
      [rewrite Hlen; exact (lookup_lt_Some _ _ _ Hcur)|].
    destruct (Hnodes _ _ Hcur1) as (n & Hn & Hch & _).
    assert (n = current) as -> by congruence.
    destruct (IH (ii + 1) h1 (q ++ [child]) h' q' current1 Hcur1)
      as [-> [Hlen' Hsame]]; [rewrite Hch; lia | exact Hrun |].
    split.
    + rewrite Hch, <- app_assoc. f_equal.
      rewrite (drop_S _ _ _ Hchild). simpl.
      replace (ii + 1) with (Datatypes.S ii) by lia. reflexivity.
    + split; [lia|]. intros i n' Hi.
      destruct (Hsame _ _ Hi) as (n1 & Hn1 & Hch1).
      destruct (Hnodes _ _ Hn1) as (n0 & Hn0 & Hch0 & _).
      exists n0. split; [exact Hn0 | congruence].
Qed.

End UpdateFacts.

(** ** Termination of the breadth-first loop *)

Section Termination.
Context {St : Type}.
Variable this : GraphDynamicPlanner St.

Lemma sum_list_with_agree (f g : nat -> nat) (l : list nat) :
  (forall x, x ∈ l -> f x = g x) -> sum_list_with f l = sum_list_with g l.
Proof.
  induction l as [|x l IH]; intros Hfg; simpl; [reflexivity|].
  rewrite (Hfg x) by (left; reflexivity).
  rewrite IH; [reflexivity|]. intros y Hy. apply Hfg. right. exact Hy.
Qed.

Lemma weight_positive d (h : heap St) p : 1 <= weight d h p.
Proof. destruct d; simpl; lia. Qed.

(** A child has fewer generations below it than its parent. *)
Lemma generations_child (h : heap St) p c :
  children_ranked h -> c ∈ children_of h p ->
  generations h c < generations h p.
Proof.
  intros Hkids Hc. unfold children_of in Hc.
  destruct (h !! p) as [n|] eqn:Hp; [|inversion Hc].
  destruct (Hkids _ _ Hp) as [Hgoal Hrank].
  pose proof (lookup_lt_Some _ _ _ Hp) as Hbound.
  assert (Hnot : p <> goal_ptr)
    by (intros ->; rewrite (Hgoal eq_refl) in Hc; inversion Hc).
  unfold generations.
  destruct (Nat.eqb_spec p goal_ptr) as [|_]; [contradiction|].
  destruct (Nat.eqb_spec c goal_ptr) as [|Hcg]; [lia|].
  destruct (Hrank _ Hc) as [Hlt|]; [lia | contradiction].
Qed.

Lemma generations_zero (h : heap St) p :
  children_ranked h -> generations h p = 0 -> children_of h p = [].
Proof.
  intros Hkids Hzero. unfold generations in Hzero.
  destruct (Nat.eqb_spec p goal_ptr) as [->|_].
  - unfold children_of. destruct (h !! goal_ptr) as [n|] eqn:Hg;
      [|reflexivity].
    exact (proj1 (Hkids _ _ Hg) eq_refl).
  - apply children_of_outside. lia.
Qed.

(** Beyond the generations below a node its weight no longer grows. *)
Lemma weight_stable (h : heap St) :
  children_ranked h ->
  forall d d' p, generations h p <= d -> generations h p <= d' ->
                 weight d h p = weight d' h p.
Proof.
  intros Hkids. induction d as [|d IH]; intros d' p Hd Hd'.
  - assert (Hnone : children_of h p = [])
      by (apply generations_zero; [exact Hkids | lia]).
    destruct d'; simpl; [reflexivity|]. rewrite Hnone. reflexivity.
  - destruct d' as [|d'].
    + assert (Hnone : children_of h p = [])
        by (apply generations_zero; [exact Hkids | lia]).
      simpl. rewrite Hnone. reflexivity.
    + simpl. f_equal. apply sum_list_with_agree. intros c Hc.
      pose proof (generations_child _ _ _ Hkids Hc) as Hless.
      apply IH; lia.
Qed.

Lemma generations_bound (h : heap St) p : generations h p <= length h.
Proof. unfold generations. destruct (p =? goal_ptr); lia. Qed.

(** The weight of a node is one more than the weights of its children. *)
Lemma weight_unfold (h : heap St) p :
  children_ranked h ->
  weight (length h) h p
    = 1 + sum_list_with (weight (length h) h) (children_of h p).
Proof.
  intros Hkids. destruct (length h) as [|N] eqn:Hlen.
  - simpl. rewrite children_of_outside by lia. reflexivity.
  - simpl. f_equal. apply sum_list_with_agree. intros c Hc.
    pose proof (generations_child _ _ _ Hkids Hc) as Hless.
    pose proof (generations_bound h p) as Hbound.
    change (weight N h c = weight (Datatypes.S N) h c).
    apply weight_stable; [exact Hkids | lia | lia].
Qed.

Lemma weight_same_children (h h' : heap St) :
  same_children h h' -> forall d p, weight d h' p = weight d h p.
Proof.
  intros Hsame. induction d as [|d IH]; intros p; simpl; [reflexivity|].
  rewrite (same_children_of _ _ _ Hsame). f_equal.
  apply sum_list_with_agree. intros c _. apply IH.
Qed.

(** Fuel equal to the weight of the queue is enough: each round of the
    loop takes a node off the queue and puts its children there. *)
Lemma UpdateDescendants_loop_terminates start : forall fuel (h : heap St) q,
  well_formed h ->
  sum_list_with (weight (length h) h) q <= fuel ->
  terminates (UpdateDescendants_loop this fuel start h q).
Proof.
  induction fuel as [|fuel IH]; intros h q Hwf Hfuel.
  - destruct q as [|cur q]; simpl; [discriminate|].
    simpl in Hfuel. pose proof (weight_positive (length h) h cur). lia.
  - destruct q as [|cur q]; simpl; [discriminate|].
    simpl in Hfuel. unfold UpdateDescendants_body.
    destruct (cur =? start).
    + simpl. apply IH; [exact Hwf|].
      pose proof (weight_positive (length h) h cur). lia.
    + destruct (deref h cur) as [current| |] eqn:Hcur; simpl;
        [|discriminate | destruct (deref_terminates _ _ Hcur)].
      apply deref_Done in Hcur.
      destruct (visit_children this (length (children current)) 0 cur h q)
        as [[h' q']| |] eqn:Hvisit; simpl;
        [|discriminate
         |destruct (visit_children_terminates _ _ _ _ _ _ Hvisit)].
      destruct (visit_children_queue this cur (length (children current)) 0
                  h q h' q' current Hcur eq_refl Hvisit) as [-> Hsame].
      assert (Hwf' : well_formed h').
      { revert Hwf Hvisit. apply visit_children_invariant.
        intros ii h0 q0 h1 q1. apply visit_child_well_formed. }
      apply IH; [exact Hwf'|].
      rewrite (proj1 Hsame). rewrite sum_list_with_app, drop_0.
      rewrite (sum_list_with_agree _ (weight (length h) h))
        by (intros x _; apply weight_same_children; exact Hsame).
      rewrite (sum_list_with_agree (weight (length h) h')
                                   (weight (length h) h))
        by (intros x _; apply weight_same_children; exact Hsame).
      destruct Hwf as (_ & Hkids & _).
      rewrite (weight_unfold h cur Hkids) in Hfuel.
      rewrite (children_of_lookup _ _ _ Hcur) in Hfuel. lia.
Qed.

End Termination.

(** ** Searches, attach and connect *)

Section SearchFacts.
Context {St : Type} `{State St}.

Lemma with_distances_fst (h : heap St) x : forall ps ds,
  with_distances h x ps = Done ds -> map fst ds = ps.
Proof.
  induction ps as [|p ps IH]; intros ds Hrun; simpl in Hrun.
  - injection Hrun as <-. reflexivity.
  - destruct (squaredDistance h x p) as [d| |]; simpl in Hrun;
      try discriminate.
    destruct (with_distances h x ps) as [tail| |]; simpl in Hrun;
      try discriminate.
    injection Hrun as <-. simpl. f_equal. apply IH. reflexivity.
Qed.

Lemma insert_by_distance_In e' e sorted :
  In e' (insert_by_distance e sorted) -> e' = e \/ In e' sorted.
Proof.
  induction sorted as [|y rest IH]; simpl.
  - intros [<-|[]]. left. reflexivity.
  - destruct (snd e <=? snd y)%D; simpl.
    + intros [<-|Hin]; [left; reflexivity | right; exact Hin].
    + intros [<-|Hin]; [right; left; reflexivity|].
      destruct (IH Hin) as [->|Hrest]; [left; reflexivity|].
      right. right. exact Hrest.
Qed.

Lemma sorted_by_distance_In e ds :
  In e (fold_right insert_by_distance [] ds) -> In e ds.
Proof.
  induction ds as [|d ds IH]; simpl; [tauto|]. intros Hin.
  destruct (insert_by_distance_In _ _ _ Hin) as [->|Hrest];
    [left; reflexivity | right; exact (IH Hrest)].
Qed.

(** The searches answer with nodes of the set. *)
Lemma KnnSearch_registry set (h : heap St) x k found p :
  KnnSearch set h x k = Done found -> In p found -> In p (registry set).
Proof.
  unfold KnnSearch. intros Hrun Hp.
  destruct (with_distances h x (registry set)) as [ds| |] eqn:Hds;
    simpl in Hrun; try discriminate.
  injection Hrun as <-.
  rewrite <- (with_distances_fst _ _ _ _ Hds).
  apply list_elem_of_In, (subseteq_take k), list_elem_of_In in Hp.
  apply in_map_iff in Hp as (e & <- & He).
  apply in_map. exact (sorted_by_distance_In _ _ He).
Qed.

Lemma RadiusSearch_registry set (h : heap St) x r found p :
  RadiusSearch set h x r = Done found -> In p found -> In p (registry set).
Proof.
  unfold RadiusSearch. intros Hrun Hp.
  destruct (with_distances h x (registry set)) as [ds| |] eqn:Hds;
    simpl in Hrun; try discriminate.
  injection Hrun as <-.
  rewrite <- (with_distances_fst _ _ _ _ Hds).
  apply in_map_iff in Hp as (e & <- & He).
  apply in_map. apply List.filter_In in He. tauto.
Qed.

Variable this : GraphDynamicPlanner St.

(** An attach that succeeds hands out the next free node, puts it under
    one of the neighbors, and counts its time and cost from there. *)
Lemma attach_spec (sample : St) : forall neighbors (h h' : heap St) sn,
  attach this h sample neighbors = Done (h', Some sn) ->
  exists parent nb sub_plan,
    In parent neighbors /\ h !! parent = Some nb /\ sn = length h /\
    h' = alter (push_child sn sub_plan) parent
           (h ++ [{| state := sample;
                     time := (time nb + Duration sub_plan)%D;
                     cost_to_come := (cost_to_come nb + Cost this sub_plan)%D;
                     is_viable := false; best_parent := Some parent;
                     children := []; trajs_to_children := [] |}]).
Proof.
  induction neighbors as [|neighbor rest IH]; intros h h' sn Hrun;
    simpl in Hrun; [discriminate|].
  destruct (deref h neighbor) as [nb| |] eqn:Hnb; simpl in Hrun;
    try discriminate.
  apply deref_Done in Hnb.
  destruct (norm_lt _ _).
  - destruct (IH _ _ _ Hrun) as (parent & nb' & sp & Hin & Hrest).
    exists parent, nb', sp. split; [right; exact Hin | exact Hrest].
  - destruct (0 <? Size _).
    + injection Hrun as <- <-.
      exists neighbor, nb, (SubPlan this (state nb) sample (time nb)).
      split; [left; reflexivity|]. split; [exact Hnb|].
      split; reflexivity.
    + destruct (IH _ _ _ Hrun) as (parent & nb' & sp & Hin & Hrest).
      exists parent, nb', sp. split; [right; exact Hin | exact Hrest].
Qed.

Lemma connect_spec (sample : St) sn : forall goals_near (h h' : heap St) child,
  connect this h sample sn goals_near = Done (h', Some child) ->
  exists sub_plan,
    In child goals_near /\ h' = alter (push_child child sub_plan) sn h.
Proof.
  induction goals_near as [|goal rest IH]; intros h h' child Hrun;
    simpl in Hrun; [discriminate|].
  destruct (deref h goal) as [g| |]; simpl in Hrun; try discriminate.
  destruct (negb (is_viable g)).
  - destruct (IH _ _ _ Hrun) as (sp & Hin & Hrest).
    exists sp. split; [right; exact Hin | exact Hrest].
  - destruct (deref h sn) as [s| |]; simpl in Hrun; try discriminate.
    destruct (0 <? Size _).
    + injection Hrun as <- <-. eexists. split; [left|]; reflexivity.
    + destruct (IH _ _ _ Hrun) as (sp & Hin & Hrest).
      exists sp. split; [right; exact Hin | exact Hrest].
Qed.

(** Marking the ancestors viable touches no other field. *)
Lemma mark_viable_spec : forall fuel (h h' : heap St) parent,
  mark_viable fuel h parent = Done h' ->
  length h' = length h /\
  forall i n', h' !! i = Some n' ->
    exists n, h !! i = Some n /\ children n' = children n /\
              best_parent n' = best_parent n /\ time n' = time n /\
              cost_to_come n' = cost_to_come n /\
              trajs_to_children n' = trajs_to_children n.
Proof.
  assert (Hsame : forall h : heap St,
             length h = length h /\
             forall i n', h !! i = Some n' ->
               exists n, h !! i = Some n /\ children n' = children n /\
                 best_parent n' = best_parent n /\ time n' = time n /\
                 cost_to_come n' = cost_to_come n /\
                 trajs_to_children n' = trajs_to_children n)
    by (intros h; split; [reflexivity | eauto 10]).
  induction fuel as [|fuel IH]; intros h h' parent Hrun;
    destruct parent as [p|]; simpl in Hrun;
    try (injection Hrun as <-; apply Hsame);
    destruct (deref h p) as [n| |]; simpl in Hrun; try discriminate;
    destruct (negb (is_viable n)); try discriminate;
    try (injection Hrun as <-; apply Hsame).
  destruct (IH _ _ _ Hrun) as [Hlen Hnodes].
  rewrite length_alter in Hlen. split; [exact Hlen|].
  intros i n' Hi.
  destruct (Hnodes _ _ Hi) as (n1 & Hn1 & Hch & Hbp & Ht & Hc & Htr).
  apply lookup_alter_Some in Hn1 as (n0 & Hn0 & Hcase).
  exists n0. split; [exact Hn0|].
  destruct Hcase as [[_ ->]|[_ ->]]; simpl in *; auto 10.
Qed.

End SearchFacts.

(** ** The arena of Plan stays well formed *)

Section WellFormed.
Context {St : Type} `{State St}.
Variable this : GraphDynamicPlanner St.

Lemma Plan_setup_well_formed (start goal : St) start_time :
  well_formed (Plan_setup this start goal start_time).
Proof.
  split; [simpl; lia|]. split.
  - intros i n Hi. destruct i as [|[|i]]; simpl in Hi; try discriminate;
      injection Hi as <-; simpl; (split; [reflexivity|]);
      intros c Hc; inversion Hc.
  - intros i n p Hi Hp. destruct i as [|[|i]]; simpl in Hi;
      try discriminate; injection Hi as <-; discriminate.
Qed.

Lemma attach_well_formed (h : heap St) parent nb new_node sub_plan :
  well_formed h -> h !! parent = Some nb -> parent <> goal_ptr ->
  best_parent new_node = Some parent -> children new_node = [] ->
  well_formed (alter (push_child (length h) sub_plan) parent
                     (h ++ [new_node])).
Proof.
  intros (Htwo & Hkids & Hparents) Hparent Hnot Hbp Hch.
  pose proof (lookup_lt_Some _ _ _ Hparent) as Hbound.
  split; [rewrite length_alter, length_app; simpl; lia|]. split.
  - intros i n' Hi.
    apply lookup_alter_Some in Hi as (n & Hn & Hcase).
    apply lookup_snoc_Some in Hn as [[_ Hn]|[-> <-]].
    + destruct (Hkids _ _ Hn) as [Hgoal Hrank].
      destruct Hcase as [[-> ->]|[_ ->]]; simpl.
      * split; [intros; contradiction|]. intros c Hc.
        apply elem_of_app in Hc as [Hc|Hc]; [exact (Hrank _ Hc)|].
        apply list_elem_of_singleton in Hc as ->. left. exact Hbound.
      * split; assumption.
    + destruct Hcase as [[Heq _]|[_ ->]]; [lia|].
      rewrite Hch. split; [reflexivity|]. intros c Hc. inversion Hc.
  - intros i n' p Hi Hp. rewrite length_alter, length_app. simpl.
    apply lookup_alter_Some in Hi as (n & Hn & Hcase).
    assert (Hsame : best_parent n' = best_parent n)
      by (destruct Hcase as [[_ ->]|[_ ->]]; reflexivity).
    rewrite Hsame in Hp.
    apply lookup_snoc_Some in Hn as [[_ Hn]|[-> <-]].
    + destruct (Hparents _ _ _ Hn Hp) as (Hlt & Hng & Hrank).
      split; [lia|]. split; assumption.
    + assert (p = parent) as -> by congruence.
      split; [lia|]. split; [exact Hnot|]. left. exact Hbound.
Qed.

Lemma connect_well_formed (h : heap St) sn sub_plan :
  well_formed h -> sn <> goal_ptr ->
  well_formed (alter (push_child goal_ptr sub_plan) sn h).
Proof.
  intros (Htwo & Hkids & Hparents) Hnot.
  split; [rewrite length_alter; exact Htwo|]. split.
  - intros i n' Hi.
    apply lookup_alter_Some in Hi as (n & Hn & Hcase).
    destruct (Hkids _ _ Hn) as [Hgoal Hrank].
    destruct Hcase as [[-> ->]|[_ ->]]; simpl; [|split; assumption].
    split; [intros; contradiction|]. intros c Hc.
    apply elem_of_app in Hc as [Hc|Hc]; [exact (Hrank _ Hc)|].
    apply list_elem_of_singleton in Hc as ->. right. reflexivity.
  - intros i n' p Hi Hp. rewrite length_alter.
    apply lookup_alter_Some in Hi as (n & Hn & Hcase).
    apply (Hparents i n p Hn).
    destruct Hcase as [[_ ->]|[_ ->]]; exact Hp.
Qed.

Lemma new_parent_well_formed (h : heap St) sn :
  well_formed h -> sn < length h -> sn <> goal_ptr ->
  well_formed (alter (set_best_parent (Some sn)) goal_ptr h).
Proof.
  intros (Htwo & Hkids & Hparents) Hbound Hnot.
  split; [rewrite length_alter; exact Htwo|]. split.
  - intros i n' Hi.
    apply lookup_alter_Some in Hi as (n & Hn & Hcase).
    destruct Hcase as [[_ ->]|[_ ->]]; exact (Hkids _ _ Hn).
  - intros i n' p Hi Hp. rewrite length_alter.
    apply lookup_alter_Some in Hi as (n & Hn & Hcase).
    destruct Hcase as [[-> ->]|[_ ->]]; [|exact (Hparents _ _ _ Hn Hp)].
    simpl in Hp. injection Hp as <-.
    split; [exact Hbound|]. split; [exact Hnot|]. right. reflexivity.
Qed.

Lemma UpdateDescendants_body_well_formed start cur (h : heap St) q h' q' :
  well_formed h ->
  UpdateDescendants_body this start cur h q = Done (h', q') ->
  well_formed h'.
Proof.
  unfold UpdateDescendants_body. intros Hwf Hrun.
  destruct (cur =? start); [injection Hrun as <- <-; exact Hwf|].
  destruct (deref h cur) as [current| |]; simpl in Hrun; try discriminate.
  revert Hwf Hrun. apply visit_children_invariant.
  intros ii h0 q0 h1 q1. apply visit_child_well_formed.
Qed.

Lemma UpdateDescendants_body_length start cur (h : heap St) q h' q' :
  UpdateDescendants_body this start cur h q = Done (h', q') ->
  length h' = length h.
Proof.
  unfold UpdateDescendants_body. intros Hrun.
  destruct (cur =? start); [injection Hrun as <- <-; reflexivity|].
  destruct (deref h cur) as [current| |] eqn:Hcur; simpl in Hrun;
    try discriminate.
  apply deref_Done in Hcur.
  destruct (visit_children_queue this cur (length (children current)) 0
              h q h' q' current Hcur eq_refl Hrun) as [_ [Hlen _]].
  exact Hlen.
Qed.

Lemma mark_viable_well_formed fuel (h h' : heap St) parent :
  well_formed h -> mark_viable fuel h parent = Done h' -> well_formed h'.
Proof.
  intros (Htwo & Hkids & Hparents) Hrun.
  destruct (mark_viable_spec _ _ _ _ Hrun) as [Hlen Hnodes].
  split; [lia|]. split.
  - intros i n' Hi. destruct (Hnodes _ _ Hi) as (n & Hn & Hch & _).
    rewrite Hch. exact (Hkids _ _ Hn).
  - intros i n' p Hi Hp.
    destruct (Hnodes _ _ Hi) as (n & Hn & _ & Hbp & _).
    rewrite Hlen. apply (Hparents i n p Hn). congruence.
Qed.

(** Every arena that [Plan] reaches is well formed, and the nodes a
    point names are as that point needs them. *)
Lemma reachable_well_formed (start goal : St) start_time pt (h : heap St) :
  reachable this start goal start_time pt h ->
  well_formed h /\ point_ok pt h.
Proof.
  induction 1 as
    [ | h sample neighbors h' sn _ [IHwf _] Hknn Hattach
      | h sample sn near h' _ [IHwf IHpt] Hradius Hconnect
      | h sample sn near h' child _ [IHwf IHpt] Hradius Hconnect
      | h sn child c s _ [IHwf IHpt] Hc Hs Htest
      | h sn child c s _ [IHwf IHpt] Hc Hs Htest
      | h sn cur q h' q' _ [IHwf IHpt] Hbody
      | h sn _ [IHwf IHpt]
      | h sn fuel h' _ [IHwf IHpt] Hmark ].
  - split; [apply Plan_setup_well_formed | exact I].
  - destruct (attach_spec _ _ _ _ _ _ Hattach)
      as (parent & nb & sp & Hin & Hparent & -> & ->).
    apply (KnnSearch_registry _ _ _ _ _ _ Hknn) in Hin.
    destruct Hin as [<-|[]].
    pose proof (proj1 IHwf) as Htwo.
    split.
    + apply (attach_well_formed h _ nb); auto; discriminate.
    + simpl. rewrite length_alter, length_app. simpl.
      unfold goal_ptr. lia.
  - rewrite (connect_none_heap _ _ _ _ _ _ Hconnect). split; [exact IHwf|exact I].
  - destruct (connect_spec _ _ _ _ _ _ _ Hconnect) as (sp & Hin & ->).
    apply (RadiusSearch_registry _ _ _ _ _ _ Hradius) in Hin.
    destruct Hin as [<-|[]]. destruct IHpt as [Hbound Hnot].
    split; [apply connect_well_formed; assumption|].
    simpl. rewrite length_alter. auto.
  - destruct IHpt as (Hbound & Hnot & ->).
    split; [apply new_parent_well_formed; assumption|].
    simpl. rewrite length_alter. auto.
  - destruct IHpt as (Hbound & Hnot & _). split; [exact IHwf|]. simpl. auto.
  - split; [exact (UpdateDescendants_body_well_formed _ _ _ _ _ _ IHwf Hbody)|].
    simpl in *. rewrite (UpdateDescendants_body_length _ _ _ _ _ _ Hbody).
    exact IHpt.
  - split; [exact IHwf | exact IHpt].
  - split; [exact (mark_viable_well_formed _ _ _ _ IHwf Hmark) | exact I].
Qed.

End WellFormed.

(** ** Best parents lead to a root *)

Section BestParentChain.
Context {St : Type}.

Lemma reaches_root_older (h : heap St) :
  well_formed h ->
  forall k p, p <= k -> p <> goal_ptr -> p < length h ->
              reaches_root k h p = true.
Proof.
  intros (_ & _ & Hparents). induction k as [|k IH]; intros p Hk Hnot Hp.
  - destruct (lookup_lt_is_Some_2 h p Hp) as [n Hn].
    simpl. rewrite Hn. destruct (best_parent n) as [q|] eqn:Hq; [|reflexivity].
    destruct (Hparents _ _ _ Hn Hq) as (_ & _ & [Hlt|Hgoal]);
      [lia | contradiction].
  - destruct (lookup_lt_is_Some_2 h p Hp) as [n Hn].
    simpl. rewrite Hn. destruct (best_parent n) as [q|] eqn:Hq; [|reflexivity].
    destruct (Hparents _ _ _ Hn Hq) as (Hq_bound & Hq_not & [Hlt|Hgoal]);
      [|contradiction].
    apply IH; [lia | exact Hq_not | exact Hq_bound].
Qed.

Lemma reaches_root_well_formed (h : heap St) p :
  well_formed h -> p < length h -> reaches_root (length h) h p = true.
Proof.
  intros Hwf Hp. destruct (decide (p = goal_ptr)) as [->|Hnot].
  - pose proof Hwf as (Htwo & _ & Hparents).
    destruct (lookup_lt_is_Some_2 h goal_ptr Hp) as [n Hn].
    replace (length h) with (Datatypes.S (length h - 1)) at 1 by lia.
    simpl. rewrite Hn. destruct (best_parent n) as [q|] eqn:Hq; [|reflexivity].
    destruct (Hparents _ _ _ Hn Hq) as (Hq_bound & Hq_not & _).
    apply reaches_root_older; [exact Hwf | lia | exact Hq_not | exact Hq_bound].
  - apply reaches_root_older; [exact Hwf | lia | exact Hnot | exact Hp].
Qed.

Lemma ancestor_step (h : heap St) : forall k p q n,
  h !! p = Some n -> best_parent n = Some q ->
  ancestor k h p = Some p -> 0 < k -> ancestor k h q = Some q.
Proof.
  assert (Hshift : forall k p r, ancestor k h p = Some r ->
            forall n q, h !! r = Some n -> best_parent n = Some q ->
                        ancestor (Datatypes.S k) h p = Some q).
  { induction k as [|k IH]; intros p r Hk n q Hr Hq.
    - simpl in Hk. injection Hk as ->. simpl. rewrite Hr, Hq. reflexivity.
    - simpl in Hk. destruct (h !! p) as [np|] eqn:Hp; [|discriminate].
      destruct (best_parent np) as [p'|] eqn:Hp'; [|discriminate].
      change (ancestor (Datatypes.S (Datatypes.S k)) h p)
        with (match h !! p with
              | None => None
              | Some n0 => match best_parent n0 with
                           | None => None
                           | Some q0 => ancestor (Datatypes.S k) h q0
                           end
              end).
      rewrite Hp, Hp'. exact (IH _ _ Hk _ _ Hr Hq). }
  intros k p q n Hp Hq Hcycle Hk.
  destruct k as [|k]; [lia|].
  simpl in Hcycle. rewrite Hp, Hq in Hcycle.
  exact (Hshift _ _ _ Hcycle _ _ Hp Hq).
Qed.

(** A chain that reaches a root does not come back to where it began. *)
Lemma reaches_root_no_cycle (h : heap St) : forall k p,
  reaches_root k h p = true ->
  forall j, 0 < j -> ancestor j h p <> Some p.
Proof.
  induction k as [|k IH]; intros p Hroot j Hj Hcycle; simpl in Hroot;
    destruct (h !! p) as [n|] eqn:Hp; try discriminate;
    destruct (best_parent n) as [q|] eqn:Hq; try discriminate;
    try (destruct j as [|j]; [lia|]; simpl in Hcycle;
         rewrite Hp, Hq in Hcycle; discriminate).
  exact (IH q Hroot j Hj (ancestor_step h j p q n Hp Hq Hcycle Hj)).
Qed.

End BestParentChain.

(** C5: in every arena that [Plan] reaches, the best parents of any node
    lead to a node without best parent in finitely many steps, and no
    node is its own ancestor. *)
Theorem best_parent_chain_reaches_root {St : Type} `{State St}
    (this : GraphDynamicPlanner St) (start goal : St) start_time
    pt (h : heap St) p :
  reachable this start goal start_time pt h -> p < length h ->
  (exists k, reaches_root k h p = true) /\
  (forall j, 0 < j -> ancestor j h p <> Some p).
Proof.
  intros Hreach Hp.
  destruct (reachable_well_formed _ _ _ _ _ _ Hreach) as [Hwf _].
  pose proof (reaches_root_well_formed h p Hwf Hp) as Hroot.
  split; [exists (length h); exact Hroot|].
  exact (reaches_root_no_cycle h _ p Hroot).
Qed.

Lemma best_parent_chain_reaches_root_witness :
  (exists k, reaches_root k arena_before_update goal_ptr = true) /\
  (forall j, 0 < j -> ancestor j arena_before_update goal_ptr <> Some goal_ptr).
Proof.
  apply (best_parent_chain_reaches_root line_planner (dZ 0) (dZ 10) (dZ 0)
           (Updating 2 [2]) arena_before_update goal_ptr).
  - exact arena_before_update_reachable.
  - simpl. unfold goal_ptr. lia.
Defined.

Lemma RecursivePlan_out_of_time_witness :
  RecursivePlan line_planner 4 [] arena_with_loop
                (SearchableSet_ctor 0) (SearchableSet_ctor 1) true
    = Done (arena_with_loop,
            {| states_ := [dZ 0; dZ 5; dZ 5; dZ 0]; times_ := [dZ 0; dZ 5; dZ 5; dZ 10] |},
            ["Planner ran out of time."%string;
             "Found a viable loop."%string]).
Proof.
  destruct (RecursivePlan_out_of_time line_planner 4 [] arena_with_loop
              (SearchableSet_ctor 0) (SearchableSet_ctor 1) true
              arena_with_loop
              {| state := (dZ 0); time := (dZ 0); cost_to_come := (dZ 0);
                 is_viable := true; best_parent := Some 1; children := [1];
                 trajs_to_children := [straight_line (dZ 0) (dZ 5) (dZ 0)] |}
              eq_refl eq_refl) as (_ & Hloop & _).
  rewrite Hloop; [reflexivity | reflexivity | discriminate].
Defined.

(** ** The rewiring returns *)

Section Linked.
Context {St : Type} `{State St}.
Variable this : GraphDynamicPlanner St.

Lemma lookup_alter_is_Some (f : Node St -> Node St) p (h : heap St) i n :
  h !! i = Some n ->
  exists n', alter f p h !! i = Some n' /\ (n' = n \/ n' = f n).
Proof.
  intros Hi. destruct (decide (i = p)) as [->|Hne].
  - rewrite list_lookup_alter_eq, Hi. simpl. eauto.
  - rewrite list_lookup_alter_ne by congruence. eauto.
Qed.

(** Nodes that keep their lists and do not lose their parent keep the
    arena linked. *)
Lemma linked_preserved excused (h h' : heap St) :
  linked excused h -> length h' = length h ->
  (forall i n', h' !! i = Some n' ->
     exists n, h !! i = Some n /\ children n' = children n /\
       length (trajs_to_children n') = length (trajs_to_children n) /\
       (best_parent n <> None -> best_parent n' <> None)) ->
  linked excused h'.
Proof.
  intros Hlinked Hlen Hnodes i n' Hi.
  destruct (Hnodes _ _ Hi) as (n & Hn & Hch & Htr & _).
  destruct (Hlinked _ _ Hn) as [Haligned Hkids].
  split; [congruence|]. intros c Hc. rewrite Hch in Hc.
  destruct (Hkids _ Hc) as (cn & Hcn & Hparent).
  destruct (lookup_lt_is_Some_2 h' c) as [cn' Hcn'];
    [rewrite Hlen; exact (lookup_lt_Some _ _ _ Hcn)|].
  exists cn'. split; [exact Hcn'|].
  destruct (Hnodes _ _ Hcn') as (cn0 & Hcn0 & _ & _ & Hkeep).
  assert (cn0 = cn) as -> by congruence.
  destruct Hparent as [Hparent|Hex]; [left; exact (Hkeep Hparent) | right; exact Hex].
Qed.

Lemma visit_child_trajs cur ii (h : heap St) q h' q' :
  visit_child this cur ii h q = Done (h', q') ->
  forall i n', h' !! i = Some n' ->
    exists n, h !! i = Some n /\
      length (trajs_to_children n') = length (trajs_to_children n).
Proof.
  unfold visit_child. intros Hrun.
  destruct (deref h cur) as [current| |] eqn:Hcur; simpl in Hrun;
    try discriminate.
  apply deref_Done in Hcur.
  destruct (at_ (children current) ii) as [child| |]; simpl in Hrun;
    try discriminate.
  destruct (at_ (trajs_to_children current) ii) as [traj| |];
    simpl in Hrun; try discriminate.
  unfold deref at 1 in Hrun.
  rewrite list_lookup_alter_eq, Hcur in Hrun. simpl in Hrun.
  destruct (deref _ child) as [c| |]; simpl in Hrun; try discriminate.
  destruct (rewiring_test _ _ _) as [reattach| |]; simpl in Hrun;
    try discriminate.
  assert (Hfirst : forall i n1,
             alter (set_trajs_to_children
                      (<[ii:=ResetFirstTime traj (time current)]>
                         (trajs_to_children current))) cur h !! i = Some n1 ->
             exists n, h !! i = Some n /\
               length (trajs_to_children n1) = length (trajs_to_children n)).
  { intros i n1 Hi. apply lookup_alter_Some in Hi as (n & Hn & Hcase).
    exists n. split; [exact Hn|].
    destruct Hcase as [[-> ->]|[_ ->]]; [|reflexivity].
    simpl. rewrite length_insert. congruence. }
  destruct reattach; injection Hrun as <- <-; [|exact Hfirst].
  intros i n' Hi.
  apply lookup_alter_Some in Hi as (n3 & Hn3 & Hcase3).
  apply lookup_alter_Some in Hn3 as (n2 & Hn2 & Hcase2).
  apply lookup_alter_Some in Hn2 as (n1 & Hn1 & Hcase1).
  destruct (Hfirst _ _ Hn1) as (n & Hn & Hlen).
  exists n. split; [exact Hn|]. rewrite <- Hlen.
  destruct Hcase3 as [[_ ->]|[_ ->]]; destruct Hcase2 as [[_ ->]|[_ ->]];
    destruct Hcase1 as [[_ ->]|[_ ->]]; reflexivity.
Qed.

Lemma visit_child_linked cur ii (h : heap St) q h' q' :
  linked (fun _ => False) h ->
  visit_child this cur ii h q = Done (h', q') ->
  linked (fun _ => False) h'.
Proof.
  intros Hlinked Hrun.
  destruct (visit_child_spec _ _ _ _ _ _ _ Hrun)
    as (current & child & _ & _ & _ & Hlen & Hnodes).
  apply (linked_preserved _ h); [exact Hlinked | exact Hlen|].
  intros i n' Hi.
  destruct (Hnodes _ _ Hi) as (n & Hn & Hch & Hcase).
  destruct (visit_child_trajs _ _ _ _ _ _ Hrun _ _ Hi) as (n0 & Hn0 & Htr).
  assert (n0 = n) as -> by congruence.
  exists n. split; [exact Hn|]. split; [exact Hch|]. split; [exact Htr|].
  destruct Hcase as [(Hbp & _)|(_ & Hbp & _)]; rewrite Hbp; congruence.
Qed.

(** On a linked arena a visit returns. *)
Lemma visit_child_returns cur ii (h : heap St) q current :
  linked (fun _ => False) h -> h !! cur = Some current ->
  ii < length (children current) ->
  exists h' q', visit_child this cur ii h q = Done (h', q').
Proof.
  intros Hlinked Hcur Hii.
  destruct (Hlinked _ _ Hcur) as [Haligned Hkids].
  destruct (lookup_lt_is_Some_2 (children current) ii Hii) as [child Hchild].
  destruct (lookup_lt_is_Some_2 (trajs_to_children current) ii)
    as [traj Htraj]; [lia|].
  destruct (Hkids child) as (cn & Hcn & [Hparent|[]]);
    [eapply list_elem_of_lookup_2; exact Hchild|].
  unfold visit_child, deref, at_. rewrite Hcur. cbn [obind].
  rewrite Hchild. cbn [obind]. rewrite Htraj. cbn [obind].
  rewrite list_lookup_alter_eq, Hcur. cbn [fmap option_fmap option_map obind].
  match goal with |- context [alter ?f cur h !! child] =>
    destruct (lookup_alter_is_Some f cur h child cn Hcn) as (cn' & -> & Hcn')
  end.
  cbn [obind].
  assert (Hbp : best_parent cn' = best_parent cn)
    by (destruct Hcn' as [->| ->]; reflexivity).
  unfold rewiring_test. rewrite Hbp.
  destruct (best_parent cn); [|congruence]. cbn [obind]. eauto.
Qed.

Lemma visit_children_returns cur : forall todo ii (h : heap St) q current,
  linked (fun _ => False) h -> h !! cur = Some current ->
  ii + todo = length (children current) ->
  exists h' q', visit_children this todo ii cur h q = Done (h', q').
Proof.
  induction todo as [|todo IH]; intros ii h q current Hlinked Hcur Hcount;
    simpl; [eauto|].
  destruct (visit_child_returns cur ii h q current Hlinked Hcur)
    as (h1 & q1 & Hvisit); [lia|].
  rewrite Hvisit. cbn [obind].
  destruct (visit_child_spec _ _ _ _ _ _ _ Hvisit)
    as (current0 & child & Hcur0 & _ & _ & Hlen & Hnodes).
  destruct (lookup_lt_is_Some_2 h1 cur) as [current1 Hcur1];
    [rewrite Hlen; exact (lookup_lt_Some _ _ _ Hcur)|].
  destruct (Hnodes _ _ Hcur1) as (n & Hn & Hch & _).
  assert (n = current) as -> by congruence.
  apply (IH (ii + 1) h1 q1 current1);
    [exact (visit_child_linked _ _ _ _ _ _ Hlinked Hvisit) | exact Hcur1|].
  rewrite Hch. lia.
Qed.

(** On a linked, well-formed arena the breadth-first loop returns once
    the fuel covers the weight of its queue. *)
Lemma UpdateDescendants_loop_returns start : forall fuel (h : heap St) q,
  well_formed h -> linked (fun _ => False) h ->
  Forall (fun p => p < length h) q ->
  sum_list_with (weight (length h) h) q <= fuel ->
  exists h', UpdateDescendants_loop this fuel start h q = Done h'.
Proof.
  induction fuel as [|fuel IH]; intros h q Hwf Hlinked Hq Hfuel.
  - destruct q as [|cur q]; simpl; [eauto|].
    simpl in Hfuel. pose proof (weight_positive (length h) h cur). lia.
  - destruct q as [|cur q]; simpl; [eauto|].
    simpl in Hfuel. inversion Hq as [|? ? Hcur_bound Hq']; subst.
    pose proof (weight_positive (length h) h cur) as Hpos.
    unfold UpdateDescendants_body.
    destruct (cur =? start).
    + cbn [obind]. apply IH; [assumption | assumption | assumption | lia].
    + destruct (lookup_lt_is_Some_2 h cur Hcur_bound) as [current Hcur].
      unfold deref. rewrite Hcur. cbn [obind].
      destruct (visit_children_returns cur (length (children current)) 0
                  h q current Hlinked Hcur eq_refl) as (h' & q' & Hvisit).
      rewrite Hvisit. cbn [obind].
      destruct (visit_children_queue this cur (length (children current)) 0
                  h q h' q' current Hcur eq_refl Hvisit) as [-> Hsame].
      assert (Hwf' : well_formed h').
      { revert Hwf Hvisit. apply visit_children_invariant.
        intros ii h0 q0 h1 q1. apply visit_child_well_formed. }
      assert (Hlinked' : linked (fun _ => False) h').
      { revert Hlinked Hvisit. apply visit_children_invariant.
        intros ii h0 q0 h1 q1. apply visit_child_linked. }
      apply IH; [exact Hwf' | exact Hlinked' | |].
      * rewrite (proj1 Hsame), drop_0. apply Forall_app. split; [exact Hq'|].
        apply Forall_forall. intros c Hc.
        destruct (proj2 (Hlinked _ _ Hcur) c Hc) as (cn & Hcn & _).
        exact (lookup_lt_Some _ _ _ Hcn).
      * rewrite (proj1 Hsame). rewrite sum_list_with_app, drop_0.
        rewrite (sum_list_with_agree _ (weight (length h) h))
          by (intros x _; apply weight_same_children; exact Hsame).
        rewrite (sum_list_with_agree (weight (length h) h')
                                     (weight (length h) h))
          by (intros x _; apply weight_same_children; exact Hsame).
        destruct Hwf as (_ & Hkids & _).
        rewrite (weight_unfold h cur Hkids) in Hfuel.
        rewrite (children_of_lookup _ _ _ Hcur) in Hfuel. lia.
Qed.

End Linked.

Section ReachableLinked.
Context {St : Type} `{State St}.
Variable this : GraphDynamicPlanner St.

Lemma linked_attach (h : heap St) parent nb new_node sub_plan :
  linked (fun _ => False) h -> h !! parent = Some nb ->
  best_parent new_node <> None ->
  children new_node = [] -> trajs_to_children new_node = [] ->
  linked (fun _ => False)
         (alter (push_child (length h) sub_plan) parent (h ++ [new_node])).
Proof.
  intros Hlinked Hparent Hbp Hch Htr.
  set (h' := alter (push_child (length h) sub_plan) parent (h ++ [new_node])).
  assert (Hold : forall c cn, (h ++ [new_node]) !! c = Some cn ->
             exists cn', h' !! c = Some cn' /\
                         best_parent cn' = best_parent cn).
  { intros c cn Hc. unfold h'.
    destruct (lookup_alter_is_Some (push_child (length h) sub_plan) parent
                _ c cn Hc) as (cn' & Hcn' & [->| ->]); eauto. }
  assert (Hkept : forall (n : Node St) c, linked (fun _ => False) h ->
             (forall c, c ∈ children n ->
                exists cn, h !! c = Some cn /\
                           (best_parent cn <> None \/ False)) ->
             c ∈ children n ->
             exists cn, h' !! c = Some cn /\
                        (best_parent cn <> None \/ False)).
  { intros n c _ Hkids Hc. destruct (Hkids c Hc) as (cn & Hcn & [Hp|[]]).
    destruct (Hold c cn) as (cn' & Hcn' & Hsame);
      [apply lookup_app_l_Some; exact Hcn|].
    exists cn'. split; [exact Hcn'|]. left. congruence. }
  intros i n' Hi. unfold h' in Hi.
  apply lookup_alter_Some in Hi as (n & Hn & Hcase).
  apply lookup_snoc_Some in Hn as [[_ Hn]|[Hi <-]].
  - destruct (Hlinked _ _ Hn) as [Haligned Hkids].
    destruct Hcase as [[-> ->]|[_ ->]]; simpl.
    + split; [rewrite !length_app; simpl; lia|]. intros c Hc.
      apply elem_of_app in Hc as [Hc|Hc]; [exact (Hkept n c Hlinked Hkids Hc)|].
      apply list_elem_of_singleton in Hc as ->.
      destruct (Hold (length h) new_node) as (cn' & Hcn' & Hsame);
        [apply lookup_snoc_Some; right; split; reflexivity|].
      exists cn'. split; [exact Hcn'|]. left. congruence.
    + split; [exact Haligned|]. intros c Hc. exact (Hkept n c Hlinked Hkids Hc).
  - pose proof (lookup_lt_Some _ _ _ Hparent) as Hbound.
    destruct Hcase as [[Heq _]|[_ ->]]; [lia|].
    rewrite Hch, Htr. split; [reflexivity|]. intros c Hc. inversion Hc.
Qed.

Lemma linked_connect (h : heap St) sn sub_plan :
  goal_ptr < length h -> linked (fun _ => False) h ->
  linked (fun c => c = goal_ptr) (alter (push_child goal_ptr sub_plan) sn h).
Proof.
  intros Hgoal Hlinked i n' Hi.
  assert (Hold : forall c cn, h !! c = Some cn ->
             exists cn', alter (push_child goal_ptr sub_plan) sn h !! c
                           = Some cn' /\ best_parent cn' = best_parent cn).
  { intros c cn Hc.
    destruct (lookup_alter_is_Some (push_child goal_ptr sub_plan) sn
                _ c cn Hc) as (cn' & Hcn' & [->| ->]); eauto. }
  apply lookup_alter_Some in Hi as (n & Hn & Hcase).
  destruct (Hlinked _ _ Hn) as [Haligned Hkids].
  assert (Hkept : forall c, c ∈ children n ->
             exists cn, alter (push_child goal_ptr sub_plan) sn h !! c
                          = Some cn /\
                        (best_parent cn <> None \/ c = goal_ptr)).
  { intros c Hc. destruct (Hkids c Hc) as (cn & Hcn & [Hp|[]]).
    destruct (Hold c cn Hcn) as (cn' & Hcn' & Hsame).
    exists cn'. split; [exact Hcn'|]. left. congruence. }
  destruct Hcase as [[-> ->]|[_ ->]]; simpl; [|split; assumption].
  split; [rewrite !length_app; simpl; lia|]. intros c Hc.
  apply elem_of_app in Hc as [Hc|Hc]; [exact (Hkept c Hc)|].
  apply list_elem_of_singleton in Hc as ->.
  destruct (lookup_lt_is_Some_2 h goal_ptr Hgoal) as [g Hg].
  destruct (Hold _ _ Hg) as (g' & Hg' & _).
  exists g'. split; [exact Hg'|]. right. reflexivity.
Qed.

Lemma linked_new_parent (h : heap St) sn :
  linked (fun c => c = goal_ptr) h ->
  linked (fun _ => False) (alter (set_best_parent (Some sn)) goal_ptr h).
Proof.
  intros Hlinked i n' Hi.
  apply lookup_alter_Some in Hi as (n & Hn & Hcase).
  destruct (Hlinked _ _ Hn) as [Haligned Hkids].
  assert (Hlists : children n' = children n /\
                   trajs_to_children n' = trajs_to_children n)
    by (destruct Hcase as [[_ ->]|[_ ->]]; split; reflexivity).
  destruct Hlists as [-> ->]. split; [exact Haligned|]. intros c Hc.
  destruct (Hkids c Hc) as (cn & Hcn & Hparent).
  destruct (decide (c = goal_ptr)) as [->|Hne].
  - eexists. rewrite list_lookup_alter_eq, Hcn.
    split; [reflexivity|]. left. discriminate.
  - exists cn. rewrite list_lookup_alter_ne by congruence.
    split; [exact Hcn|]. destruct Hparent as [Hp|Hg]; [left; exact Hp|].
    contradiction.
Qed.

Lemma linked_old_parent (h : heap St) c s :
  h !! goal_ptr = Some c -> better_parent_test h c s = Done false ->
  linked (fun c => c = goal_ptr) h -> linked (fun _ => False) h.
Proof.
  intros Hgoal Htest Hlinked i n Hi.
  destruct (Hlinked _ _ Hi) as [Haligned Hkids].
  split; [exact Haligned|]. intros k Hk.
  destruct (Hkids k Hk) as (cn & Hcn & [Hp| ->]); [eauto|].
  exists cn. split; [exact Hcn|]. left.
  assert (cn = c) as -> by congruence.
  unfold better_parent_test in Htest.
  destruct (best_parent c); [discriminate | discriminate].
Qed.

Lemma linked_mark_viable fuel (h h' : heap St) parent :
  linked (fun _ => False) h -> mark_viable fuel h parent = Done h' ->
  linked (fun _ => False) h'.
Proof.
  intros Hlinked Hrun.
  destruct (mark_viable_spec _ _ _ _ Hrun) as [Hlen Hnodes].
  apply (linked_preserved _ h); [exact Hlinked | exact Hlen|].
  intros i n' Hi.
  destruct (Hnodes _ _ Hi) as (n & Hn & Hch & Hbp & _ & _ & Htr).
  exists n. rewrite Hch, Htr, Hbp. auto.
Qed.

(** Every arena that [Plan] reaches is linked, but for the goal between
    its connection and the choice of its parent. *)
Lemma reachable_linked (start goal : St) start_time pt (h : heap St) :
  reachable this start goal start_time pt h ->
  linked (may_lack_parent pt) h.
Proof.
  intros Hreach.
  induction Hreach as
    [ | h sample neighbors h' sn Hprev IH Hknn Hattach
      | h sample sn near h' Hprev IH Hradius Hconnect
      | h sample sn near h' child Hprev IH Hradius Hconnect
      | h sn child c s Hprev IH Hc Hs Htest
      | h sn child c s Hprev IH Hc Hs Htest
      | h sn cur q h' q' Hprev IH Hbody
      | h sn Hprev IH
      | h sn fuel h' Hprev IH Hmark ]; simpl in *.
  - intros i n Hi. destruct i as [|[|i]]; simpl in Hi; try discriminate;
      injection Hi as <-; simpl; (split; [reflexivity|]);
      intros c Hc; inversion Hc.
  - destruct (attach_spec _ _ _ _ _ _ Hattach)
      as (parent & nb & sp & _ & Hparent & -> & ->).
    apply (linked_attach h parent nb); auto; discriminate.
  - rewrite (connect_none_heap _ _ _ _ _ _ Hconnect). exact IH.
  - destruct (connect_spec _ _ _ _ _ _ _ Hconnect) as (sp & Hin & ->).
    apply (RadiusSearch_registry _ _ _ _ _ _ Hradius) in Hin.
    destruct Hin as [<-|[]].
    destruct (reachable_well_formed _ _ _ _ _ _ Hprev) as [(Htwo & _) _].
    apply linked_connect; [unfold goal_ptr; lia | exact IH].
  - destruct (reachable_well_formed _ _ _ _ _ _ Hprev)
      as [_ (_ & _ & ->)].
    apply linked_new_parent. exact IH.
  - destruct (reachable_well_formed _ _ _ _ _ _ Hprev)
      as [_ (_ & _ & ->)].
    exact (linked_old_parent h c s Hc Htest IH).
  - unfold UpdateDescendants_body in Hbody.
    destruct (cur =? _); [injection Hbody as <- <-; exact IH|].
    destruct (deref h cur) as [current| |]; simpl in Hbody; try discriminate.
    revert IH Hbody. apply visit_children_invariant.
    intros ii h0 q0 h1 q1. apply visit_child_linked.
  - exact IH.
  - exact (linked_mark_viable _ _ _ _ IH Hmark).
Qed.

End ReachableLinked.

(** ** The loop of RecursivePlan visits reachable arenas only *)

Section Adequacy.
Context {St : Type} `{State St}.
Variable this : GraphDynamicPlanner St.
Variables (start goal : St) (start_time : double).

Lemma attach_none_heap (sample : St) : forall neighbors (h h' : heap St),
  attach this h sample neighbors = Done (h', None) -> h' = h.
Proof.
  induction neighbors as [|neighbor rest IH]; intros h h' Hrun;
    simpl in Hrun; [congruence|].
  destruct (deref h neighbor) as [nb| |]; simpl in Hrun; try discriminate.
  destruct (norm_lt _ _); [exact (IH _ _ Hrun)|].
  destruct (0 <? Size _); [discriminate | exact (IH _ _ Hrun)].
Qed.

Lemma UpdateDescendants_loop_reachable sn : forall fuel (h : heap St) q h',
  reachable this start goal start_time (Updating sn q) h ->
  UpdateDescendants_loop this fuel start_ptr h q = Done h' ->
  reachable this start goal start_time (Updating sn []) h'.
Proof.
  induction fuel as [|fuel IH]; intros h q h' Hreach Hrun;
    destruct q as [|cur q]; simpl in Hrun; try discriminate;
    try (injection Hrun as <-; exact Hreach).
  destruct (UpdateDescendants_body this start_ptr cur h q)
    as [[h1 q1]| |] eqn:Hbody; simpl in Hrun; try discriminate.
  exact (IH _ _ _ (reach_update this start goal start_time _ _ _ _ _ _
                     Hreach Hbody) Hrun).
Qed.

(** The arena on which a run of the outbound loop ends is one that
    [reachable] describes: at the head of the loop if the clock stopped
    it, after the return otherwise. *)
Lemma RecursivePlan_loop_reachable fuel : forall samples (h : heap St) h' answer,
  reachable this start goal start_time AtLoopHead h ->
  RecursivePlan_loop this fuel samples h
    (SearchableSet_ctor start_ptr) (SearchableSet_ctor goal_ptr) true
    = Done (h', answer) ->
  reachable this start goal start_time
            (match answer with None => AtLoopHead | Some _ => Returned end) h'.
Proof.
  induction samples as [|sample samples IH]; intros h h' answer Hreach Hrun;
    simpl in Hrun.
  - injection Hrun as <- <-. exact Hreach.
  - destruct (KnnSearch _ h sample _) as [neighbors| |] eqn:Hknn;
      simpl in Hrun; try discriminate.
    destruct (attach this h sample neighbors) as [[h1 [sn|]]| |] eqn:Hattach;
      simpl in Hrun; try discriminate.
    2:{ rewrite (attach_none_heap _ _ _ _ Hattach) in Hrun.
        exact (IH _ _ _ Hreach Hrun). }
    pose proof (reach_attach this start goal start_time _ _ _ _ _
                  Hreach Hknn Hattach) as Hattached.
    destruct (RadiusSearch _ h1 sample _) as [near| |] eqn:Hradius;
      simpl in Hrun; try discriminate.
    destruct (connect this h1 sample sn near) as [[h2 [child|]]| |]
      eqn:Hconnect; simpl in Hrun; try discriminate.
    2:{ exact (IH _ _ _ (reach_no_goal this start goal start_time _ _ _ _ _
                           Hattached Hradius Hconnect) Hrun). }
    pose proof (reach_connect this start goal start_time _ _ _ _ _ _
                  Hattached Hradius Hconnect) as Hconnected.
    destruct (rewire this fuel h2 sn child _ _ true) as [h3| |] eqn:Hrewire;
      simpl in Hrun; try discriminate.
    assert (Hrewired : reachable this start goal start_time (Rewired sn) h3).
    { unfold rewire in Hrewire.
      destruct (deref h2 child) as [c| |] eqn:Hc; simpl in Hrewire;
        try discriminate.
      destruct (deref h2 sn) as [s| |] eqn:Hs; simpl in Hrewire;
        try discriminate.
      apply deref_Done in Hc, Hs.
      destruct (better_parent_test h2 c s) as [[|]| |] eqn:Htest;
        simpl in Hrewire; try discriminate.
      - apply reach_updated.
        refine (UpdateDescendants_loop_reachable sn fuel _ [sn] _ _ Hrewire).
        exact (reach_new_parent this start goal start_time _ _ _ _ _
                 Hconnected Hc Hs Htest).
      - injection Hrewire as <-.
        exact (reach_old_parent this start goal start_time _ _ _ _ _
                 Hconnected Hc Hs Htest). }
    destruct (mark_viable fuel h3 (Some sn)) as [h4| |] eqn:Hmark;
      simpl in Hrun; try discriminate.
    destruct (ExtractTrajectory _ _ _ _) as [traj| |]; simpl in Hrun;
      try discriminate.
    injection Hrun as <- <-.
    exact (reach_viable this start goal start_time _ _ _ _ Hrewired Hmark).
Qed.

(** Every arena on which [Plan] returns is a reachable one. *)
Corollary Plan_reachable fuel samples (h' : heap St) traj log :
  Plan this fuel samples start goal start_time = Done (h', traj, log) ->
  exists pt, reachable this start goal start_time pt h'.
Proof.
  unfold Plan, RecursivePlan. intros Hrun.
  destruct (RecursivePlan_loop _ _ _ _ _ _ _) as [[h1 answer]| |] eqn:Hloop;
    simpl in Hrun; try discriminate.
  pose proof (RecursivePlan_loop_reachable fuel _ _ _ _
                (reach_setup this start goal start_time) Hloop) as Hreach.
  destruct answer as [t|].
  - injection Hrun as <- _ _. eauto.
  - destruct (out_of_time _ _ _ _) as [[t l]| |]; simpl in Hrun;
      try discriminate.
    injection Hrun as <- _ _. eauto.
Qed.

End Adequacy.

(** ** Termination of UpdateDescendants on the arenas of Plan *)

Lemma linked_weaken {St : Type} (excused excused' : ptr -> Prop)
    (h : heap St) :
  (forall c, excused c -> excused' c) -> linked excused h ->
  linked excused' h.
Proof.
  intros Himp Hlinked i n Hi. destruct (Hlinked _ _ Hi) as [Haligned Hkids].
  split; [exact Haligned|]. intros c Hc.
  destruct (Hkids c Hc) as (cn & Hcn & [Hp|Hex]); eauto.
Qed.




(* ===================================================================== *)
(** * Part III: further properties of the code *)
(* ===================================================================== *)

(** ** The constructor on well-formed and ill-formed input *)

Section ConstructorMore.
Context {St : Type} `{State St}.

Lemma fix_inversions_sorted (times : list double) : forall todo ii,
  non_decreasing times -> 1 <= ii -> ii + todo = length times ->
  fix_inversions todo ii times = Done times.
Proof.
  induction todo as [|todo IH]; intros ii Hsorted Hii Hcount;
    [reflexivity|].
  destruct (lookup_lt_is_Some_2 times (ii - 1)) as [prev Hprev]; [lia|].
  destruct (lookup_lt_is_Some_2 times ii) as [here Hhere]; [lia|].
  assert (Hle : (prev <=? here)%D = true)
    by (apply (non_decreasing_le times (ii - 1) ii); auto; lia).
  cbn [fix_inversions]. unfold at_. rewrite Hprev, Hhere. cbn [obind].
  rewrite (dle_not_lt _ _ Hle).
  apply IH; [exact Hsorted | lia | lia].
Qed.

(** X1: on lists of equal length whose times do not decrease the
    constructor stores exactly what it is given. *)
Theorem Trajectory_ctor_valid (states : list St) (times : list double) :
  length states = length times -> non_decreasing times ->
  Trajectory_ctor states times
    = Done {| states_ := states; times_ := times |}.
Proof.
  intros Hlen Hsorted. unfold Trajectory_ctor.
  rewrite (proj2 (Nat.eqb_eq _ _) Hlen). cbn [negb].
  destruct times as [|t0 rest]; [reflexivity|].
  rewrite (fix_inversions_sorted (t0 :: rest) (length (t0 :: rest) - 1) 1);
    [reflexivity | exact Hsorted | lia | simpl; lia].
Qed.

(** X2: whenever the constructor returns, the states it stores are the
    given ones cut to the length of the times, and both stored lists have
    the length of the shorter input. *)
Theorem Trajectory_ctor_truncates (states : list St) times traj :
  Trajectory_ctor states times = Done traj ->
  states_ traj = take (length times) states /\
  length (states_ traj) = Nat.min (length states) (length times) /\
  length (times_ traj) = Nat.min (length states) (length times).
Proof.
  unfold Trajectory_ctor. intros Hctor.
  destruct (negb (length states =? length times)) eqn:Hne.
  - destruct (length times <? length states) eqn:Hlt.
    + destruct (fix_inversions _ _ _) as [times'| |] eqn:Hfix;
        simpl in Hctor; try discriminate.
      injection Hctor as <-. simpl.
      rewrite (fix_inversions_length _ _ _ _ Hfix), length_take.
      apply Nat.ltb_lt in Hlt. repeat split; lia.
    + destruct (fix_inversions _ _ _) as [times'| |] eqn:Hfix;
        simpl in Hctor; try discriminate.
      injection Hctor as <-. simpl.
      rewrite (fix_inversions_length _ _ _ _ Hfix), length_take.
      apply Nat.ltb_ge in Hlt.
      rewrite take_ge by lia. repeat split; lia.
  - destruct (fix_inversions _ _ _) as [times'| |] eqn:Hfix;
      simpl in Hctor; try discriminate.
    injection Hctor as <-. simpl.
    rewrite (fix_inversions_length _ _ _ _ Hfix).
    apply negb_false_iff, Nat.eqb_eq in Hne.
    rewrite take_ge by lia. repeat split; lia.
Qed.

Lemma fix_inversions_fault : forall todo ii (times : list double) f,
  1 <= ii -> ii + todo = length times ->
  fix_inversions todo ii times = Fault f ->
  f = OutOfRange (length times) (length times).
Proof.
  induction todo as [|todo IH]; intros ii times f Hii Hcount Hrun;
    [discriminate|].
  destruct (lookup_lt_is_Some_2 times (ii - 1)) as [prev Hprev]; [lia|].
  destruct (lookup_lt_is_Some_2 times ii) as [here Hhere]; [lia|].
  cbn [fix_inversions] in Hrun. unfold at_ in Hrun.
  rewrite Hprev, Hhere in Hrun. cbn [obind] in Hrun.
  destruct (here <? prev)%D.
  - destruct (times !! (ii + 1)) as [next|] eqn:Hnext; cbn [obind] in Hrun.
    + rewrite <- (length_insert times ii next). apply (IH (ii + 1)); [lia| |exact Hrun].
      rewrite length_insert. lia.
    + apply lookup_ge_None in Hnext. injection Hrun as <-.
      f_equal. lia.
  - apply (IH (ii + 1)); [lia | lia | exact Hrun].
Qed.

(** X3: the constructor has a single way to go wrong: reading the
    timestamp one past the end of the (truncated) list of times. *)
Theorem Trajectory_ctor_fault (states : list St) times f :
  Trajectory_ctor states times = Fault f ->
  f = OutOfRange (Nat.min (length states) (length times))
                 (Nat.min (length states) (length times)) /\
  2 <= Nat.min (length states) (length times).
Proof.
  unfold Trajectory_ctor. intros Hctor.
  assert (Hgen : forall times0 : list double,
             fix_inversions (length times0 - 1) 1 times0 = Fault f ->
             f = OutOfRange (length times0) (length times0) /\
             2 <= length times0).
  { intros times0 Hfix.
    destruct times0 as [|t0 [|t1 rest]]; try discriminate.
    split; [|simpl; lia].
    apply (fix_inversions_fault (length (t0 :: t1 :: rest) - 1) 1 _ f);
      [lia | simpl; lia | exact Hfix]. }
  destruct (negb (length states =? length times)) eqn:Hne.
  - destruct (length times <? length states) eqn:Hlt.
    + destruct (fix_inversions _ _ _) as [times'| |] eqn:Hfix;
        simpl in Hctor; try discriminate.
      injection Hctor as <-. apply Nat.ltb_lt in Hlt.
      destruct (Hgen _ Hfix) as [Hf Htwo]. rewrite Hf.
      split; [f_equal; lia | lia].
    + destruct (fix_inversions _ _ _) as [times'| |] eqn:Hfix;
        simpl in Hctor; try discriminate.
      injection Hctor as <-. apply Nat.ltb_ge in Hlt.
      destruct (Hgen _ Hfix) as [Hf Htwo]. rewrite Hf.
      rewrite length_take in *. split; [f_equal; lia | lia].
  - destruct (fix_inversions _ _ _) as [times'| |] eqn:Hfix;
      simpl in Hctor; try discriminate.
    injection Hctor as <-.
    apply negb_false_iff, Nat.eqb_eq in Hne.
    destruct (Hgen _ Hfix) as [Hf Htwo]. rewrite Hf.
    split; [f_equal; lia | lia].
Qed.

End ConstructorMore.

Lemma Trajectory_ctor_valid_witness :
  Trajectory_ctor [dZ 1; dZ 2; dZ 3] [dZ 0; dZ 1; dZ 1]
    = Done {| states_ := [dZ 1; dZ 2; dZ 3]; times_ := [dZ 0; dZ 1; dZ 1] |}.
Proof.
  apply (Trajectory_ctor_valid [dZ 1; dZ 2; dZ 3] [dZ 0; dZ 1; dZ 1]).
  - reflexivity.
  - simpl. split; [reflexivity|]. split; reflexivity.
Defined.

Lemma Trajectory_ctor_truncates_witness :
  states_ {| states_ := [dZ 1; dZ 2]; times_ := [dZ 0; dZ 1] |}
    = take (length [dZ 0; dZ 1]) [dZ 1; dZ 2; dZ 3] /\
  length (states_ {| states_ := [dZ 1; dZ 2]; times_ := [dZ 0; dZ 1] |})
    = Nat.min (length [dZ 1; dZ 2; dZ 3]) (length [dZ 0; dZ 1]) /\
  length (times_ {| states_ := [dZ 1; dZ 2]; times_ := [dZ 0; dZ 1] |})
    = Nat.min (length [dZ 1; dZ 2; dZ 3]) (length [dZ 0; dZ 1]).
Proof.
  apply (Trajectory_ctor_truncates [dZ 1; dZ 2; dZ 3] [dZ 0; dZ 1]).
  reflexivity.
Defined.

Lemma Trajectory_ctor_fault_witness :
  OutOfRange 3 3
    = OutOfRange (Nat.min (length [dZ 1; dZ 2; dZ 3]) (length [dZ 0; dZ 2; dZ 1; dZ 7]))
                 (Nat.min (length [dZ 1; dZ 2; dZ 3]) (length [dZ 0; dZ 2; dZ 1; dZ 7])) /\
  2 <= Nat.min (length [dZ 1; dZ 2; dZ 3]) (length [dZ 0; dZ 2; dZ 1; dZ 7]).
Proof.
  apply (Trajectory_ctor_fault [dZ 1; dZ 2; dZ 3] [dZ 0; dZ 2; dZ 1; dZ 7] (OutOfRange 3 3)).
  reflexivity.
Defined.

(** ** Interpolation on non-empty trajectories *)

Section InterpolateMore.
Context {St : Type} `{State St}.

(** X4: on a trajectory that is not empty and whose two lists have the
    same length, interpolation reads no index out of range: it returns a
    state at every time. *)
Theorem Interpolate_returns (traj : Trajectory St) t :
  same_length traj -> times_ traj <> [] ->
  exists r, Interpolate traj t = Done r.
Proof.
  unfold same_length, Interpolate. intros Hlen Hne.
  pose proof (lower_bound_le_length (times_ traj) t) as Hbound.
  assert (Hpos : 0 < length (times_ traj))
    by (destruct (times_ traj); [contradiction | simpl; lia]).
  destruct (Nat.eqb_spec (lower_bound (times_ traj) t) 0) as [_|Hnz].
  - destruct (lookup_lt_is_Some_2 (states_ traj) 0) as [s Hs]; [lia|].
    unfold front, at_. rewrite Hs. eauto.
  - destruct (Nat.eqb_spec (lower_bound (times_ traj) t)
                           (length (times_ traj))) as [_|Hnl].
    + destruct (lookup_lt_is_Some_2 (states_ traj) (length (states_ traj) - 1))
        as [s Hs]; [lia|].
      unfold back, at_. destruct (states_ traj) as [|s0 rest] eqn:Hst;
        [simpl in Hlen; lia|].
      rewrite Hs. eauto.
    + set (hi := lower_bound (times_ traj) t) in *.
      destruct (lookup_lt_is_Some_2 (times_ traj) (hi - 1)) as [a Ha]; [lia|].
      destruct (lookup_lt_is_Some_2 (times_ traj) hi) as [b Hb]; [lia|].
      destruct (lookup_lt_is_Some_2 (states_ traj) (hi - 1)) as [sa Hsa];
        [lia|].
      destruct (lookup_lt_is_Some_2 (states_ traj) hi) as [sb Hsb]; [lia|].
      unfold at_. rewrite Ha, Hb, Hsa, Hsb. cbn [obind]. eauto.
Qed.

(** X5: on a trajectory whose times do not decrease, at and before the
    first timestamp the interpolation is the first state. *)
Theorem Interpolate_before_first (traj : Trajectory St) t t0 s0 :
  non_decreasing (times_ traj) ->
  times_ traj !! 0 = Some t0 -> states_ traj !! 0 = Some s0 ->
  (t <=? t0)%D = true -> Interpolate traj t = Done s0.
Proof.
  intros Hsorted Ht0 Hs0 Hle. unfold Interpolate.
  rewrite (lower_bound_partition (times_ traj) t 0).
  - simpl. unfold front, at_. rewrite Hs0. reflexivity.
  - split; [lia|]. split; [intros j x Hj; lia|].
    intros j x _ Hx. apply dle_not_lt.
    destruct j as [|j].
    + assert (x = t0) as -> by congruence. exact Hle.
    + apply (dle_trans t t0 x Hle).
      apply (non_decreasing_le (times_ traj) 0 (Datatypes.S j) t0 x Hsorted);
        [lia | exact Ht0 | exact Hx].
Qed.

(** X6: after the last timestamp the interpolation is the last state. *)
Theorem Interpolate_after_last (traj : Trajectory St) t s :
  same_length traj ->
  states_ traj !! (length (states_ traj) - 1) = Some s ->
  (forall x, x ∈ times_ traj -> (x <? t)%D = true) ->
  Interpolate traj t = Done s.
Proof.
  unfold same_length. intros Hlen Hlast Hall. unfold Interpolate.
  rewrite (lower_bound_partition (times_ traj) t (length (times_ traj))).
  - destruct (states_ traj) as [|s0 rest] eqn:Hst; [discriminate|].
    replace (length (times_ traj)) with (Datatypes.S (length rest))
      by (simpl in Hlen; lia).
    rewrite Nat.eqb_refl. cbn [Nat.eqb].
    unfold back, at_. rewrite Hlast. reflexivity.
  - split; [lia|]. split.
    + intros j x _ Hx. apply Hall. eapply list_elem_of_lookup_2. exact Hx.
    + intros j x Hj Hx. apply lookup_lt_Some in Hx. lia.
Qed.

(** X7: on a trajectory whose times do not decrease, at a time after one
    sample and not after the next the interpolation blends the two
    states: the later one with the weight
    [(t - t_lo) / (t_hi - t_lo)] as the doubles compute it, the earlier
    one with one minus that weight. *)
Theorem Interpolate_between (traj : Trajectory St) t lo t_lo t_hi s_lo s_hi :
  non_decreasing (times_ traj) ->
  times_ traj !! lo = Some t_lo ->
  times_ traj !! (Datatypes.S lo) = Some t_hi ->
  states_ traj !! lo = Some s_lo ->
  states_ traj !! (Datatypes.S lo) = Some s_hi ->
  (t_lo <? t)%D = true -> (t <=? t_hi)%D = true ->
  Interpolate traj t
    = Done (splus (smult (dZ 1 - (t - t_lo) / (t_hi - t_lo))%D s_lo)
                  (smult ((t - t_lo) / (t_hi - t_lo))%D s_hi)).
Proof.
  intros Hsorted Hlo Hhi Hslo Hshi Hlt Hle.
  unfold Interpolate.
  pose proof (lookup_lt_Some _ _ _ Hhi) as Hbound.
  rewrite (lower_bound_partition (times_ traj) t (Datatypes.S lo)).
  - replace (Datatypes.S lo =? 0) with false by reflexivity.
    replace (Datatypes.S lo =? length (times_ traj)) with false
      by (symmetry; apply Nat.eqb_neq; lia).
    replace (Datatypes.S lo - 1) with lo by lia.
    unfold at_. rewrite Hlo, Hhi, Hslo, Hshi. reflexivity.
  - split; [lia|]. split.
    + intros j x Hj Hx.
      destruct (Nat.eq_dec j lo) as [->|Hne].
      * assert (x = t_lo) as -> by congruence. exact Hlt.
      * apply (dle_lt_trans x t_lo t); [|exact Hlt].
        apply (non_decreasing_le (times_ traj) j lo x t_lo Hsorted);
          [lia | exact Hx | exact Hlo].
    + intros j x Hj Hx. apply dle_not_lt.
      destruct (Nat.eq_dec j (Datatypes.S lo)) as [->|Hne].
      * assert (x = t_hi) as -> by congruence. exact Hle.
      * apply (dle_trans t t_hi x Hle).
        apply (non_decreasing_le (times_ traj) (Datatypes.S lo) j t_hi x
                 Hsorted); [lia | exact Hhi | exact Hx].
Qed.

End InterpolateMore.

Lemma Interpolate_returns_witness :
  exists r, Interpolate {| states_ := [dZ 0; dZ 1; dZ 5];
                           times_ := [dZ 0; dZ 1; dZ 2] |}
                        (dZ 7 / dZ 2)%D = Done r.
Proof.
  apply (Interpolate_returns
           {| states_ := [dZ 0; dZ 1; dZ 5]; times_ := [dZ 0; dZ 1; dZ 2] |}
           (dZ 7 / dZ 2)%D).
  - reflexivity.
  - discriminate.
Defined.

Lemma Interpolate_before_first_witness :
  Interpolate {| states_ := [dZ 4; dZ 1; dZ 5];
                 times_ := [dZ 0; dZ 1; dZ 2] |} (dZ (-3))
    = Done (dZ 4).
Proof.
  apply (Interpolate_before_first
           {| states_ := [dZ 4; dZ 1; dZ 5]; times_ := [dZ 0; dZ 1; dZ 2] |}
           (dZ (-3)) (dZ 0) (dZ 4)).
  - simpl. split; [reflexivity|]. split; reflexivity.
  - reflexivity.
  - reflexivity.
  - reflexivity.
Defined.

Lemma Interpolate_after_last_witness :
  Interpolate {| states_ := [dZ 4; dZ 1; dZ 5];
                 times_ := [dZ 0; dZ 1; dZ 2] |} (dZ 3)
    = Done (dZ 5).
Proof.
  apply (Interpolate_after_last
           {| states_ := [dZ 4; dZ 1; dZ 5]; times_ := [dZ 0; dZ 1; dZ 2] |}
           (dZ 3) (dZ 5)).
  - reflexivity.
  - reflexivity.
  - intros x Hx. simpl in Hx.
    repeat (apply elem_of_cons in Hx as [->|Hx]; [reflexivity|]).
    inversion Hx.
Defined.

Lemma Interpolate_between_witness :
  Interpolate {| states_ := [dZ 0; dZ 1; dZ 5];
                 times_ := [dZ 0; dZ 1; dZ 3] |} (dZ 2)
    = Done (splus (smult (dZ 1 - (dZ 2 - dZ 1) / (dZ 3 - dZ 1))%D (dZ 1))
                  (smult ((dZ 2 - dZ 1) / (dZ 3 - dZ 1))%D (dZ 5))).
Proof.
  apply (Interpolate_between
           {| states_ := [dZ 0; dZ 1; dZ 5]; times_ := [dZ 0; dZ 1; dZ 3] |}
           (dZ 2) 1 (dZ 1) (dZ 3) (dZ 1) (dZ 5)).
  - simpl. split; [reflexivity|]. split; reflexivity.
  - reflexivity.
  - reflexivity.
  - reflexivity.
  - reflexivity.
  - reflexivity.
  - reflexivity.
Defined.

(** ** Extraction, attach and connect *)

Section PlannerSteps.
Context {St : Type} `{State St}.
Variable this : GraphDynamicPlanner St.

(** X10: extraction towards a goal without best parent yields the empty
    trajectory, whatever the start ("Returns empty trajectory if none
    exists"). *)
Theorem ExtractTrajectory_no_parent fuel (h : heap St) start goal s g :
  h !! start = Some s -> h !! goal = Some g -> best_parent g = None ->
  ExtractTrajectory fuel h start goal = Done empty_Trajectory.
Proof.
  intros Hs Hg Hparent. unfold ExtractTrajectory, deref. rewrite Hs.
  cbn [obind].
  assert (Hloop : ExtractTrajectory_loop fuel h s goal [] = Done []).
  { destruct fuel; cbn [ExtractTrajectory_loop]; unfold deref;
      rewrite Hg; cbn [obind length Nat.eqb]; rewrite Hparent;
      destruct (Node_eq g s); reflexivity. }
  rewrite Hloop. reflexivity.
Qed.

Lemma attach_all_passed_over (sample : St) : forall neighbors (h : heap St),
  Forall (passed_over this h sample) neighbors ->
  attach this h sample neighbors = Done (h, None).
Proof.
  induction neighbors as [|neighbor rest IH]; intros h Hall; [reflexivity|].
  inversion Hall as [|? ? (nb & Hnb & Hcase) Hrest]; subst.
  cbn [attach]. unfold deref. rewrite Hnb. cbn [obind].
  destruct (norm_lt _ _) eqn:Hnear; [exact (IH _ Hrest)|].
  destruct Hcase as [Hcase|Hcase]; [congruence|].
  rewrite Hcase. cbn [Nat.ltb Nat.leb]. exact (IH _ Hrest).
Qed.

(** X11: the attach loop gives up exactly when it passes over every
    neighbor, and then leaves the arena as it was. *)
Theorem attach_none (sample : St) neighbors (h h' : heap St) :
  attach this h sample neighbors = Done (h', None) <->
  h' = h /\ Forall (passed_over this h sample) neighbors.
Proof.
  split; [|intros [-> Hall]; apply attach_all_passed_over; exact Hall].
  revert h h'. induction neighbors as [|neighbor rest IH]; intros h h' Hrun.
  - simpl in Hrun. injection Hrun as <-. split; [reflexivity|constructor].
  - cbn [attach] in Hrun.
    destruct (deref h neighbor) as [nb| |] eqn:Hnb; simpl in Hrun;
      try discriminate.
    apply deref_Done in Hnb.
    destruct (norm_lt _ _) eqn:Hnear.
    + apply IH in Hrun as [-> Hrest]. split; [reflexivity|].
      constructor; [|exact Hrest]. exists nb. auto.
    + destruct (0 <? Size _) eqn:Hsize; [discriminate|].
      apply IH in Hrun as [-> Hrest]. split; [reflexivity|].
      constructor; [|exact Hrest]. exists nb. split; [exact Hnb|].
      right. apply Nat.ltb_ge in Hsize. lia.
Qed.

(** X12: an attach that succeeds takes the first neighbor that is not
    passed over, makes the new node the last of the arena, not viable,
    with that neighbor as best parent and time and cost to come counted
    from it along the sub-plan, and appends the node and the sub-plan to
    the neighbor's lists; no other node changes. *)
Theorem attach_some (sample : St) : forall neighbors (h h' : heap St) sn,
  attach this h sample neighbors = Done (h', Some sn) ->
  exists before parent after nb,
    neighbors = before ++ parent :: after /\
    Forall (passed_over this h sample) before /\
    h !! parent = Some nb /\
    norm_lt (vsub (ToVector (state nb)) (ToVector sample)) (kEpsilon this)
      = false /\
    0 < Size (SubPlan this (state nb) sample (time nb)) /\
    sn = length h /\ length h' = Datatypes.S (length h) /\
    h' !! sn
      = Some {| state := sample;
                time := (time nb
                         + Duration (SubPlan this (state nb) sample (time nb)))%D;
                cost_to_come :=
                  (cost_to_come nb
                   + Cost this (SubPlan this (state nb) sample (time nb)))%D;
                is_viable := false; best_parent := Some parent;
                children := []; trajs_to_children := [] |} /\
    h' !! parent
      = Some (push_child sn (SubPlan this (state nb) sample (time nb)) nb) /\
    (forall i, i <> parent -> i < length h -> h' !! i = h !! i).
Proof.
  induction neighbors as [|neighbor rest IH]; intros h h' sn Hrun;
    cbn [attach] in Hrun; [discriminate|].
  destruct (deref h neighbor) as [nb| |] eqn:Hnb; simpl in Hrun;
    try discriminate.
  apply deref_Done in Hnb.
  assert (Hskip : passed_over this h sample neighbor ->
            attach this h sample rest = Done (h', Some sn) ->
            exists before parent after nb0,
              neighbor :: rest = before ++ parent :: after /\
              Forall (passed_over this h sample) before /\
              h !! parent = Some nb0 /\
              norm_lt (vsub (ToVector (state nb0)) (ToVector sample))
                      (kEpsilon this) = false /\
              0 < Size (SubPlan this (state nb0) sample (time nb0)) /\
              sn = length h /\ length h' = Datatypes.S (length h) /\
              h' !! sn
                = Some {| state := sample;
                          time := (time nb0 + Duration
                                     (SubPlan this (state nb0) sample
                                              (time nb0)))%D;
                          cost_to_come :=
                            (cost_to_come nb0 + Cost this
                               (SubPlan this (state nb0) sample
                                        (time nb0)))%D;
                          is_viable := false; best_parent := Some parent;
                          children := []; trajs_to_children := [] |} /\
              h' !! parent
                = Some (push_child sn
                          (SubPlan this (state nb0) sample (time nb0)) nb0) /\
              (forall i, i <> parent -> i < length h -> h' !! i = h !! i)).
  { intros Hpassed Hrest.
    destruct (IH _ _ _ Hrest)
      as (before & parent & after & nb0 & -> & Hbefore & Hfacts).
    exists (neighbor :: before), parent, after, nb0.
    split; [reflexivity|]. split; [constructor; assumption | exact Hfacts]. }
  destruct (norm_lt _ _) eqn:Hnear.
  { apply Hskip; [|exact Hrun]. exists nb. auto. }
  destruct (0 <? Size _) eqn:Hsize.
  2:{ apply Hskip; [|exact Hrun]. exists nb. split; [exact Hnb|].
      right. apply Nat.ltb_ge in Hsize. lia. }
  injection Hrun as <- <-.
  pose proof (lookup_lt_Some _ _ _ Hnb) as Hbound.
  exists [], neighbor, rest, nb.
  split; [reflexivity|]. split; [constructor|]. split; [exact Hnb|].
  split; [exact Hnear|]. split; [apply Nat.ltb_lt; exact Hsize|].
  split; [reflexivity|].
  split; [rewrite length_alter, length_app; simpl; lia|].
  split; [|split].
  - rewrite list_lookup_alter_ne by lia.
    rewrite lookup_app_r by lia. rewrite Nat.sub_diag. reflexivity.
  - rewrite list_lookup_alter_eq, lookup_app_l by lia.
    rewrite Hnb. reflexivity.
  - intros i Hne Hi. rewrite list_lookup_alter_ne by congruence.
    apply lookup_app_l. exact Hi.
Qed.

(** X13: a connection is only ever made to a goal that is viable and
    that a non-empty sub-plan reaches from the sample, and all it changes
    is the pair of lists of the sample node. *)
Theorem connect_some (sample : St) sample_node :
  forall neighboring_goals (h h' : heap St) child,
    connect this h sample sample_node neighboring_goals
      = Done (h', Some child) ->
    exists g sn,
      child ∈ neighboring_goals /\ h !! child = Some g /\
      is_viable g = true /\ h !! sample_node = Some sn /\
      0 < Size (SubPlan this sample (state g) (time sn)) /\
      h' = alter (push_child child (SubPlan this sample (state g) (time sn)))
                 sample_node h.
Proof.
  induction neighboring_goals as [|goal rest IH]; intros h h' child Hrun;
    cbn [connect] in Hrun; [discriminate|].
  destruct (deref h goal) as [g| |] eqn:Hg; simpl in Hrun; try discriminate.
  apply deref_Done in Hg.
  assert (Hskip : connect this h sample sample_node rest
                    = Done (h', Some child) ->
            exists g0 sn,
              child ∈ goal :: rest /\ h !! child = Some g0 /\
              is_viable g0 = true /\ h !! sample_node = Some sn /\
              0 < Size (SubPlan this sample (state g0) (time sn)) /\
              h' = alter (push_child child
                            (SubPlan this sample (state g0) (time sn)))
                         sample_node h).
  { intros Hrest. destruct (IH _ _ _ Hrest) as (g0 & sn & Hin & Hfacts).
    exists g0, sn. split; [right; exact Hin | exact Hfacts]. }
  destruct (is_viable g) eqn:Hviable; cbn [negb] in Hrun;
    [|exact (Hskip Hrun)].
  destruct (deref h sample_node) as [sn| |] eqn:Hsn; simpl in Hrun;
    try discriminate.
  apply deref_Done in Hsn.
  destruct (0 <? Size _) eqn:Hsize; [|exact (Hskip Hrun)].
  injection Hrun as <- <-. exists g, sn.
  split; [left|]. split; [exact Hg|]. split; [exact Hviable|].
  split; [exact Hsn|]. split; [apply Nat.ltb_lt; exact Hsize | reflexivity].
Qed.

(** X14: a traversal that is not outbound never hands out a trajectory:
    whether it returns from the loop or runs out of time, its answer is
    the empty trajectory. *)
Theorem RecursivePlan_not_outbound fuel : forall samples (h : heap St)
    graph goals h' traj log,
  RecursivePlan this fuel samples h graph goals false = Done (h', traj, log) ->
  traj = empty_Trajectory.
Proof.
  assert (Hloop : forall samples (h : heap St) graph goals h' answer,
             RecursivePlan_loop this fuel samples h graph goals false
               = Done (h', answer) ->
             answer = None \/ answer = Some empty_Trajectory).
  { induction samples as [|sample samples IH];
      intros h graph goals h' answer Hrun; simpl in Hrun.
    - injection Hrun as <- <-. left. reflexivity.
    - destruct (KnnSearch _ h sample _) as [neighbors| |]; simpl in Hrun;
        try discriminate.
      destruct (attach this h sample neighbors) as [[h1 [sn|]]| |];
        simpl in Hrun; try discriminate; [|exact (IH _ _ _ _ _ Hrun)].
      destruct (RadiusSearch _ h1 sample _) as [near| |]; simpl in Hrun;
        try discriminate.
      destruct (connect this h1 sample sn near) as [[h2 [child|]]| |];
        simpl in Hrun; try discriminate; [|exact (IH _ _ _ _ _ Hrun)].
      destruct (rewire _ _ _ _ _ _ _ _) as [h3| |]; simpl in Hrun;
        try discriminate.
      destruct (mark_viable _ _ _) as [h4| |]; simpl in Hrun;
        try discriminate.
      injection Hrun as <- <-. right. reflexivity. }
  intros samples h graph goals h' traj log. unfold RecursivePlan.
  destruct (RecursivePlan_loop _ _ _ _ _ _ _) as [[h1 answer]| |] eqn:Hrun;
    simpl; try discriminate.
  destruct (Hloop _ _ _ _ _ _ Hrun) as [-> | ->]; simpl.
  - intros Heq. injection Heq as _ <- _. reflexivity.
  - intros Heq. injection Heq as _ <- _. reflexivity.
Qed.

End PlannerSteps.

Lemma ExtractTrajectory_no_parent_witness :
  ExtractTrajectory 0 (Plan_setup line_planner (dZ 0) (dZ 10) (dZ 0))
                    start_ptr goal_ptr = Done empty_Trajectory.
Proof.
  apply (ExtractTrajectory_no_parent 0 (Plan_setup line_planner (dZ 0) (dZ 10) (dZ 0))
           start_ptr goal_ptr
           {| state := (dZ 0); time := (dZ 0); cost_to_come := (dZ 0);
              is_viable := true; best_parent := None; children := [];
              trajs_to_children := [] |}
           {| state := (dZ 10); time := (dZ 1000); cost_to_come := (dZ 1000);
              is_viable := true; best_parent := None; children := [];
              trajs_to_children := [] |});
    reflexivity.
Defined.

Lemma attach_some_witness :
  exists before parent after nb,
    [0] = before ++ parent :: after /\
    Forall (passed_over line_planner (Plan_setup line_planner (dZ 0) (dZ 10) (dZ 0))
                        (dZ 9)) before /\
    Plan_setup line_planner (dZ 0) (dZ 10) (dZ 0) !! parent = Some nb /\
    norm_lt (vsub (ToVector (state nb)) (ToVector (dZ 9)))
            (kEpsilon line_planner) = false /\
    0 < Size (SubPlan line_planner (state nb) (dZ 9) (time nb)) /\
    2 = length (Plan_setup line_planner (dZ 0) (dZ 10) (dZ 0)) /\
    length arena_after_attach
      = Datatypes.S (length (Plan_setup line_planner (dZ 0) (dZ 10) (dZ 0))) /\
    arena_after_attach !! 2
      = Some {| state := (dZ 9);
                time := (time nb
                         + Duration (SubPlan line_planner (state nb) (dZ 9)
                                             (time nb)))%D;
                cost_to_come :=
                  (cost_to_come nb
                   + Cost line_planner
                          (SubPlan line_planner (state nb) (dZ 9) (time nb)))%D;
                is_viable := false; best_parent := Some parent;
                children := []; trajs_to_children := [] |} /\
    arena_after_attach !! parent
      = Some (push_child 2 (SubPlan line_planner (state nb) (dZ 9) (time nb))
                         nb) /\
    (forall i, i <> parent ->
               i < length (Plan_setup line_planner (dZ 0) (dZ 10) (dZ 0)) ->
               arena_after_attach !! i
                 = Plan_setup line_planner (dZ 0) (dZ 10) (dZ 0) !! i).
Proof.
  apply (attach_some line_planner (dZ 9) [0]
           (Plan_setup line_planner (dZ 0) (dZ 10) (dZ 0)) arena_after_attach 2).
  reflexivity.
Defined.

Lemma connect_some_witness :
  exists g sn,
    1 ∈ [1] /\ arena_after_attach !! 1 = Some g /\
    is_viable g = true /\ arena_after_attach !! 2 = Some sn /\
    0 < Size (SubPlan line_planner (dZ 9) (state g) (time sn)) /\
    alter (push_child 1 (straight_line (dZ 9) (dZ 10) (dZ 9))) 2 arena_after_attach
      = alter (push_child 1 (SubPlan line_planner (dZ 9) (state g) (time sn)))
              2 arena_after_attach.
Proof.
  apply (connect_some line_planner (dZ 9) 2 [1] arena_after_attach
           (alter (push_child 1 (straight_line (dZ 9) (dZ 10) (dZ 9))) 2
                  arena_after_attach) 1).
  reflexivity.
Defined.

Lemma RecursivePlan_not_outbound_witness :
  RecursivePlan stuck_planner 4 [(dZ 9)]
    (Plan_setup stuck_planner (dZ 0) (dZ 10) (dZ 0))
    (SearchableSet_ctor start_ptr) (SearchableSet_ctor goal_ptr) false
  = Done (Plan_setup stuck_planner (dZ 0) (dZ 10) (dZ 0), empty_Trajectory,
          ["Planner ran out of time."%string]) /\
  @empty_Trajectory double = empty_Trajectory.
Proof.
  split; [reflexivity|].
  apply (RecursivePlan_not_outbound stuck_planner 4 [(dZ 9)]
           (Plan_setup stuck_planner (dZ 0) (dZ 10) (dZ 0))
           (SearchableSet_ctor start_ptr) (SearchableSet_ctor goal_ptr)
           (Plan_setup stuck_planner (dZ 0) (dZ 10) (dZ 0)) empty_Trajectory
           ["Planner ran out of time."%string]).
  reflexivity.
Defined.

(** ** Marking the viable ancestors *)

Section MarkViable.
Context {St : Type}.

Lemma count_not_viable_alter : forall (h : heap St) p n,
  h !! p = Some n -> is_viable n = false ->
  count_not_viable (alter (set_is_viable true) p h) + 1 = count_not_viable h.
Proof.
  unfold count_not_viable.
  induction h as [|x h IH]; intros p n Hp Hn; [discriminate|].
  destruct p as [|p]; simpl in *.
  - injection Hp as ->. rewrite Hn. simpl. lia.
  - pose proof (IH p n Hp Hn) as Hrec.
    change (alter (set_is_viable true) p h)
      with (list_alter (set_is_viable true) p h) in Hrec.
    destruct (negb (is_viable x)); simpl; lia.
Qed.

Lemma mark_viable_fuel : forall fuel (h : heap St) parent,
  count_not_viable h <= fuel -> terminates (mark_viable fuel h parent).
Proof.
  induction fuel as [|fuel IH]; intros h parent Hcount;
    destruct parent as [p|]; simpl; try discriminate;
    (destruct (deref h p) as [n| |] eqn:Hn; simpl; try discriminate;
     [|destruct (deref_terminates _ _ Hn)]);
    apply deref_Done in Hn;
    destruct (is_viable n) eqn:Hviable; simpl; try discriminate;
    pose proof (count_not_viable_alter h p n Hn Hviable) as Hless;
    [lia|].
  apply IH. lia.
Qed.

(** X15: the loop that marks the ancestors viable comes to an end on
    every arena, also on one whose best parents run in a circle: each
    round turns a node viable, and fuel equal to the size of the arena is
    never exhausted. *)
Theorem mark_viable_terminates fuel (h : heap St) parent :
  length h <= fuel -> terminates (mark_viable fuel h parent).
Proof.
  intros Hfuel. apply mark_viable_fuel.
  unfold count_not_viable.
  pose proof (List.filter_length_le (fun n => negb (is_viable n)) h). lia.
Qed.

(** Marking keeps the size of the arena, keeps what was viable viable and
    touches no other field. *)
Lemma mark_viable_mono : forall fuel (h h' : heap St) parent,
  mark_viable fuel h parent = Done h' ->
  length h' = length h /\
  (forall i m, h !! i = Some m -> is_viable m = true ->
     exists m', h' !! i = Some m' /\ is_viable m' = true) /\
  (forall i m', h' !! i = Some m' ->
     exists m, h !! i = Some m /\ state m' = state m /\
       time m' = time m /\ cost_to_come m' = cost_to_come m /\
       best_parent m' = best_parent m /\ children m' = children m /\
       trajs_to_children m' = trajs_to_children m).
Proof.
  assert (Hsame : forall h : heap St,
             length h = length h /\
             (forall i m, h !! i = Some m -> is_viable m = true ->
                exists m', h !! i = Some m' /\ is_viable m' = true) /\
             (forall i m', h !! i = Some m' ->
                exists m, h !! i = Some m /\ state m' = state m /\
                  time m' = time m /\ cost_to_come m' = cost_to_come m /\
                  best_parent m' = best_parent m /\
                  children m' = children m /\
                  trajs_to_children m' = trajs_to_children m))
    by (intros h; split; [reflexivity|]; split; eauto 10).
  induction fuel as [|fuel IH]; intros h h' parent Hrun;
    destruct parent as [p|]; simpl in Hrun;
    try (injection Hrun as <-; apply Hsame);
    destruct (deref h p) as [n| |]; simpl in Hrun; try discriminate;
    destruct (negb (is_viable n)); try discriminate;
    try (injection Hrun as <-; apply Hsame).
  destruct (IH _ _ _ Hrun) as (Hlen & Hkeep & Hfields).
  rewrite length_alter in Hlen. split; [exact Hlen|]. split.
  - intros i m Hi Hm.
    destruct (lookup_alter_is_Some (set_is_viable true) p h i m Hi)
      as (m1 & Hm1 & Hcase).
    apply (Hkeep i m1 Hm1). destruct Hcase as [->| ->]; [exact Hm|reflexivity].
  - intros i m' Hi.
    destruct (Hfields _ _ Hi) as (m1 & Hm1 & Hs & Ht & Hc & Hb & Hk & Htr).
    apply lookup_alter_Some in Hm1 as (m0 & Hm0 & Hcase).
    exists m0. split; [exact Hm0|].
    destruct Hcase as [[_ ->]|[_ ->]]; simpl in *; auto 10.
Qed.

(** The node the marking starts from is viable afterwards. *)
Lemma mark_viable_head fuel (h h' : heap St) p n :
  mark_viable fuel h (Some p) = Done h' -> h !! p = Some n ->
  exists n', h' !! p = Some n' /\ is_viable n' = true.
Proof.
  intros Hrun Hp.
  destruct (mark_viable_mono _ _ _ _ Hrun) as (_ & Hkeep & _).
  destruct fuel as [|fuel]; simpl in Hrun; unfold deref in Hrun;
    rewrite Hp in Hrun; simpl in Hrun;
    destruct (is_viable n) eqn:Hviable; simpl in Hrun; try discriminate;
    try (injection Hrun as <-; eauto).
  destruct (mark_viable_mono _ _ _ _ Hrun) as (_ & Hkeep' & _).
  apply (Hkeep' p (set_is_viable true n)); [|reflexivity].
  rewrite list_lookup_alter_eq, Hp. reflexivity.
Qed.

(** X16: marking only ever turns flags on: afterwards the node it
    started from is viable, every node that was viable still is, and no
    other field of any node has changed. *)
Theorem mark_viable_marks fuel (h h' : heap St) p n :
  mark_viable fuel h (Some p) = Done h' -> h !! p = Some n ->
  (exists n', h' !! p = Some n' /\ is_viable n' = true) /\
  (forall i m, h !! i = Some m -> is_viable m = true ->
     exists m', h' !! i = Some m' /\ is_viable m' = true) /\
  length h' = length h /\
  (forall i m', h' !! i = Some m' ->
     exists m, h !! i = Some m /\ state m' = state m /\
       time m' = time m /\ cost_to_come m' = cost_to_come m /\
       best_parent m' = best_parent m /\ children m' = children m /\
       trajs_to_children m' = trajs_to_children m).
Proof.
  intros Hrun Hp.
  destruct (mark_viable_mono _ _ _ _ Hrun) as (Hlen & Hkeep & Hfields).
  split; [exact (mark_viable_head _ _ _ _ _ Hrun Hp)|].
  split; [exact Hkeep|]. split; [exact Hlen | exact Hfields].
Qed.

End MarkViable.

Lemma mark_viable_terminates_witness :
  terminates (mark_viable 2 arena_with_idle_loop (Some 0)).
Proof.
  apply (mark_viable_terminates 2 arena_with_idle_loop (Some 0)).
  simpl. lia.
Defined.

Lemma mark_viable_marks_witness :
  (exists n', alter (set_is_viable true) 1
                (alter (set_is_viable true) 0 arena_with_idle_loop) !! 0
              = Some n' /\ is_viable n' = true) /\
  (forall i m, arena_with_idle_loop !! i = Some m -> is_viable m = true ->
     exists m', alter (set_is_viable true) 1
                  (alter (set_is_viable true) 0 arena_with_idle_loop) !! i
                = Some m' /\ is_viable m' = true) /\
  length (alter (set_is_viable true) 1
            (alter (set_is_viable true) 0 arena_with_idle_loop))
    = length arena_with_idle_loop /\
  (forall i m', alter (set_is_viable true) 1
                  (alter (set_is_viable true) 0 arena_with_idle_loop) !! i
                = Some m' ->
     exists m, arena_with_idle_loop !! i = Some m /\ state m' = state m /\
       time m' = time m /\ cost_to_come m' = cost_to_come m /\
       best_parent m' = best_parent m /\ children m' = children m /\
       trajs_to_children m' = trajs_to_children m).
Proof.
  apply (mark_viable_marks 2 arena_with_idle_loop _ 0
           {| state := (dZ 0); time := (dZ 0); cost_to_come := (dZ 0);
              is_viable := false; best_parent := Some 1; children := [1];
              trajs_to_children := [straight_line (dZ 0) (dZ 5) (dZ 0)] |});
    reflexivity.
Defined.

(** ** What a rewiring leaves alone *)

Section Rewiring.
Context {St : Type}.
Variable this : GraphDynamicPlanner St.

Lemma rewired_from_refl (h : heap St) : rewired_from h h.
Proof. split; [reflexivity|]. intros i n Hi. exists n. auto 10. Qed.

Lemma rewired_from_trans (h h1 h2 : heap St) :
  rewired_from h h1 -> rewired_from h1 h2 -> rewired_from h h2.
Proof.
  intros [Hlen1 Hfirst] [Hlen2 Hsecond]. split; [lia|].
  intros i n2 Hi2.
  destruct (Hsecond _ _ Hi2) as (n1 & Hi1 & Hs2 & Hv2 & Hc2 & Ht2 & Hb2).
  destruct (Hfirst _ _ Hi1) as (n & Hi & Hs1 & Hv1 & Hc1 & Ht1 & Hb1).
  exists n. split; [exact Hi|]. split; [congruence|]. split; [congruence|].
  split; [congruence|]. split; [congruence|].
  destruct Hb2 as [Hsame|(p & np1 & Hp & Hnp1 & Hin)].
  - rewrite Hsame. exact Hb1.
  - right. destruct (Hfirst _ _ Hnp1) as (np & Hnp & _ & _ & Hch & _).
    exists p, np. split; [exact Hp|]. split; [exact Hnp|]. congruence.
Qed.

Lemma visit_child_frame cur ii (h : heap St) q h' q' :
  visit_child this cur ii h q = Done (h', q') ->
  forall i n', h' !! i = Some n' ->
    exists n, h !! i = Some n /\
      state n' = state n /\ is_viable n' = is_viable n.
Proof.
  unfold visit_child. intros Hrun.
  destruct (deref h cur) as [current| |] eqn:Hcur; simpl in Hrun;
    try discriminate.
  apply deref_Done in Hcur.
  destruct (at_ (children current) ii) as [child| |]; simpl in Hrun;
    try discriminate.
  destruct (at_ (trajs_to_children current) ii) as [traj| |];
    simpl in Hrun; try discriminate.
  unfold deref at 1 in Hrun.
  rewrite list_lookup_alter_eq, Hcur in Hrun. simpl in Hrun.
  destruct (deref _ child) as [c| |]; simpl in Hrun; try discriminate.
  destruct (rewiring_test _ _ _) as [reattach| |]; simpl in Hrun;
    try discriminate.
  destruct reattach; injection Hrun as <- <-; intros i n' Hi.
  - apply lookup_alter_Some in Hi as (n3 & Hn3 & Hcase3).
    apply lookup_alter_Some in Hn3 as (n2 & Hn2 & Hcase2).
    apply lookup_alter_Some in Hn2 as (n1 & Hn1 & Hcase1).
    apply lookup_alter_Some in Hn1 as (n & Hn & Hcase).
    exists n. split; [exact Hn|].
    destruct Hcase3 as [[_ ->]|[_ ->]]; destruct Hcase2 as [[_ ->]|[_ ->]];
      destruct Hcase1 as [[_ ->]|[_ ->]]; destruct Hcase as [[_ ->]|[_ ->]];
      split; reflexivity.
  - apply lookup_alter_Some in Hi as (n & Hn & Hcase).
    exists n. split; [exact Hn|].
    destruct Hcase as [[_ ->]|[_ ->]]; split; reflexivity.
Qed.

Lemma visit_child_rewired cur ii (h : heap St) q h' q' :
  visit_child this cur ii h q = Done (h', q') -> rewired_from h h'.
Proof.
  intros Hrun.
  destruct (visit_child_spec _ _ _ _ _ _ _ Hrun)
    as (current & child & Hcur & Hchild & _ & Hlen & Hnodes).
  split; [exact Hlen|]. intros i n' Hi.
  destruct (Hnodes _ _ Hi) as (n & Hn & Hch & Hcase).
  destruct (visit_child_frame _ _ _ _ _ _ Hrun _ _ Hi) as (n0 & Hn0 & Hs & Hv).
  destruct (visit_child_trajs _ _ _ _ _ _ _ Hrun _ _ Hi) as (n1 & Hn1 & Htr).
  assert (n0 = n) as -> by congruence.
  assert (n1 = n) as -> by congruence.
  exists n. split; [exact Hn|]. split; [exact Hs|]. split; [exact Hv|].
  split; [exact Hch|]. split; [exact Htr|].
  destruct Hcase as [(Hbp & _)|(-> & Hbp & _)]; [left; exact Hbp|].
  right. exists cur, current. split; [exact Hbp|]. split; [exact Hcur|].
  eapply list_elem_of_lookup_2. exact Hchild.
Qed.

Lemma UpdateDescendants_body_rewired start cur (h : heap St) q h' q' :
  UpdateDescendants_body this start cur h q = Done (h', q') ->
  rewired_from h h'.
Proof.
  unfold UpdateDescendants_body. intros Hrun.
  destruct (cur =? start);
    [injection Hrun as <- <-; apply rewired_from_refl|].
  destruct (deref h cur) as [current| |]; simpl in Hrun; try discriminate.
  refine (visit_children_invariant this (rewired_from h) cur _ _ _ _ _ _ _
            (rewired_from_refl h) Hrun).
  intros ii h0 q0 h1 q1 Hsofar Hvisit.
  exact (rewired_from_trans _ _ _ Hsofar (visit_child_rewired _ _ _ _ _ _ Hvisit)).
Qed.

Lemma UpdateDescendants_loop_length start :
  forall fuel (h : heap St) q h',
    UpdateDescendants_loop this fuel start h q = Done h' ->
    length h' = length h.
Proof.
  induction fuel as [|fuel IH]; intros h q h' Hrun;
    destruct q as [|cur q]; simpl in Hrun; try discriminate;
    try (injection Hrun as <-; reflexivity).
  destruct (UpdateDescendants_body this start cur h q) as [[h1 q1]| |]
    eqn:Hbody; simpl in Hrun; try discriminate.
  rewrite (IH _ _ _ Hrun).
  exact (UpdateDescendants_body_length this _ _ _ _ _ _ Hbody).
Qed.

(** X17: whatever the arena, a call of [UpdateDescendants] that returns
    has created and removed no node and has left every state, viability
    flag and list of children alone, as well as the number of edge
    trajectories of every node; and a node whose best parent it has
    changed has been given a node that lists it among its children. *)
Theorem UpdateDescendants_rewires fuel (h : heap St) node start h' :
  UpdateDescendants this fuel h node start = Done h' -> rewired_from h h'.
Proof.
  unfold UpdateDescendants. generalize [node]. revert h.
  induction fuel as [|fuel IH]; intros h q Hrun;
    destruct q as [|cur q]; simpl in Hrun; try discriminate;
    try (injection Hrun as <-; apply rewired_from_refl).
  destruct (UpdateDescendants_body this start cur h q) as [[h1 q1]| |]
    eqn:Hbody; simpl in Hrun; try discriminate.
  exact (rewired_from_trans _ _ _
           (UpdateDescendants_body_rewired _ _ _ _ _ _ Hbody)
           (IH _ _ Hrun)).
Qed.

End Rewiring.

Lemma UpdateDescendants_rewires_witness :
  UpdateDescendants line_planner 2 arena_before_update 2 start_ptr
    = Done (alter (set_cost_to_come (dZ 10)) 1
              (alter (set_time (dZ 10)) 1 arena_before_update)) /\
  rewired_from arena_before_update
    (alter (set_cost_to_come (dZ 10)) 1
       (alter (set_time (dZ 10)) 1 arena_before_update)).
Proof.
  split; [reflexivity|].
  apply (UpdateDescendants_rewires line_planner 2 arena_before_update
           2 start_ptr).
  reflexivity.
Defined.

(** ** The shape of the arenas of Plan *)

Section Star.
Context {St : Type} `{State St}.
Variable this : GraphDynamicPlanner St.
Variables (start goal : St) (start_time : double).

Lemma visit_child_star sn q0 cur ii (h : heap St) q h' q' :
  star (Updating sn q0) h ->
  visit_child this cur ii h q = Done (h', q') ->
  star (Updating sn q0) h'.
Proof.
  intros (Hsamples & Hstart & Hgoal & Hkids & Hsn) Hrun.
  destruct (visit_child_spec _ _ _ _ _ _ _ Hrun)
    as (current & child & Hcur & Hchild & _ & Hlen & Hnodes).
  assert (Hin : child ∈ children current)
    by (eapply list_elem_of_lookup_2; exact Hchild).
  pose proof (Hkids _ _ _ Hcur Hin) as Hedge.
  split; [|split; [|split; [|split]]].
  - intros i n' Hi Htwo.
    destruct (Hnodes _ _ Hi) as (n & Hn & _ & [(Hbp & _)|(-> & Hbp & _)]).
    + rewrite Hbp. exact (Hsamples _ _ Hn Htwo).
    + destruct Hedge as [[_ ->]|[-> _]]; [exact Hbp|].
      unfold goal_ptr in Htwo. lia.
  - intros n' Hi.
    destruct (visit_child_frame _ _ _ _ _ _ _ Hrun _ _ Hi) as (n & Hn & _ & Hv).
    destruct (Hnodes _ _ Hi) as (n0 & Hn0 & _ & Hcase).
    assert (n0 = n) as -> by congruence.
    destruct (Hstart _ Hn) as [Hviable Hroot].
    split; [congruence|].
    destruct Hcase as [(Hbp & _)|(Heq & _)]; [congruence|].
    destruct Hedge as [[Htwo _]|[Hg _]];
      unfold start_ptr, goal_ptr in *; lia.
  - intros n' Hi.
    destruct (visit_child_frame _ _ _ _ _ _ _ Hrun _ _ Hi) as (n & Hn & _ & Hv).
    destruct (Hnodes _ _ Hi) as (n0 & Hn0 & _ & Hcase).
    assert (n0 = n) as -> by congruence.
    destruct (Hgoal _ Hn) as [Hviable Hparent].
    split; [congruence|]. simpl in *.
    destruct Hcase as [(Hbp & _)|(Heq & Hbp & _)]; [congruence|].
    destruct Hedge as [[Htwo _]|[_ ->]]; [|exact Hbp].
    unfold goal_ptr in *. lia.
  - intros i n' c Hi Hc.
    destruct (Hnodes _ _ Hi) as (n & Hn & Hch & _).
    rewrite Hch in Hc. exact (Hkids _ _ _ Hn Hc).
  - exact Hsn.
Qed.

(** Every arena that [Plan] reaches is a star. *)
Lemma reachable_star pt (h : heap St) :
  reachable this start goal start_time pt h -> star pt h.
Proof.
  intros Hreach.
  induction Hreach as
    [ | h sample neighbors h' sn Hprev IH Hknn Hattach
      | h sample sn near h' Hprev IH Hradius Hconnect
      | h sample sn near h' child Hprev IH Hradius Hconnect
      | h sn child c s Hprev IH Hc Hs Htest
      | h sn child c s Hprev IH Hc Hs Htest
      | h sn cur q h' q' Hprev IH Hbody
      | h sn Hprev IH
      | h sn fuel h' Hprev IH Hmark ].
  - split; [|split; [|split; [|split]]].
    + intros i n Hi Htwo. destruct i as [|[|i]]; [lia | lia | discriminate].
    + intros n Hi. injection Hi as <-. auto.
    + intros n Hi. injection Hi as <-. simpl. auto.
    + intros i n c Hi Hc. destruct i as [|[|i]]; simpl in Hi;
        try discriminate; injection Hi as <-; inversion Hc.
    + discriminate.
  - destruct IH as (Hsamples & Hstart & Hgoal & Hkids & _).
    destruct (reachable_well_formed _ _ _ _ _ _ Hprev) as [(Htwo & _) _].
    destruct (attach_spec _ _ _ _ _ _ Hattach)
      as (parent & nb & sp & Hin & Hparent & -> & ->).
    apply (KnnSearch_registry _ _ _ _ _ _ Hknn) in Hin.
    destruct Hin as [<-|[]]. simpl in Hparent.
    split; [|split; [|split; [|split]]].
    + intros i n' Hi Hi2.
      apply lookup_alter_Some in Hi as (n & Hn & Hcase).
      assert (Hsame : best_parent n' = best_parent n)
        by (destruct Hcase as [[_ ->]|[_ ->]]; reflexivity).
      rewrite Hsame.
      apply lookup_snoc_Some in Hn as [[_ Hn]|[_ <-]];
        [exact (Hsamples _ _ Hn Hi2) | reflexivity].
    + intros n' Hi. simpl in Hi.
      rewrite list_lookup_alter_eq, lookup_app_l, Hparent in Hi
        by (unfold start_ptr; lia).
      injection Hi as <-. exact (Hstart _ Hparent).
    + intros n' Hi. simpl in Hi.
      rewrite list_lookup_alter_ne, lookup_app_l in Hi
        by (unfold start_ptr, goal_ptr; lia).
      exact (Hgoal _ Hi).
    + intros i n' c Hi Hc.
      apply lookup_alter_Some in Hi as (n & Hn & Hcase).
      apply lookup_snoc_Some in Hn as [[_ Hn]|[Hnew <-]].
      * destruct Hcase as [[-> ->]|[_ ->]]; simpl in Hc.
        -- apply elem_of_app in Hc as [Hc|Hc].
           ++ destruct (Hkids _ _ _ Hn Hc) as [Hleft|[_ []]]. left. exact Hleft.
           ++ apply list_elem_of_singleton in Hc as ->. left.
              split; [lia | reflexivity].
        -- destruct (Hkids _ _ _ Hn Hc) as [Hleft|[_ []]]. left. exact Hleft.
      * destruct Hcase as [[Heq _]|[_ ->]];
          [simpl in Heq; unfold start_ptr in Heq; lia|].
        inversion Hc.
    + intros sn0 Hsn0. injection Hsn0 as <-. lia.
  - rewrite (connect_none_heap _ _ _ _ _ _ Hconnect).
    destruct IH as (Hsamples & Hstart & Hgoal & Hkids & _).
    split; [exact Hsamples|]. split; [exact Hstart|]. split; [exact Hgoal|].
    split; [|discriminate].
    intros i n c Hi Hc. destruct (Hkids _ _ _ Hi Hc) as [Hleft|[_ []]].
    left. exact Hleft.
  - destruct IH as (Hsamples & Hstart & Hgoal & Hkids & Hsn).
    pose proof (Hsn sn eq_refl) as Htwo.
    destruct (connect_spec _ _ _ _ _ _ _ Hconnect) as (sp & Hin & ->).
    apply (RadiusSearch_registry _ _ _ _ _ _ Hradius) in Hin.
    destruct Hin as [<-|[]]. simpl InitialNode.
    split; [|split; [|split; [|split]]].
    + intros i n' Hi Hi2.
      apply lookup_alter_Some in Hi as (n & Hn & Hcase).
      destruct Hcase as [[_ ->]|[_ ->]]; exact (Hsamples _ _ Hn Hi2).
    + intros n' Hi.
      rewrite list_lookup_alter_ne in Hi by (unfold start_ptr; lia).
      exact (Hstart _ Hi).
    + intros n' Hi.
      rewrite list_lookup_alter_ne in Hi by (unfold goal_ptr; lia).
      exact (Hgoal _ Hi).
    + intros i n' c Hi Hc.
      apply lookup_alter_Some in Hi as (n & Hn & Hcase).
      destruct Hcase as [[-> ->]|[_ ->]]; simpl in Hc.
      * apply elem_of_app in Hc as [Hc|Hc].
        -- destruct (Hkids _ _ _ Hn Hc) as [Hleft|[_ []]]. left. exact Hleft.
        -- apply list_elem_of_singleton in Hc as ->. right.
           split; reflexivity.
      * destruct (Hkids _ _ _ Hn Hc) as [Hleft|[_ []]]. left. exact Hleft.
    + intros sn0 Hsn0. injection Hsn0 as <-. exact Htwo.
  - destruct IH as (Hsamples & Hstart & Hgoal & Hkids & Hsn).
    destruct (reachable_well_formed _ _ _ _ _ _ Hprev) as [_ (_ & _ & ->)].
    pose proof (Hsn sn eq_refl) as Htwo.
    split; [|split; [|split; [|split]]].
    + intros i n' Hi Hi2.
      rewrite list_lookup_alter_ne in Hi by (unfold goal_ptr; lia).
      exact (Hsamples _ _ Hi Hi2).
    + intros n' Hi.
      rewrite list_lookup_alter_ne in Hi by (unfold start_ptr, goal_ptr; lia).
      exact (Hstart _ Hi).
    + intros n' Hi. rewrite list_lookup_alter_eq, Hc in Hi.
      injection Hi as <-. simpl. split; [|reflexivity].
      exact (proj1 (Hgoal _ Hc)).
    + intros i n' c0 Hi Hc0.
      apply lookup_alter_Some in Hi as (n & Hn & Hcase).
      destruct Hcase as [[_ ->]|[_ ->]]; exact (Hkids _ _ _ Hn Hc0).
    + intros sn0 Hsn0. injection Hsn0 as <-. exact Htwo.
  - destruct IH as (_ & _ & Hgoal & _).
    destruct (reachable_well_formed _ _ _ _ _ _ Hprev) as [_ (_ & _ & ->)].
    destruct (Hgoal _ Hc) as [_ Hnone]. simpl in Hnone.
    unfold better_parent_test in Htest. rewrite Hnone in Htest. discriminate.
  - unfold UpdateDescendants_body in Hbody.
    destruct (cur =? _); [injection Hbody as <- <-; exact IH|].
    destruct (deref h cur) as [current| |]; simpl in Hbody; try discriminate.
    refine (visit_children_invariant this (star (Updating sn q')) cur
              _ _ _ _ _ _ _ IH Hbody).
    intros ii h0 q0 h1 q1. apply visit_child_star.
  - exact IH.
  - destruct IH as (Hsamples & Hstart & Hgoal & Hkids & Hsn).
    pose proof (Hsn sn eq_refl) as Htwo.
    destruct (reachable_well_formed _ _ _ _ _ _ Hprev) as [_ [Hbound _]].
    destruct (lookup_lt_is_Some_2 h sn Hbound) as [s Hs].
    destruct (mark_viable_head _ _ _ _ _ Hmark Hs) as (s' & Hs' & Hviable).
    destruct (mark_viable_mono _ _ _ _ Hmark) as (Hlen & Hkeep & Hfields).
    split; [|split; [|split; [|split]]].
    + intros i n' Hi Hi2.
      destruct (Hfields _ _ Hi) as (n & Hn & _ & _ & _ & -> & _).
      exact (Hsamples _ _ Hn Hi2).
    + intros n' Hi.
      destruct (Hfields _ _ Hi) as (n & Hn & _ & _ & _ & Hbp & _).
      destruct (Hstart _ Hn) as [Hv Hroot].
      destruct (Hkeep _ _ Hn Hv) as (m' & Hm' & Hvm).
      assert (m' = n') as -> by congruence. split; congruence.
    + intros n' Hi.
      destruct (Hfields _ _ Hi) as (n & Hn & _ & _ & _ & Hbp & _).
      destruct (Hgoal _ Hn) as [Hv Hparent]. simpl in Hparent.
      destruct (Hkeep _ _ Hn Hv) as (m' & Hm' & Hvm).
      assert (m' = n') as -> by congruence. split; [exact Hvm|].
      simpl. exists sn, s'. split; [congruence|]. auto.
    + intros i n' c Hi Hc.
      destruct (Hfields _ _ Hi) as (n & Hn & _ & _ & _ & _ & Hch & _).
      rewrite Hch in Hc.
      destruct (Hkids _ _ _ Hn Hc) as [Hleft|[Hg Hi']];
        [left; exact Hleft|].
      right. split; [exact Hg|]. simpl in *. lia.
    + discriminate.
Qed.

End Star.

(** ** What a call of Plan returns *)

Section PlanResults.
Context {St : Type} `{State St}.
Variable this : GraphDynamicPlanner St.
Variables (start goal : St) (start_time : double).

(** X18: nothing is ever inserted into [graph], so the tree that [Plan]
    grows is one level deep: at every point it reaches, each node other
    than the start and the goal has the start as its best parent and no
    child but the goal, the start has no best parent and only such nodes
    as children, and the goal has no children. *)
Theorem Plan_grows_a_star pt (h : heap St) :
  reachable this start goal start_time pt h ->
  (forall i n, h !! i = Some n -> 2 <= i ->
     best_parent n = Some start_ptr /\
     forall c, c ∈ children n -> c = goal_ptr) /\
  (forall n, h !! start_ptr = Some n ->
     best_parent n = None /\ forall c, c ∈ children n -> 2 <= c) /\
  (forall n, h !! goal_ptr = Some n -> children n = []).
Proof.
  intros Hreach.
  destruct (reachable_star this start goal start_time _ _ Hreach)
    as (Hsamples & Hstart & _ & Hkids & Hsn).
  destruct (reachable_well_formed this _ _ _ _ _ Hreach)
    as [(_ & Hranked & _) _].
  split; [|split].
  - intros i n Hi Htwo. split; [exact (Hsamples _ _ Hi Htwo)|].
    intros c Hc. destruct (Hkids _ _ _ Hi Hc) as [[_ ->]|[-> _]];
      [unfold start_ptr in Htwo; lia | reflexivity].
  - intros n Hn. split; [exact (proj2 (Hstart _ Hn))|].
    intros c Hc. destruct (Hkids _ _ _ Hn Hc) as [[Htwo _]|[_ Hg]];
      [exact Htwo|].
    destruct pt; simpl in Hg, Hsn; try contradiction;
      try specialize (Hsn _ eq_refl); unfold start_ptr in *; lia.
  - intros n Hn. exact (proj1 (Hranked _ _ Hn) eq_refl).
Qed.

(** X19: the branch of [RecursivePlan] that returns a viable loop is
    never taken by [Plan]: the start never gets a best parent, so a call
    that runs out of time logs the two errors and returns the empty
    trajectory; a call that logs nothing has returned from inside the
    loop. *)
Theorem Plan_never_finds_loop fuel samples (h : heap St) traj log :
  Plan this fuel samples start goal start_time = Done (h, traj, log) ->
  log = [] \/
  (traj = empty_Trajectory /\
   log = ["Planner ran out of time."%string;
          "No viable loops available."%string]).
Proof.
  unfold Plan, RecursivePlan. intros Hrun.
  destruct (RecursivePlan_loop _ _ _ _ _ _ _) as [[h1 answer]| |] eqn:Hloop;
    simpl in Hrun; try discriminate.
  pose proof (RecursivePlan_loop_reachable this start goal start_time fuel
                _ _ _ _ (reach_setup this start goal start_time) Hloop)
    as Hreach.
  destruct answer as [t|].
  - injection Hrun as _ _ <-. left. reflexivity.
  - right.
    destruct (reachable_star this start goal start_time _ _ Hreach)
      as (_ & Hstart & _).
    destruct (reachable_well_formed this _ _ _ _ _ Hreach)
      as [(Hlen & _) _].
    assert (Hzero : start_ptr < length h1) by (unfold start_ptr; lia).
    destruct (lookup_lt_is_Some_2 h1 start_ptr Hzero) as [s Hs].
    unfold out_of_time in Hrun. simpl in Hrun. unfold deref in Hrun.
    rewrite Hs in Hrun. simpl in Hrun.
    rewrite (proj2 (Hstart _ Hs)) in Hrun. simpl in Hrun.
    injection Hrun as _ <- <-. auto.
Qed.

(** A call of [Plan] that logs nothing has returned from inside the loop,
    with the trajectory extracted from the arena it ends on. *)
Lemma Plan_success fuel samples (h : heap St) traj :
  Plan this fuel samples start goal start_time = Done (h, traj, []) ->
  reachable this start goal start_time Returned h /\
  ExtractTrajectory fuel h start_ptr goal_ptr = Done traj.
Proof.
  unfold Plan, RecursivePlan. intros Hrun.
  destruct (RecursivePlan_loop _ _ _ _ _ _ _) as [[h1 answer]| |] eqn:Hloop;
    simpl in Hrun; try discriminate.
  destruct answer as [t|].
  2:{ unfold out_of_time in Hrun. simpl in Hrun.
      destruct (deref h1 start_ptr) as [s| |]; simpl in Hrun;
        try discriminate.
      destruct (best_parent s); [|discriminate].
      destruct (ExtractTrajectory _ _ _ _); discriminate. }
  injection Hrun as -> ->.
  pose proof (RecursivePlan_loop_reachable this start goal start_time fuel
                _ _ _ _ (reach_setup this start goal start_time) Hloop)
    as Hreach.
  split; [exact Hreach|].
  clear Hreach. revert Hloop.
  generalize (Plan_setup this start goal start_time).
  induction samples as [|sample samples IH]; intros h0 Hloop;
    simpl in Hloop; [discriminate|].
  destruct (KnnSearch _ h0 sample _) as [neighbors| |]; simpl in Hloop;
    try discriminate.
  destruct (attach this h0 sample neighbors) as [[h1 [sn|]]| |];
    simpl in Hloop; try discriminate; [|exact (IH _ Hloop)].
  destruct (RadiusSearch _ h1 sample _) as [near| |]; simpl in Hloop;
    try discriminate.
  destruct (connect this h1 sample sn near) as [[h2 [child|]]| |];
    simpl in Hloop; try discriminate; [|exact (IH _ Hloop)].
  destruct (rewire this fuel h2 sn child _ _ true) as [h3| |];
    simpl in Hloop; try discriminate.
  destruct (mark_viable fuel h3 (Some sn)) as [h4| |]; simpl in Hloop;
    try discriminate.
  destruct (ExtractTrajectory fuel h4 start_ptr goal_ptr) as [t'| |]
    eqn:Hextract; simpl in Hloop; try discriminate.
  injection Hloop as <- <-. exact Hextract.
Qed.

(** X20: when [Plan] returns from inside the loop (it logs nothing), the
    trajectory is the one extracted from the final arena, and there the
    goal hangs under a sample node that hangs under the start, all three
    viable. *)
Theorem Plan_success_chain fuel samples (h : heap St) traj :
  Plan this fuel samples start goal start_time = Done (h, traj, []) ->
  ExtractTrajectory fuel h start_ptr goal_ptr = Done traj /\
  exists g sn s r,
    h !! goal_ptr = Some g /\ is_viable g = true /\
    best_parent g = Some sn /\ 2 <= sn /\
    h !! sn = Some s /\ is_viable s = true /\
    best_parent s = Some start_ptr /\
    h !! start_ptr = Some r /\ is_viable r = true /\ best_parent r = None.
Proof.
  intros Hrun. destruct (Plan_success _ _ _ _ Hrun) as [Hreach Hextract].
  split; [exact Hextract|].
  destruct (reachable_star this start goal start_time _ _ Hreach)
    as (Hsamples & Hstart & Hgoal & _).
  destruct (reachable_well_formed this _ _ _ _ _ Hreach)
    as [(Hlen & _) _].
  assert (Hzero : start_ptr < length h) by (unfold start_ptr; lia).
  assert (Hone : goal_ptr < length h) by (unfold goal_ptr; lia).
  destruct (lookup_lt_is_Some_2 h start_ptr Hzero) as [r Hr].
  destruct (lookup_lt_is_Some_2 h goal_ptr Hone) as [g Hg].
  destruct (Hgoal _ Hg) as (Hviable & sn & s & Hparent & Htwo & Hs & Hsv).
  destruct (Hstart _ Hr) as [Hrv Hroot].
  pose proof (Hsamples _ _ Hs Htwo) as Hup.
  exists g, sn, s, r. repeat split; assumption.
Qed.

(** *** Searches and single steps return *)

Lemma with_distances_returns (h : heap St) x : forall ps,
  Forall (fun p => p < length h) ps ->
  exists ds, with_distances h x ps = Done ds.
Proof.
  induction ps as [|p rest IH]; intros Hall; [simpl; eauto|].
  inversion Hall as [|? ? Hp Hrest]; subst.
  destruct (lookup_lt_is_Some_2 h p Hp) as [n Hn].
  destruct (IH Hrest) as [ds Hds].
  simpl. unfold squaredDistance, deref. rewrite Hn. simpl.
  rewrite Hds. simpl. eauto.
Qed.

Lemma KnnSearch_returns (h : heap St) p x k :
  p < length h ->
  exists found, KnnSearch (SearchableSet_ctor p) h x k = Done found /\
                Forall (fun q => q = p) found.
Proof.
  intros Hp. unfold KnnSearch.
  destruct (with_distances_returns h x (registry (SearchableSet_ctor p)))
    as [ds Hds]; [repeat constructor; exact Hp|].
  rewrite Hds. simpl. eexists. split; [reflexivity|].
  apply Forall_forall. intros q Hq. apply list_elem_of_In in Hq.
  assert (Hrun : KnnSearch (SearchableSet_ctor p) h x k
                 = Done (take k (map fst (fold_right insert_by_distance [] ds))))
    by (unfold KnnSearch; rewrite Hds; reflexivity).
  pose proof (KnnSearch_registry _ _ _ _ _ _ Hrun Hq) as Hin.
  simpl in Hin. destruct Hin as [<-|[]]. reflexivity.
Qed.

Lemma RadiusSearch_returns (h : heap St) p x r :
  p < length h ->
  exists found, RadiusSearch (SearchableSet_ctor p) h x r = Done found /\
                Forall (fun q => q = p) found.
Proof.
  intros Hp.
  destruct (with_distances_returns h x (registry (SearchableSet_ctor p)))
    as [ds Hds]; [repeat constructor; exact Hp|].
  assert (Hrun : exists found,
             RadiusSearch (SearchableSet_ctor p) h x r = Done found)
    by (unfold RadiusSearch; rewrite Hds; simpl; eauto).
  destruct Hrun as [found Hrun]. exists found. split; [exact Hrun|].
  apply Forall_forall. intros q Hq. apply list_elem_of_In in Hq.
  pose proof (RadiusSearch_registry _ _ _ _ _ _ Hrun Hq) as Hin.
  simpl in Hin. destruct Hin as [<-|[]]. reflexivity.
Qed.

(** X21: with a sub-planner that never connects two states, [Plan]
    creates no node at all: whatever the samples and the clock, it comes
    back on the arena of its set-up with the empty trajectory and the two
    error messages. *)
Theorem Plan_without_sub_plans fuel samples :
  (forall a b t, Size (SubPlan this a b t) = 0) ->
  Plan this fuel samples start goal start_time
  = Done (Plan_setup this start goal start_time, empty_Trajectory,
          ["Planner ran out of time."%string;
           "No viable loops available."%string]).
Proof.
  intros Hstuck. unfold Plan, RecursivePlan.
  assert (Hloop : RecursivePlan_loop this fuel samples
                    (Plan_setup this start goal start_time)
                    (SearchableSet_ctor start_ptr)
                    (SearchableSet_ctor goal_ptr) true
                  = Done (Plan_setup this start goal start_time, None)).
  { induction samples as [|sample samples IH]; [reflexivity|].
    cbn [RecursivePlan_loop].
    destruct (KnnSearch_returns (Plan_setup this start goal start_time)
                start_ptr sample (num_neighbors_ this))
      as (neighbors & -> & Hall); [simpl; unfold start_ptr; lia|].
    cbn [obind].
    rewrite (attach_all_passed_over this sample neighbors); [exact IH|].
    eapply Forall_impl; [exact Hall|]. intros q ->.
    eexists. split; [reflexivity|]. right. apply Hstuck. }
  rewrite Hloop. reflexivity.
Qed.

Lemma attach_returns (sample : St) : forall neighbors (h : heap St),
  Forall (fun p => p < length h) neighbors ->
  exists r, attach this h sample neighbors = Done r.
Proof.
  induction neighbors as [|neighbor rest IH]; intros h Hall;
    [simpl; eauto|].
  inversion Hall as [|? ? Hp Hrest]; subst.
  destruct (lookup_lt_is_Some_2 h neighbor Hp) as [nb Hnb].
  cbn [attach]. unfold deref. rewrite Hnb. cbn [obind].
  destruct (norm_lt _ _); [exact (IH _ Hrest)|].
  destruct (0 <? Size _); [eauto | exact (IH _ Hrest)].
Qed.

Lemma connect_returns (sample : St) sn : forall near (h : heap St),
  Forall (fun p => p < length h) near -> sn < length h ->
  exists r, connect this h sample sn near = Done r.
Proof.
  induction near as [|g rest IH]; intros h Hall Hsn; [simpl; eauto|].
  inversion Hall as [|? ? Hp Hrest]; subst.
  destruct (lookup_lt_is_Some_2 h g Hp) as [gn Hgn].
  destruct (lookup_lt_is_Some_2 h sn Hsn) as [s Hs].
  cbn [connect]. unfold deref. rewrite Hgn. cbn [obind].
  destruct (negb (is_viable gn)); [exact (IH _ Hrest Hsn)|].
  rewrite Hs. cbn [obind].
  destruct (0 <? Size _); [eauto | exact (IH _ Hrest Hsn)].
Qed.

Lemma better_parent_test_returns (h : heap St) c sn :
  (forall p, best_parent c = Some p -> p < length h) ->
  exists b, better_parent_test h c sn = Done b.
Proof.
  intros Hvalid. unfold better_parent_test.
  destruct (best_parent c) as [p|]; [|eauto].
  destruct (lookup_lt_is_Some_2 h p (Hvalid p eq_refl)) as [pn Hpn].
  simpl. unfold deref. rewrite Hpn. simpl. eauto.
Qed.

(** The search of a node among the children of a parent returns on an
    arena whose child pointers are valid and whose lists are aligned. *)
Lemma find_child_returns (h : heap St) parent node :
  (forall c, c ∈ children parent -> c < length h) ->
  length (trajs_to_children parent) = length (children parent) ->
  forall todo ii trajs, ii + todo = length (children parent) ->
    exists r, find_child h parent node ii todo trajs = Done r.
Proof.
  intros Hkids Haligned.
  induction todo as [|todo IH]; intros ii trajs Hsum; [simpl; eauto|].
  assert (Hii : ii < length (children parent)) by lia.
  destruct (lookup_lt_is_Some_2 _ _ Hii) as [c Hc].
  assert (Hii' : ii < length (trajs_to_children parent)) by lia.
  destruct (lookup_lt_is_Some_2 _ _ Hii') as [traj Htraj].
  assert (Hvalid : c < length h)
    by (apply Hkids; eapply list_elem_of_lookup_2; exact Hc).
  destruct (lookup_lt_is_Some_2 h c Hvalid) as [cn Hcn].
  cbn [find_child]. unfold at_, deref. rewrite Hc. cbn [obind].
  rewrite Hcn. cbn [obind].
  destruct (Node_eq cn node).
  - rewrite Htraj. simpl. eauto.
  - apply IH. lia.
Qed.

Lemma linked_aligned (excused : ptr -> Prop) (h : heap St) :
  linked excused h -> aligned h.
Proof.
  intros Hlinked i n Hi. destruct (Hlinked _ _ Hi) as [Hsame Hkids].
  split; [exact Hsame|]. intros c Hc.
  destruct (Hkids c Hc) as (cn & Hcn & _).
  eapply lookup_lt_Some. exact Hcn.
Qed.

(** The walk of [ExtractTrajectory] along the best parents returns: from
    the goal it needs as many steps as the arena has nodes at most, and
    from another node one step for each older node. *)
Lemma ExtractTrajectory_loop_returns (h : heap St) s :
  parents_ranked h -> aligned h ->
  forall fuel node trajs,
    node < length h ->
    (node = goal_ptr -> length h <= fuel) ->
    (node <> goal_ptr -> node <= fuel) ->
    exists r, ExtractTrajectory_loop fuel h s node trajs = Done r.
Proof.
  intros Hparents Haligned.
  assert (Hstep : forall parent n trajs, parent < length h ->
            exists p r, h !! parent = Some p /\
              find_child h p n 0 (length (children p)) trajs = Done r).
  { intros parent n trajs Hparent.
    destruct (lookup_lt_is_Some_2 h parent Hparent) as [p Hp].
    destruct (Haligned _ _ Hp) as [Hsame Hkids].
    destruct (find_child_returns h p n) with (todo := length (children p))
      (ii := 0) (trajs := trajs) as [r Hr]; eauto. }
  induction fuel as [|fuel IH]; intros node trajs Hnode Hgoal Hother;
    destruct (lookup_lt_is_Some_2 h node Hnode) as [n Hn];
    simpl; unfold deref; rewrite Hn; cbn [obind];
    destruct (negb (Node_eq n s) || Node_eq n s && (length trajs =? 0));
    eauto;
    destruct (best_parent n) as [parent|] eqn:Hbp; eauto;
    destruct (Hparents _ _ _ Hn Hbp) as (Hvalid & Hnot & Holder).
  - exfalso. destruct (Nat.eq_dec node goal_ptr) as [Heq|Hne].
    + specialize (Hgoal Heq). lia.
    + specialize (Hother Hne). lia.
  - destruct (Hstep parent n trajs Hvalid) as (p & r & Hp & Hr).
    rewrite Hp. cbn [obind]. rewrite Hr. cbn [obind].
    apply IH; [exact Hvalid | contradiction |].
    intros _. destruct (Nat.eq_dec node goal_ptr) as [Heq|Hne].
    + specialize (Hgoal Heq). lia.
    + specialize (Hother Hne). lia.
Qed.

(** X22: take an arena in which every best parent is a node of the
    arena other than the goal, and is older than the node it is the best
    parent of unless that node is the goal; in which every node has as
    many edge trajectories as children; and in which every child is a
    node of the arena.  On it [ExtractTrajectory] between any two nodes
    reads no invalid pointer or index and returns a trajectory within as
    many steps as the arena has nodes. *)
Theorem ExtractTrajectory_returns fuel (h : heap St) from to :
  parents_ranked h -> aligned h ->
  from < length h -> to < length h -> length h <= fuel ->
  exists traj, ExtractTrajectory fuel h from to = Done traj.
Proof.
  intros Hparents Haligned Hfrom Hto Hfuel.
  destruct (lookup_lt_is_Some_2 h from Hfrom) as [s Hs].
  unfold ExtractTrajectory, deref. rewrite Hs. cbn [obind].
  destruct (ExtractTrajectory_loop_returns h s Hparents Haligned
              fuel to []) as [r Hr]; [exact Hto | lia | lia |].
  rewrite Hr. simpl. eauto.
Qed.

(** The viability loop returns when the best parents are nodes of the
    arena and the fuel covers the nodes that are not viable yet. *)
Lemma mark_viable_returns : forall fuel (h : heap St) parent,
  (forall i n p, h !! i = Some n -> best_parent n = Some p ->
     p < length h) ->
  (forall p, parent = Some p -> p < length h) ->
  count_not_viable h <= fuel ->
  exists h', mark_viable fuel h parent = Done h'.
Proof.
  induction fuel as [|fuel IH]; intros h parent Hparents Hvalid Hcount;
    destruct parent as [p|]; simpl; eauto;
    destruct (lookup_lt_is_Some_2 h p (Hvalid p eq_refl)) as [n Hn];
    unfold deref; rewrite Hn; cbn [obind];
    destruct (is_viable n) eqn:Hviable; simpl; eauto;
    pose proof (count_not_viable_alter h p n Hn Hviable) as Hless;
    [lia|].
  apply IH.
  - intros i m q Hi Hq. rewrite length_alter.
    apply lookup_alter_Some in Hi as (m0 & Hm0 & [[_ ->]|[_ ->]]);
      simpl in Hq; eauto.
  - intros q Hq. rewrite length_alter. eauto.
  - lia.
Qed.

(** The choice of the goal's parent returns, on an arena of the same
    size, once the fuel covers the rounds of the rewiring. *)
Lemma rewire_returns fuel (h : heap St) sn child :
  reachable this start goal start_time (Connected sn child) h ->
  weight (length h) (alter (set_best_parent (Some sn)) child h) sn <= fuel ->
  exists h',
    rewire this fuel h sn child (SearchableSet_ctor start_ptr)
           (SearchableSet_ctor goal_ptr) true = Done h' /\
    reachable this start goal start_time (Rewired sn) h' /\
    length h' = length h.
Proof.
  intros Hreach Hfuel.
  destruct (reachable_well_formed this _ _ _ _ _ Hreach)
    as [(Hlen & _ & Hparents) (Hsn & _ & Hchild)].
  assert (Hvalid : child < length h) by (subst child; unfold goal_ptr; lia).
  destruct (lookup_lt_is_Some_2 h child Hvalid) as [c Hc].
  destruct (lookup_lt_is_Some_2 h sn Hsn) as [s Hs].
  destruct (better_parent_test_returns h c s) as [better Htest].
  { intros p Hp. exact (proj1 (Hparents _ _ _ Hc Hp)). }
  unfold rewire, deref. rewrite Hc, Hs. cbn [obind].
  rewrite Htest. cbn [obind InitialNode SearchableSet_ctor].
  destruct better.
  - pose proof (reach_new_parent this start goal start_time _ _ _ _ _
                  Hreach Hc Hs Htest) as Hupdating.
    destruct (reachable_well_formed this _ _ _ _ _ Hupdating) as [Hwf _].
    pose proof (reachable_linked this _ _ _ _ _ Hupdating) as Hlinked.
    destruct (UpdateDescendants_loop_returns this start_ptr fuel
                (alter (set_best_parent (Some sn)) child h) [sn] Hwf
                (linked_weaken _ (fun _ => False) _ (fun c Hc => Hc) Hlinked))
      as [h' Hrun].
    { constructor; [rewrite length_alter; exact Hsn | constructor]. }
    { simpl. rewrite length_alter. lia. }
    exists h'. split; [exact Hrun|]. split.
    + apply reach_updated.
      exact (UpdateDescendants_loop_reachable this start goal start_time
               sn fuel _ [sn] _ Hupdating Hrun).
    + rewrite (UpdateDescendants_loop_length this _ _ _ _ _ Hrun).
      apply length_alter.
  - exists h. split; [reflexivity|]. split; [|reflexivity].
    exact (reach_old_parent this start goal start_time _ _ _ _ _
             Hreach Hc Hs Htest).
Qed.

(** A sample node that has just been attached and connected has the goal
    as its only child, so that the rewiring started there takes two
    rounds. *)
Lemma fresh_sample_weight (h h1 h2 : heap St) sample neighbors sn near child :
  reachable this start goal start_time AtLoopHead h ->
  Forall (fun q => q = start_ptr) neighbors ->
  attach this h sample neighbors = Done (h1, Some sn) ->
  reachable this start goal start_time (Connected sn child) h2 ->
  connect this h1 sample sn near = Done (h2, Some child) ->
  length h2 = length h + 1 /\
  weight (length h2) (alter (set_best_parent (Some sn)) child h2) sn = 2.
Proof.
  intros Hreach Hall Hattach Hconnected Hconnect.
  destruct (reachable_well_formed this _ _ _ _ _ Hreach) as [(Hlen & _) _].
  destruct (reachable_well_formed this _ _ _ _ _ Hconnected)
    as [(Hlen2 & _ & Hparents2) (Hsn & Hnot & ->)].
  destruct (attach_spec this sample _ _ _ _ Hattach)
    as (parent & nb & sub_plan & Hin & Hnb & -> & ->).
  apply list_elem_of_In in Hin.
  rewrite Forall_forall in Hall. apply Hall in Hin. subst parent.
  destruct (connect_spec this sample _ _ _ _ _ Hconnect)
    as (sub_plan' & _ & ->).
  split; [rewrite !length_alter, length_app; simpl; lia|].
  set (h2 := alter (push_child goal_ptr sub_plan') (length h) _) in *.
  assert (Hs : exists s, h2 !! length h = Some s /\ children s = [goal_ptr]).
  { unfold h2. rewrite list_lookup_alter_eq.
    rewrite list_lookup_alter_ne by (unfold start_ptr; lia).
    rewrite lookup_app_r by lia. rewrite Nat.sub_diag. simpl. eauto. }
  destruct Hs as (s & Hs & Hkids).
  assert (Hone : goal_ptr < length h2) by (unfold goal_ptr; lia).
  destruct (lookup_lt_is_Some_2 h2 goal_ptr Hone) as [g Hg].
  pose proof (reach_new_parent this start goal start_time _ _ _ _ _
                Hconnected Hg Hs) as Hupdating.
  destruct (better_parent_test_returns h2 g s) as [[|] Htest].
  { intros p Hp. exact (proj1 (Hparents2 _ _ _ Hg Hp)). }
  2:{ (* the goal has no best parent yet at this point *)
      destruct (reachable_star this start goal start_time _ _ Hconnected)
        as (_ & _ & Hgoal & _).
      destruct (Hgoal _ Hg) as [_ Hnone]. simpl in Hnone.
      unfold better_parent_test in Htest. rewrite Hnone in Htest.
      discriminate. }
  destruct (reachable_well_formed this _ _ _ _ _ (Hupdating Htest))
    as [(_ & Hranked & _) _].
  set (h3 := alter (set_best_parent (Some (length h))) goal_ptr h2) in *.
  assert (Hsize : length h3 = length h2) by (unfold h3; apply length_alter).
  rewrite <- Hsize.
  assert (Hs3 : h3 !! length h = Some s)
    by (unfold h3; rewrite list_lookup_alter_ne by (symmetry; exact Hnot);
        exact Hs).
  assert (Hg3 : exists g', h3 !! goal_ptr = Some g').
  { apply lookup_lt_is_Some_2. lia. }
  destruct Hg3 as [g' Hg3].
  rewrite (weight_unfold h3 _ Hranked), (children_of_lookup _ _ _ Hs3), Hkids.
  simpl sum_list_with.
  rewrite (weight_unfold h3 _ Hranked), (children_of_lookup _ _ _ Hg3).
  rewrite (proj1 (Hranked _ _ Hg3) eq_refl). reflexivity.
Qed.

(** The loop of [RecursivePlan] returns from every arena that the head of
    the loop can see, with one unit of fuel for each node there and each
    sample to come. *)
Lemma RecursivePlan_loop_returns fuel : forall samples (h : heap St),
  reachable this start goal start_time AtLoopHead h ->
  length h + length samples <= fuel ->
  exists r, RecursivePlan_loop this fuel samples h
              (SearchableSet_ctor start_ptr) (SearchableSet_ctor goal_ptr)
              true = Done r.
Proof.
  induction samples as [|sample samples IH]; intros h Hreach Hfuel;
    [simpl; eauto|].
  simpl length in Hfuel.
  destruct (reachable_well_formed this _ _ _ _ _ Hreach) as [(Hlen & _) _].
  destruct (KnnSearch_returns h start_ptr sample (num_neighbors_ this))
    as (neighbors & Hknn & Hall); [unfold start_ptr; lia|].
  destruct (attach_returns sample neighbors h) as [[h1 [sn|]] Hattach].
  { eapply Forall_impl; [exact Hall|]. intros q ->. unfold start_ptr. lia. }
  2:{ pose proof (attach_none_heap this sample _ _ _ Hattach) as ->.
      cbn [RecursivePlan_loop]. rewrite Hknn. cbn [obind].
      rewrite Hattach. cbn [obind]. apply IH; [exact Hreach | lia]. }
  pose proof (reach_attach this start goal start_time _ _ _ _ _
                Hreach Hknn Hattach) as Hattached.
  destruct (reachable_well_formed this _ _ _ _ _ Hattached)
    as [(Hlen1 & _) (Hsn1 & _)].
  destruct (RadiusSearch_returns h1 goal_ptr sample (search_radius_ this))
    as (near & Hradius & Hnear); [unfold goal_ptr; lia|].
  destruct (connect_returns sample sn near h1) as [[h2 [child|]] Hconnect];
    [|exact Hsn1| |].
  { eapply Forall_impl; [exact Hnear|]. intros q ->. unfold goal_ptr. lia. }
  2:{ pose proof (reach_no_goal this start goal start_time _ _ _ _ _
                    Hattached Hradius Hconnect) as Hhead.
      pose proof (connect_none_heap this sample sn _ _ _ Hconnect) as ->.
      destruct (attach_spec this sample _ _ _ _ Hattach)
        as (parent & nb & sub_plan & _ & _ & _ & Hh1).
      assert (Hsize : length h1 = length h + 1)
        by (rewrite Hh1, length_alter, length_app; simpl; lia).
      cbn [RecursivePlan_loop]. rewrite Hknn. cbn [obind].
      rewrite Hattach. cbn [obind]. rewrite Hradius. cbn [obind].
      rewrite Hconnect. cbn [obind]. apply IH; [exact Hhead | lia]. }
  pose proof (reach_connect this start goal start_time _ _ _ _ _ _
                Hattached Hradius Hconnect) as Hconnected.
  destruct (fresh_sample_weight _ _ _ _ _ _ _ _ Hreach Hall Hattach
              Hconnected Hconnect) as [Hsize Hweight].
  destruct (rewire_returns fuel h2 sn child Hconnected)
    as (h3 & Hrewire & Hrewired & Hsize3); [lia|].
  destruct (reachable_well_formed this _ _ _ _ _ Hrewired)
    as [(_ & _ & Hparents3) (Hsn3 & _)].
  destruct (mark_viable_returns fuel h3 (Some sn)) as [h4 Hmark].
  { intros i n p Hi Hp. exact (proj1 (Hparents3 _ _ _ Hi Hp)). }
  { intros p [= <-]. exact Hsn3. }
  { unfold count_not_viable.
    pose proof (List.filter_length_le (fun n => negb (is_viable n)) h3).
    lia. }
  pose proof (reach_viable this start goal start_time _ _ _ _
                Hrewired Hmark) as Hreturned.
  destruct (reachable_well_formed this _ _ _ _ _ Hreturned) as [Hwf4 _].
  pose proof (reachable_linked this _ _ _ _ _ Hreturned) as Hlinked4.
  destruct (mark_viable_spec _ _ _ _ Hmark) as [Hsize4 _].
  assert (Hzero : start_ptr < length h4) by (unfold start_ptr; lia).
  destruct (lookup_lt_is_Some_2 h4 start_ptr Hzero) as [s Hs].
  destruct (ExtractTrajectory_loop_returns h4 s (proj2 (proj2 Hwf4))
              (linked_aligned _ _ Hlinked4)
              fuel goal_ptr []) as [trajs Htrajs];
    [unfold goal_ptr; lia | lia | unfold goal_ptr; lia |].
  cbn [RecursivePlan_loop]. rewrite Hknn. cbn [obind].
  rewrite Hattach. cbn [obind]. rewrite Hradius. cbn [obind].
  rewrite Hconnect. cbn [obind]. rewrite Hrewire. cbn [obind].
  rewrite Hmark. cbn [obind InitialNode SearchableSet_ctor].
  unfold ExtractTrajectory, deref. rewrite Hs. cbn [obind].
  rewrite Htrajs. simpl. eauto.
Qed.

(** X23: [Plan] always returns: whatever the sub-planner, the cost, the
    samples and the moment the clock stops the loop, no step of it
    dereferences a null or foreign pointer or indexes a list of children
    or of edge trajectories out of range, and its inner loops (the
    rewiring, the marking of the viable ancestors, the extraction) come
    to an end; two units of fuel and one for each sample cover them.
    The searches and the operations of [Trajectory] that the planner
    calls are the modelled ones. *)
Theorem Plan_returns fuel samples :
  length samples + 2 <= fuel ->
  exists h traj log,
    Plan this fuel samples start goal start_time = Done (h, traj, log).
Proof.
  intros Hfuel.
  destruct (RecursivePlan_loop_returns fuel samples
              (Plan_setup this start goal start_time)
              (reach_setup this start goal start_time))
    as [[h answer] Hloop]; [simpl; lia|].
  unfold Plan, RecursivePlan. rewrite Hloop. cbn [obind].
  destruct answer as [traj|]; [eauto|].
  pose proof (RecursivePlan_loop_reachable this start goal start_time fuel
                _ _ _ _ (reach_setup this start goal start_time) Hloop)
    as Hreach.
  destruct (reachable_star this start goal start_time _ _ Hreach)
    as (_ & Hstart & _).
  destruct (reachable_well_formed this _ _ _ _ _ Hreach) as [(Hlen & _) _].
  assert (Hzero : start_ptr < length h) by (unfold start_ptr; lia).
  destruct (lookup_lt_is_Some_2 h start_ptr Hzero) as [s Hs].
  unfold out_of_time, deref. cbn [negb InitialNode SearchableSet_ctor].
  rewrite Hs. cbn [obind]. rewrite (proj2 (Hstart _ Hs)). simpl. eauto.
Qed.

End PlanResults.

(** ** Best parents and children agree *)

Section Listed.
Context {St : Type} `{State St}.
Variable this : GraphDynamicPlanner St.
Variables (start goal : St) (start_time : double).

(** A step that only adds children, and gives a new best parent only to a
    node that the parent lists, keeps every node listed. *)
Lemma listed_step (h h' : heap St) :
  (forall i n, h !! i = Some n ->
     exists n', h' !! i = Some n' /\
                forall c, c ∈ children n -> c ∈ children n') ->
  (forall i n' p, h' !! i = Some n' -> best_parent n' = Some p ->
     (exists n, h !! i = Some n /\ best_parent n = Some p) \/
     (exists pn', h' !! p = Some pn' /\ i ∈ children pn')) ->
  (forall i n p, h !! i = Some n -> best_parent n = Some p ->
     exists pn, h !! p = Some pn /\ i ∈ children pn) ->
  forall i n p, h' !! i = Some n -> best_parent n = Some p ->
    exists pn, h' !! p = Some pn /\ i ∈ children pn.
Proof.
  intros Hforward Hbackward Hold i n' p Hi Hp.
  destruct (Hbackward _ _ _ Hi Hp) as [(n & Hn & Hnp)|Hnew]; [|exact Hnew].
  destruct (Hold _ _ _ Hn Hnp) as (pn & Hpn & Hin).
  destruct (Hforward _ _ Hpn) as (pn' & Hpn' & Hsub). eauto.
Qed.

Lemma alter_grows (f : Node St -> Node St) p (h : heap St) :
  (forall n c, c ∈ children n -> c ∈ children (f n)) ->
  forall i n, h !! i = Some n ->
    exists n', alter f p h !! i = Some n' /\
               forall c, c ∈ children n -> c ∈ children n'.
Proof.
  intros Hf i n Hi.
  destruct (lookup_alter_is_Some f p h i n Hi) as (n' & Hn' & [->| ->]);
    eauto.
Qed.

Lemma alter_keeps_parent (f : Node St -> Node St) p (h : heap St) :
  (forall n, best_parent (f n) = best_parent n) ->
  forall i n', alter f p h !! i = Some n' ->
    exists n, h !! i = Some n /\ best_parent n' = best_parent n.
Proof.
  intros Hf i n' Hi.
  apply lookup_alter_Some in Hi as (n & Hn & [[_ ->]|[_ ->]]); eauto.
Qed.

Lemma push_child_grows c (traj : Trajectory St) (n : Node St) x :
  x ∈ children n -> x ∈ children (push_child c traj n).
Proof. intros Hx. simpl. apply elem_of_app. left. exact Hx. Qed.

(** A step that changes neither the size of the arena, nor the children,
    nor the best parents except to a node that lists the child. *)
Lemma listed_rewired (h h' : heap St) :
  length h' = length h ->
  (forall i n', h' !! i = Some n' ->
     exists n, h !! i = Some n /\ children n' = children n /\
       (best_parent n' = best_parent n \/
        exists p np, best_parent n' = Some p /\ h !! p = Some np /\
                     i ∈ children np)) ->
  (forall i n p, h !! i = Some n -> best_parent n = Some p ->
     exists pn, h !! p = Some pn /\ i ∈ children pn) ->
  forall i n p, h' !! i = Some n -> best_parent n = Some p ->
    exists pn, h' !! p = Some pn /\ i ∈ children pn.
Proof.
  intros Hsize Hnodes Hold.
  assert (Hforward : forall i n, h !! i = Some n ->
            exists n', h' !! i = Some n' /\
                       forall c, c ∈ children n -> c ∈ children n').
  { intros i n Hi.
    assert (Hlt : i < length h') by (rewrite Hsize; eapply lookup_lt_Some; eauto).
    destruct (lookup_lt_is_Some_2 h' i Hlt) as [n' Hn'].
    destruct (Hnodes _ _ Hn') as (n0 & Hn0 & Hkids & _).
    exists n'. split; [exact Hn'|]. intros c Hc. congruence. }
  apply (listed_step h h' Hforward); [|exact Hold].
  intros i n' p Hi Hp.
  destruct (Hnodes _ _ Hi) as (n & Hn & _ & [Hsame|Hnew]).
  - left. exists n. split; [exact Hn | congruence].
  - right. destruct Hnew as (q & nq & Hq & Hnq & Hin).
    assert (q = p) as -> by congruence.
    destruct (Hforward _ _ Hnq) as (pn' & Hpn' & Hsub). eauto.
Qed.

(** Every arena that [Plan] reaches lists each node under its best
    parent. *)
Lemma reachable_listed pt (h : heap St) :
  reachable this start goal start_time pt h -> listed pt h.
Proof.
  intros Hreach.
  induction Hreach as
    [ | h sample neighbors h' sn Hprev IH Hknn Hattach
      | h sample sn near h' Hprev IH Hradius Hconnect
      | h sample sn near h' child Hprev IH Hradius Hconnect
      | h sn child c s Hprev IH Hc Hs Htest
      | h sn child c s Hprev IH Hc Hs Htest
      | h sn cur q h' q' Hprev IH Hbody
      | h sn Hprev IH
      | h sn fuel h' Hprev IH Hmark ].
  - split; [|exact I]. intros [|[|i]] n p Hi Hp; simpl in Hi;
      try discriminate; injection Hi as <-; discriminate.
  - split; [|exact I]. destruct IH as [IH _].
    destruct (attach_spec this sample _ _ _ _ Hattach)
      as (parent & nb & sub_plan & _ & Hnb & -> & ->).
    apply (listed_step h); [| |exact IH].
    + intros i n Hi. apply alter_grows; [intros; apply push_child_grows; auto|].
      apply lookup_app_l_Some. exact Hi.
    + intros i n' p Hi Hp.
      destruct (alter_keeps_parent (push_child (length h) sub_plan) _ _
                  (fun n => eq_refl) _ _ Hi) as (n & Hn & Hsame).
      apply lookup_app_Some in Hn as [Hn|[Hge Hn]].
      * left. exists n. split; [exact Hn | congruence].
      * right. apply list_lookup_singleton_Some in Hn as [Hzero <-].
        simpl in Hsame. assert (p = parent) as -> by congruence.
        assert (i = length h) as -> by lia.
        exists (push_child (length h) sub_plan nb). split.
        -- rewrite list_lookup_alter_eq.
           rewrite (lookup_app_l_Some _ _ _ _ Hnb). reflexivity.
        -- simpl. apply elem_of_app. right. apply list_elem_of_singleton.
           reflexivity.
  - rewrite (connect_none_heap this sample sn _ _ _ Hconnect).
    split; [exact (proj1 IH) | exact I].
  - destruct IH as [IH _].
    destruct (connect_spec this sample _ _ _ _ _ Hconnect)
      as (sub_plan & _ & ->).
    destruct (reachable_well_formed this _ _ _ _ _ Hprev) as [_ (Hsn & _)].
    destruct (lookup_lt_is_Some_2 h sn Hsn) as [s Hs].
    split.
    + apply (listed_step h); [| |exact IH].
      * intros i n Hi.
        apply alter_grows; [intros; apply push_child_grows; auto | exact Hi].
      * intros i n' p Hi Hp.
        destruct (alter_keeps_parent (push_child child sub_plan) _ _
                    (fun n => eq_refl) _ _ Hi) as (n & Hn & Hsame).
        left. exists n. split; [exact Hn | congruence].
    + exists (push_child child sub_plan s). split.
      * rewrite list_lookup_alter_eq, Hs. reflexivity.
      * simpl. apply elem_of_app. right. apply list_elem_of_singleton.
        reflexivity.
  - split; [|exact I]. destruct IH as [IH (s' & Hs' & Hin)].
    assert (Hforward : forall i n, h !! i = Some n ->
              exists n', alter (set_best_parent (Some sn)) child h !! i
                         = Some n' /\
                         forall c, c ∈ children n -> c ∈ children n')
      by (intros i n Hi; apply alter_grows; [auto | exact Hi]).
    apply (listed_step h _ Hforward); [|exact IH].
    intros i n' p Hi Hp.
    apply lookup_alter_Some in Hi as (n & Hn & [[-> ->]|[_ ->]]).
    + right. simpl in Hp. assert (p = sn) as -> by congruence.
      destruct (Hforward _ _ Hs') as (pn' & Hpn' & Hsub). eauto.
    + left. eauto.
  - split; [exact (proj1 IH) | exact I].
  - split; [|exact I].
    destruct (UpdateDescendants_body_rewired this _ _ _ _ _ _ Hbody)
      as [Hsize Hnodes].
    apply (listed_rewired h _ Hsize); [|exact (proj1 IH)].
    intros i n' Hi.
    destruct (Hnodes _ _ Hi) as (n & Hn & _ & _ & Hkids & _ & Hparent).
    eauto.
  - split; [exact (proj1 IH) | exact I].
  - split; [|exact I]. destruct IH as [IH _].
    destruct (mark_viable_mono _ _ _ _ Hmark) as (Hsize & _ & Hfields).
    apply (listed_rewired h _ Hsize); [|exact IH].
    intros i n' Hi.
    destruct (Hfields _ _ Hi) as (n & Hn & _ & _ & _ & Hb & Hk & _).
    eauto.
Qed.

(** X24: on every arena that [Plan] reaches, a node with a best parent
    is one of that parent's children and has an edge trajectory there:
    the parent/child inconsistency that [ExtractTrajectory] reports
    cannot arise. *)
Theorem best_parent_lists_child pt (h : heap St) i n p :
  reachable this start goal start_time pt h ->
  h !! i = Some n -> best_parent n = Some p ->
  exists pn ii traj,
    h !! p = Some pn /\ children pn !! ii = Some i /\
    trajs_to_children pn !! ii = Some traj.
Proof.
  intros Hreach Hi Hp.
  destruct (reachable_listed _ _ Hreach) as [Hlisted _].
  destruct (Hlisted _ _ _ Hi Hp) as (pn & Hpn & Hin).
  destruct (reachable_linked this _ _ _ _ _ Hreach _ _ Hpn) as [Haligned _].
  apply list_elem_of_lookup_1 in Hin as [ii Hii].
  assert (Hlt : ii < length (trajs_to_children pn))
    by (rewrite Haligned; eapply lookup_lt_Some; exact Hii).
  destruct (lookup_lt_is_Some_2 _ _ Hlt) as [traj Htraj].
  eauto 10.
Qed.

(** The search among the children of a parent stops at the first child
    that equals the node by [Node::operator==], and pushes the edge
    trajectory of that index. *)
Lemma find_child_found (h : heap St) parent node :
  (forall c, c ∈ children parent -> c < length h) ->
  length (trajs_to_children parent) = length (children parent) ->
  forall todo ii trajs, ii + todo = length (children parent) ->
    (exists jj c cn, ii <= jj /\ children parent !! jj = Some c /\
       h !! c = Some cn /\ Node_eq cn node = true) ->
    exists jj c cn traj,
      ii <= jj /\ children parent !! jj = Some c /\ h !! c = Some cn /\
      Node_eq cn node = true /\
      (forall kk c' cn', ii <= kk < jj -> children parent !! kk = Some c' ->
         h !! c' = Some cn' -> Node_eq cn' node = false) /\
      trajs_to_children parent !! jj = Some traj /\
      find_child h parent node ii todo trajs = Done (traj :: trajs).
Proof.
  intros Hkids Haligned.
  induction todo as [|todo IH]; intros ii trajs Hsum Hsome.
  { destruct Hsome as (jj & c & cn & Hle & Hc & _).
    apply lookup_lt_Some in Hc. lia. }
  assert (Hii : ii < length (children parent)) by lia.
  destruct (lookup_lt_is_Some_2 _ _ Hii) as [c Hc].
  assert (Hii' : ii < length (trajs_to_children parent)) by lia.
  destruct (lookup_lt_is_Some_2 _ _ Hii') as [traj Htraj].
  assert (Hvalid : c < length h)
    by (apply Hkids; eapply list_elem_of_lookup_2; exact Hc).
  destruct (lookup_lt_is_Some_2 h c Hvalid) as [cn Hcn].
  cbn [find_child]. unfold at_, deref. rewrite Hc. cbn [obind].
  rewrite Hcn. cbn [obind].
  destruct (Node_eq cn node) eqn:Heq.
  - rewrite Htraj. cbn [obind].
    exists ii, c, cn, traj. repeat split; auto. intros; lia.
  - destruct (IH (ii + 1) trajs) as
      (jj & c1 & cn1 & traj1 & Hle & Hc1 & Hcn1 & Heq1 & Hfirst & Ht1 & Hrun);
      [lia| |].
    + destruct Hsome as (jj & c1 & cn1 & Hle & Hc1 & Hcn1 & Heq1).
      exists jj, c1, cn1. repeat split; auto.
      destruct (Nat.eq_dec jj ii) as [->|Hne]; [|lia].
      congruence.
    + exists jj, c1, cn1, traj1. repeat split; auto; [lia|].
      intros kk c' cn' Hkk Hc' Hcn'.
      destruct (Nat.eq_dec kk ii) as [->|Hne]; [congruence|].
      apply (Hfirst kk c' cn'); auto. lia.
Qed.

Lemma find_child_first (h : heap St) parent node c cn traj trajs :
  children parent !! 0 = Some c -> h !! c = Some cn ->
  Node_eq cn node = true -> trajs_to_children parent !! 0 = Some traj ->
  find_child h parent node 0 (length (children parent)) trajs
  = Done (traj :: trajs).
Proof.
  intros Hc Hcn Heq Htraj.
  destruct (length (children parent)) as [|todo] eqn:Hsize.
  { apply lookup_lt_Some in Hc. lia. }
  cbn [find_child]. unfold at_, deref. rewrite Hc. cbn [obind].
  rewrite Hcn. cbn [obind]. rewrite Heq, Htraj. reflexivity.
Qed.

(** The walk of [ExtractTrajectory] at the end of a successful [Plan]
    takes at most two steps.  The last piece is the edge from the goal's
    best parent, a sample node, to the goal.  If that sample node equals
    the start by [Node::operator==] the walk stops there; otherwise the
    piece in front of it is the edge that the start keeps for its first
    child that equals the sample node. *)
Lemma Plan_success_walk fuel samples (h : heap St) traj :
  Plan this fuel samples start goal start_time = Done (h, traj, []) ->
  (forall i n, h !! i = Some n -> Node_eq n n = true) ->
  exists r g sn s to_goal,
    h !! start_ptr = Some r /\ h !! goal_ptr = Some g /\
    best_parent g = Some sn /\ h !! sn = Some s /\
    children s !! 0 = Some goal_ptr /\
    trajs_to_children s !! 0 = Some to_goal /\
    if Node_eq s r then traj = Concatenate [to_goal]
    else exists ii c cn to_sample,
      children r !! ii = Some c /\ h !! c = Some cn /\
      Node_eq cn s = true /\
      (forall kk c' cn', kk < ii -> children r !! kk = Some c' ->
         h !! c' = Some cn' -> Node_eq cn' s = false) /\
      trajs_to_children r !! ii = Some to_sample /\
      traj = Concatenate [to_sample; to_goal].
Proof.
  intros Hrun Hself.
  destruct (Plan_success this start goal start_time _ _ _ _ Hrun)
    as [Hreach Hextract].
  destruct (reachable_star this start goal start_time _ _ Hreach)
    as (Hsamples & _ & Hgoal & Hkids & _).
  destruct (reachable_well_formed this _ _ _ _ _ Hreach) as [(Hlen & _) _].
  pose proof (reachable_linked this _ _ _ _ _ Hreach) as Hlinked.
  destruct (reachable_listed _ _ Hreach) as [Hlisted _].
  assert (Hzero : start_ptr < length h) by (unfold start_ptr; lia).
  assert (Hone : goal_ptr < length h) by (unfold goal_ptr; lia).
  destruct (lookup_lt_is_Some_2 h start_ptr Hzero) as [r Hr].
  destruct (lookup_lt_is_Some_2 h goal_ptr Hone) as [g Hg].
  destruct (Hgoal _ Hg) as (_ & sn & s & Hparent & Htwo & Hs & _).
  pose proof (Hsamples _ _ Hs Htwo) as Hup.
  (* the goal is the first child of its best parent *)
  destruct (Hlisted _ _ _ Hg Hparent) as (s' & Hs' & Hin).
  assert (s' = s) as -> by congruence.
  assert (Hfirst : children s !! 0 = Some goal_ptr).
  { destruct (children s) as [|c0 rest] eqn:Hlist;
      [apply elem_of_nil in Hin; contradiction|].
    assert (Hc0 : c0 ∈ children s) by (rewrite Hlist; left).
    destruct (Hkids _ _ _ Hs Hc0) as [[_ Heq]|[-> _]]; [|reflexivity].
    unfold start_ptr in Heq. lia. }
  destruct (Hlinked _ _ Hs) as [Haligned _].
  assert (Hedge : exists to_goal, trajs_to_children s !! 0 = Some to_goal).
  { apply lookup_lt_is_Some_2. rewrite Haligned.
    eapply lookup_lt_Some. exact Hfirst. }
  destruct Hedge as [to_goal Hedge].
  exists r, g, sn, s, to_goal. repeat (split; [assumption|]).
  (* the walk *)
  assert (Hwalk : exists trajs,
            ExtractTrajectory_loop fuel h r goal_ptr [] = Done trajs /\
            traj = Concatenate trajs).
  { unfold ExtractTrajectory, deref in Hextract. rewrite Hr in Hextract.
    cbn [obind] in Hextract.
    destruct (ExtractTrajectory_loop fuel h r goal_ptr []) as [trajs| |];
      simpl in Hextract; try discriminate.
    injection Hextract as <-. eauto. }
  destruct Hwalk as (trajs & Hwalk & ->).
  assert (Hcond : negb (Node_eq g r)
                  || Node_eq g r && (length (@nil (Trajectory St)) =? 0)
                  = true)
    by (destruct (Node_eq g r); reflexivity).
  destruct fuel as [|fuel]; cbn [ExtractTrajectory_loop] in Hwalk;
    unfold deref in Hwalk;
    rewrite Hg in Hwalk; cbn [obind] in Hwalk; rewrite Hcond, Hparent in Hwalk;
    [discriminate|].
  rewrite Hs in Hwalk. cbn [obind] in Hwalk.
  rewrite (find_child_first h s g goal_ptr g to_goal [] Hfirst Hg
             (Hself _ _ Hg) Hedge) in Hwalk.
  cbn [obind] in Hwalk.
  destruct (Node_eq s r) eqn:Hsr.
  { destruct fuel; cbn [ExtractTrajectory_loop] in Hwalk;
      unfold deref in Hwalk; rewrite Hs in Hwalk; cbn [obind] in Hwalk; rewrite Hsr in Hwalk;
      simpl in Hwalk; injection Hwalk as <-; reflexivity. }
  destruct fuel as [|fuel]; cbn [ExtractTrajectory_loop] in Hwalk;
    unfold deref in Hwalk;
    rewrite Hs in Hwalk; cbn [obind] in Hwalk; rewrite Hsr, Hup in Hwalk;
    simpl in Hwalk; [discriminate|].
  unfold deref in Hwalk. rewrite Hr in Hwalk. cbn [obind] in Hwalk.
  destruct (Hlinked _ _ Hr) as [Haligned_r Hkids_r].
  destruct (Hlisted _ _ _ Hs Hup) as (r' & Hr' & Hin_r).
  assert (r' = r) as -> by congruence.
  apply list_elem_of_lookup_1 in Hin_r as [jj Hjj].
  destruct (find_child_found h r s) with (todo := length (children r))
    (ii := 0) (trajs := [to_goal])
    as (ii & c & cn & to_sample & _ & Hc & Hcn & Heq & Hbefore & Ht & Hfind);
    [ | exact Haligned_r | reflexivity | | ].
  { intros c Hc. destruct (Hkids_r c Hc) as (cn & Hcn & _).
    eapply lookup_lt_Some. exact Hcn. }
  { exists jj, sn, s. repeat split; auto; [lia|].
    exact (Hself _ _ Hs). }
  rewrite Hfind in Hwalk. cbn [obind] in Hwalk.
  pose proof (Hself _ _ Hr) as Hrr.
  exists ii, c, cn, to_sample. repeat (split; [assumption|]). split.
  { intros kk c' cn' Hkk. apply Hbefore. lia. }
  split; [exact Ht|].
  destruct fuel; cbn [ExtractTrajectory_loop] in Hwalk;
    unfold deref in Hwalk;
    rewrite Hr in Hwalk; cbn [obind] in Hwalk; rewrite Hrr in Hwalk;
    simpl in Hwalk; injection Hwalk as <-; reflexivity.
Qed.

End Listed.

(** ** What the edges hold *)

Section Edges.
Context {St : Type} `{State St}.
Variable this : GraphDynamicPlanner St.
Variables (start goal : St) (start_time : double).

Lemma attach_edge (sample : St) : forall neighbors (h h' : heap St) sn,
  attach this h sample neighbors = Done (h', Some sn) ->
  exists parent nb,
    In parent neighbors /\ h !! parent = Some nb /\ sn = length h /\
    h' = alter (push_child sn (SubPlan this (state nb) sample (time nb)))
           parent
           (h ++ [{| state := sample;
                     time := (time nb
                              + Duration (SubPlan this (state nb) sample
                                                  (time nb)))%D;
                     cost_to_come :=
                       (cost_to_come nb
                        + Cost this (SubPlan this (state nb) sample
                                             (time nb)))%D;
                     is_viable := false; best_parent := Some parent;
                     children := []; trajs_to_children := [] |}]).
Proof.
  induction neighbors as [|neighbor rest IH]; intros h h' sn Hrun;
    simpl in Hrun; [discriminate|].
  destruct (deref h neighbor) as [nb| |] eqn:Hnb; simpl in Hrun;
    try discriminate.
  apply deref_Done in Hnb.
  destruct (norm_lt _ _).
  - destruct (IH _ _ _ Hrun) as (parent & nb' & Hin & Hrest).
    exists parent, nb'. split; [right; exact Hin | exact Hrest].
  - destruct (0 <? Size _).
    + injection Hrun as <- <-. exists neighbor, nb.
      split; [left; reflexivity|]. split; [exact Hnb|].
      split; reflexivity.
    + destruct (IH _ _ _ Hrun) as (parent & nb' & Hin & Hrest).
      exists parent, nb'. split; [right; exact Hin | exact Hrest].
Qed.

Lemma connect_edge (sample : St) sn : forall near (h h' : heap St) child,
  connect this h sample sn near = Done (h', Some child) ->
  exists g s,
    In child near /\ h !! child = Some g /\ h !! sn = Some s /\
    h' = alter (push_child child (SubPlan this sample (state g) (time s)))
               sn h.
Proof.
  induction near as [|goal' rest IH]; intros h h' child Hrun;
    simpl in Hrun; [discriminate|].
  destruct (deref h goal') as [g| |] eqn:Hg; simpl in Hrun;
    try discriminate.
  apply deref_Done in Hg.
  destruct (negb (is_viable g)).
  - destruct (IH _ _ _ Hrun) as (g' & s & Hin & Hrest).
    exists g', s. split; [right; exact Hin | exact Hrest].
  - destruct (deref h sn) as [s| |] eqn:Hs; simpl in Hrun;
      try discriminate.
    apply deref_Done in Hs.
    destruct (0 <? Size _).
    + injection Hrun as <- <-. exists g, s.
      split; [left; reflexivity|]. auto.
    + destruct (IH _ _ _ Hrun) as (g' & s' & Hin & Hrest).
      exists g', s'. split; [right; exact Hin | exact Hrest].
Qed.

(** The arena after one round of the loop over the children: the edge
    of index [ii] is re-timed, and the child may get the current node as
    best parent, with a new time and cost. *)
Lemma visit_child_effect cur ii (h : heap St) q h' q' :
  visit_child this cur ii h q = Done (h', q') ->
  exists current child traj,
    h !! cur = Some current /\ children current !! ii = Some child /\
    trajs_to_children current !! ii = Some traj /\
    (h' = alter (set_trajs_to_children
                   (<[ii := ResetFirstTime traj (time current)]>
                      (trajs_to_children current))) cur h \/
     exists t c,
       h' = alter (set_cost_to_come c) child
              (alter (set_time t) child
                 (alter (set_best_parent (Some cur)) child
                    (alter (set_trajs_to_children
                              (<[ii := ResetFirstTime traj (time current)]>
                                 (trajs_to_children current))) cur h)))).
Proof.
  unfold visit_child. intros Hrun.
  destruct (deref h cur) as [current| |] eqn:Hcur; simpl in Hrun;
    try discriminate.
  apply deref_Done in Hcur.
  destruct (at_ (children current) ii) as [child| |] eqn:Hchild;
    simpl in Hrun; try discriminate.
  apply at_Done in Hchild.
  destruct (at_ (trajs_to_children current) ii) as [traj| |] eqn:Htraj;
    simpl in Hrun; try discriminate.
  apply at_Done in Htraj.
  unfold deref at 1 in Hrun.
  rewrite list_lookup_alter_eq, Hcur in Hrun. simpl in Hrun.
  destruct (deref _ child) as [c| |]; simpl in Hrun; try discriminate.
  destruct (rewiring_test _ _ _) as [reattach| |]; simpl in Hrun;
    try discriminate.
  exists current, child, traj. repeat (split; [assumption|]).
  destruct reattach; injection Hrun as <- <-; eauto.
Qed.

Lemma edges_frame (h h' : heap St) :
  re_timed_from h h' ->
  edges this start goal start_time h -> edges this start goal start_time h'.
Proof.
  intros Hnodes (Hstart & Hgoal & Hsamples). split; [|split].
  - intros r' Hr'.
    destruct (Hnodes _ _ Hr')
      as (r & Hr & Hstate & Hkids & Htime & Htrajs & _).
    destruct (Hstart _ Hr) as (Hs & Ht & Hedges).
    split; [congruence|]. split.
    { rewrite Htime by (unfold start_ptr, goal_ptr; lia). exact Ht. }
    intros jj c cn' T Hc Hcn' HT.
    destruct (Hnodes _ _ Hcn') as (cn & Hcn & Hcstate & _).
    rewrite Hcstate. rewrite Hkids in Hc. rewrite (Htrajs eq_refl) in HT.
    exact (Hedges _ _ _ _ Hc Hcn HT).
  - intros g' Hg'. destruct (Hnodes _ _ Hg') as (g & Hg & Hstate & _).
    rewrite Hstate. exact (Hgoal _ Hg).
  - intros i n' Hi Htwo.
    destruct (Hnodes _ _ Hi) as (n & Hn & Hstate & _ & Htime & _ & Htrajs).
    destruct (Hsamples _ _ Hn Htwo) as [Ht Hedges].
    assert (Htime' : time n' = time n)
      by (apply Htime; unfold goal_ptr; lia).
    rewrite Hstate, Htime'. split; [exact Ht|].
    intros T HT. destruct (Htrajs T HT) as [Hold|(T0 & HT0 & ->)].
    + exact (Hedges T Hold).
    + destruct (Hedges T0 HT0) as [k ->].
      exists (Datatypes.S k). reflexivity.
Qed.

Lemma re_timed_from_refl (h : heap St) : re_timed_from h h.
Proof. intros i n Hi. exists n. repeat split; auto. Qed.

Lemma re_timed_from_alter_goal (f : Node St -> Node St) (h h1 : heap St) :
  (forall n, state (f n) = state n /\ children (f n) = children n /\
             trajs_to_children (f n) = trajs_to_children n) ->
  re_timed_from h h1 -> re_timed_from h (alter f goal_ptr h1).
Proof.
  intros Hf Hprev i n' Hi.
  apply lookup_alter_Some in Hi as (n1 & Hn1 & Hcase).
  destruct (Hprev _ _ Hn1) as (n & Hn & Hs & Hk & Ht & Hr & Htr).
  exists n. split; [exact Hn|].
  destruct Hcase as [[-> ->]|[_ ->]]; [|auto 10].
  destruct (Hf n1) as (Hfs & Hfk & Hftr).
  rewrite Hfs, Hfk, Hftr. repeat split; auto. contradiction.
Qed.

Lemma re_timed_from_edge cur ii (h : heap St) current traj :
  cur <> start_ptr -> h !! cur = Some current ->
  trajs_to_children current !! ii = Some traj ->
  re_timed_from h
    (alter (set_trajs_to_children
              (<[ii := ResetFirstTime traj (time current)]>
                 (trajs_to_children current))) cur h).
Proof.
  intros Hcur Hc Htraj i n' Hi.
  apply lookup_alter_Some in Hi as (n & Hn & Hcase).
  exists n. split; [exact Hn|].
  destruct Hcase as [[-> ->]|[_ ->]]; [|repeat split; auto].
  assert (n = current) as -> by congruence. simpl.
  repeat split; auto; [contradiction|].
  intros T HT. apply list_elem_of_lookup_1 in HT as [jj Hjj].
  apply list_lookup_insert_Some in Hjj as [(_ & <- & _)|[_ Hjj]].
  - right. exists traj. split; [|reflexivity].
    eapply list_elem_of_lookup_2. exact Htraj.
  - left. eapply list_elem_of_lookup_2. exact Hjj.
Qed.

Lemma visit_child_edges sn q0 cur ii (h : heap St) q h' q' :
  cur <> start_ptr ->
  star (Updating sn q0) h /\ edges this start goal start_time h ->
  visit_child this cur ii h q = Done (h', q') ->
  star (Updating sn q0) h' /\ edges this start goal start_time h'.
Proof.
  intros Hcur [Hstar Hedges] Hrun.
  split; [exact (visit_child_star this _ _ _ _ _ _ _ _ Hstar Hrun)|].
  destruct (visit_child_effect _ _ _ _ _ _ Hrun)
    as (current & child & traj & Hc & Hchild & Htraj & Hh').
  assert (Hgoal : child = goal_ptr).
  { destruct Hstar as (_ & _ & _ & Hkids & _).
    destruct (Hkids cur current child Hc
                (list_elem_of_lookup_2 _ _ _ Hchild)) as [[_ ?]|[? _]];
      [contradiction | assumption]. }
  subst child.
  apply (edges_frame h); [|exact Hedges].
  pose proof (re_timed_from_edge cur ii h current traj Hcur Hc Htraj)
    as Hfirst.
  destruct Hh' as [->|(t & c & ->)]; [exact Hfirst|].
  repeat (apply re_timed_from_alter_goal; [intros n; simpl; auto|]).
  exact Hfirst.
Qed.

(** Every arena that [Plan] reaches holds the sub-plans as [edges]
    describes. *)
Lemma reachable_edges pt (h : heap St) :
  reachable this start goal start_time pt h ->
  edges this start goal start_time h /\ holds_sample pt h.
Proof.
  intros Hreach.
  induction Hreach as
    [ | h sample neighbors h' sn Hprev IH Hknn Hattach
      | h sample sn near h' Hprev IH Hradius Hconnect
      | h sample sn near h' child Hprev IH Hradius Hconnect
      | h sn child c s Hprev IH Hc Hs Htest
      | h sn child c s Hprev IH Hc Hs Htest
      | h sn cur q h' q' Hprev IH Hbody
      | h sn Hprev IH
      | h sn fuel h' Hprev IH Hmark ].
  - split; [|exact I]. split; [|split].
    + intros r Hr. injection Hr as <-. simpl. repeat split.
      intros jj c cn T Hc. rewrite lookup_nil in Hc. discriminate.
    + intros g Hg. injection Hg as <-. reflexivity.
    + intros [|[|i]] n Hi Htwo; [lia | lia | discriminate].
  - destruct IH as [(Hstart & Hgoal & Hsamples) _].
    destruct (reachable_well_formed this _ _ _ _ _ Hprev) as [(Hlen & _) _].
    destruct (reachable_star this start goal start_time _ _ Hprev)
      as (_ & _ & _ & Hkids & _).
    pose proof (reachable_linked this _ _ _ _ _ Hprev) as Hlinked.
    destruct (attach_edge _ _ _ _ _ Hattach)
      as (parent & r & Hin & Hr & -> & ->).
    apply (KnnSearch_registry _ _ _ _ _ _ Hknn) in Hin.
    destruct Hin as [<-|[]]. simpl in Hr. simpl InitialNode.
    destruct (Hstart _ Hr) as (Hstate & Htime & Hedges).
    destruct (Hlinked _ _ Hr) as [Haligned Hvalid].
    rewrite Hstate, Htime.
    set (new_node := {| state := sample;
                        time := (start_time
                                 + Duration (SubPlan this start sample
                                                     start_time))%D |}).
    assert (Hnew : forall (f : Node St -> Node St),
              alter f start_ptr (h ++ [new_node]) !! length h
              = Some new_node).
    { intros f. rewrite list_lookup_alter_ne by (unfold start_ptr; lia).
      rewrite lookup_app_r by lia. rewrite Nat.sub_diag. reflexivity. }
    split; [|exists new_node; split; [apply Hnew | reflexivity]].
    split; [|split].
    + intros r' Hr'.
      rewrite list_lookup_alter_eq, (lookup_app_l_Some _ _ _ _ Hr) in Hr'.
      injection Hr' as <-. cbn [push_child state time children
                                trajs_to_children].
      split; [exact Hstate|]. split; [exact Htime|].
      intros jj c cn T Hc Hcn HT.
      apply lookup_app_Some in Hc as [Hc|[Hge Hc]].
      * assert (Hjj : jj < length (trajs_to_children r))
          by (rewrite Haligned; eapply lookup_lt_Some; exact Hc).
        rewrite lookup_app_l in HT by exact Hjj.
        assert (Hin : c ∈ children r)
          by (eapply list_elem_of_lookup_2; exact Hc).
        destruct (Hvalid c Hin) as (cn0 & Hcn0 & _).
        destruct (Hkids _ _ _ Hr Hin) as [[Htwo _]|[_ []]].
        rewrite list_lookup_alter_ne in Hcn by (unfold start_ptr; lia).
        rewrite (lookup_app_l_Some _ _ _ _ Hcn0) in Hcn.
        injection Hcn as <-. exact (Hedges _ _ _ _ Hc Hcn0 HT).
      * apply list_lookup_singleton_Some in Hc as [Hzero <-].
        rewrite Hnew in Hcn. injection Hcn as <-.
        rewrite lookup_app_r in HT by lia.
        replace (jj - length (trajs_to_children r)) with 0 in HT by lia.
        injection HT as <-. reflexivity.
    + intros g Hg.
      rewrite list_lookup_alter_ne in Hg by (unfold start_ptr, goal_ptr; lia).
      rewrite lookup_app_l in Hg by (unfold goal_ptr; lia).
      exact (Hgoal _ Hg).
    + intros i n Hi Htwo.
      rewrite list_lookup_alter_ne in Hi by (unfold start_ptr; lia).
      apply lookup_app_Some in Hi as [Hi|[Hge Hi]];
        [exact (Hsamples _ _ Hi Htwo)|].
      apply list_lookup_singleton_Some in Hi as [_ <-].
      split; [reflexivity|]. intros T HT. inversion HT.
  - rewrite (connect_none_heap this sample sn _ _ _ Hconnect).
    split; [exact (proj1 IH) | exact I].
  - split; [|exact I].
    destruct IH as [(Hstart & Hgoal & Hsamples) (s0 & Hs0 & Hsample)].
    destruct (reachable_star this start goal start_time _ _ Hprev)
      as (_ & _ & _ & _ & Hsn).
    pose proof (Hsn sn eq_refl) as Htwo.
    destruct (connect_edge _ _ _ _ _ _ Hconnect)
      as (g & s & Hin & Hg & Hs & ->).
    apply (RadiusSearch_registry _ _ _ _ _ _ Hradius) in Hin.
    destruct Hin as [<-|[]]. simpl in Hg. simpl InitialNode.
    assert (s0 = s) as -> by congruence.
    rewrite (Hgoal _ Hg), <- Hsample.
    split; [|split].
    + intros r Hr.
      rewrite list_lookup_alter_ne in Hr by (unfold start_ptr; lia).
      destruct (Hstart _ Hr) as (Hstate & Htime & Hedges).
      split; [exact Hstate|]. split; [exact Htime|].
      intros jj c cn T Hc Hcn HT.
      apply lookup_alter_Some in Hcn as (cn0 & Hcn0 & Hcase).
      assert (Hsame : state cn = state cn0)
        by (destruct Hcase as [[_ ->]|[_ ->]]; reflexivity).
      rewrite Hsame. exact (Hedges _ _ _ _ Hc Hcn0 HT).
    + intros g' Hg'.
      rewrite list_lookup_alter_ne in Hg' by (unfold goal_ptr; lia).
      exact (Hgoal _ Hg').
    + intros i n' Hi Hi2.
      apply lookup_alter_Some in Hi as (n & Hn & Hcase).
      destruct (Hsamples _ _ Hn Hi2) as [Htime Hedges].
      destruct Hcase as [[-> ->]|[_ ->]]; [|auto].
      assert (n = s) as -> by congruence.
      cbn [push_child state time trajs_to_children].
      split; [exact Htime|]. intros T HT.
      apply elem_of_app in HT as [HT|HT]; [exact (Hedges T HT)|].
      apply list_elem_of_singleton in HT as ->. exists 0. reflexivity.
  - split; [|exact I].
    destruct (reachable_well_formed this _ _ _ _ _ Hprev)
      as [_ (_ & _ & ->)].
    apply (edges_frame h); [|exact (proj1 IH)].
    apply re_timed_from_alter_goal; [intros n; simpl; auto|].
    apply re_timed_from_refl.
  - split; [exact (proj1 IH) | exact I].
  - split; [|exact I]. destruct IH as [IH _].
    pose proof (reachable_star this start goal start_time _ _ Hprev) as Hstar.
    unfold UpdateDescendants_body in Hbody. simpl InitialNode in Hbody.
    destruct (cur =? start_ptr) eqn:Hcur;
      [injection Hbody as <- <-; exact IH|].
    apply Nat.eqb_neq in Hcur.
    destruct (deref h cur) as [current| |]; simpl in Hbody; try discriminate.
    refine (proj2 (visit_children_invariant this
              (fun h => star (Updating sn (cur :: q)) h /\
                        edges this start goal start_time h) cur
              _ _ _ _ _ _ _ (conj Hstar IH) Hbody)).
    intros ii h0 q0 h1 q1. apply visit_child_edges. exact Hcur.
  - split; [exact (proj1 IH) | exact I].
  - split; [|exact I]. destruct IH as [IH _].
    destruct (mark_viable_mono _ _ _ _ Hmark) as (_ & _ & Hfields).
    apply (edges_frame h); [|exact IH].
    intros i n' Hi.
    destruct (Hfields _ _ Hi) as (n & Hn & Hs & Ht & _ & _ & Hk & Htr).
    exists n. rewrite Htr. repeat split; auto.
Qed.

(** The arena after one round of the loop over the children, in full:
    the test of the source never answers no, so that a round that returns
    has re-timed the edge and re-attached the child. *)
Lemma visit_child_exact cur ii (h : heap St) q h' q' :
  visit_child this cur ii h q = Done (h', q') ->
  exists current child traj,
    h !! cur = Some current /\ children current !! ii = Some child /\
    trajs_to_children current !! ii = Some traj /\
    q' = q ++ [child] /\
    h' = alter (set_cost_to_come
                  (cost_to_come current
                   + Cost this (ResetFirstTime traj (time current)))%D) child
           (alter (set_time
                     (time current
                      + Duration (ResetFirstTime traj (time current)))%D)
                  child
              (alter (set_best_parent (Some cur)) child
                 (alter (set_trajs_to_children
                           (<[ii := ResetFirstTime traj (time current)]>
                              (trajs_to_children current))) cur h))).
Proof.
  unfold visit_child. intros Hrun.
  destruct (deref h cur) as [current| |] eqn:Hcur; simpl in Hrun;
    try discriminate.
  apply deref_Done in Hcur.
  destruct (at_ (children current) ii) as [child| |] eqn:Hchild;
    simpl in Hrun; try discriminate.
  apply at_Done in Hchild.
  destruct (at_ (trajs_to_children current) ii) as [traj| |] eqn:Htraj;
    simpl in Hrun; try discriminate.
  apply at_Done in Htraj.
  unfold deref at 1 in Hrun.
  rewrite list_lookup_alter_eq, Hcur in Hrun. simpl in Hrun.
  destruct (deref _ child) as [c| |]; simpl in Hrun; try discriminate.
  destruct (rewiring_test _ _ _) as [reattach| |] eqn:Htest; simpl in Hrun;
    try discriminate.
  apply rewiring_test_never_false in Htest as ->.
  injection Hrun as <- <-.
  exists current, child, traj. repeat (split; [assumption|]).
  split; reflexivity.
Qed.

Lemma goal_timed_frame (h h' : heap St) sn s s' T :
  (forall g', h' !! goal_ptr = Some g' ->
     exists g, h !! goal_ptr = Some g /\ best_parent g' = best_parent g /\
       time g' = time g /\ cost_to_come g' = cost_to_come g) ->
  length h' = length h ->
  time s' = time s -> cost_to_come s' = cost_to_come s ->
  goal_timed this h sn s T -> goal_timed this h' sn s' T.
Proof.
  intros Hgoal Hsize Htime Hcost (g & Hg & Hparent & Ht & Hc).
  assert (Hone : goal_ptr < length h')
    by (rewrite Hsize; eapply lookup_lt_Some; exact Hg).
  destruct (lookup_lt_is_Some_2 h' goal_ptr Hone) as [g' Hg'].
  destruct (Hgoal _ Hg') as (g0 & Hg0 & Hp' & Ht' & Hc').
  assert (g0 = g) as -> by congruence.
  exists g'. rewrite Htime, Hcost. repeat split; congruence.
Qed.

(** Every arena that [Plan] reaches holds the sample node of the round as
    [sample_edge] describes. *)
Lemma reachable_sample_edge pt (h : heap St) :
  reachable this start goal start_time pt h -> sample_edge this goal pt h.
Proof.
  intros Hreach.
  induction Hreach as
    [ | h sample neighbors h' sn Hprev IH Hknn Hattach
      | h sample sn near h' Hprev IH Hradius Hconnect
      | h sample sn near h' child Hprev IH Hradius Hconnect
      | h sn child c s Hprev IH Hc Hs Htest
      | h sn child c s Hprev IH Hc Hs Htest
      | h sn cur q h' q' Hprev IH Hbody
      | h sn Hprev IH
      | h sn fuel h' Hprev IH Hmark ].
  - exact I.
  - destruct (reachable_well_formed this _ _ _ _ _ Hprev) as [(Hlen & _) _].
    destruct (attach_edge _ _ _ _ _ Hattach)
      as (parent & r & Hin & Hr & -> & ->).
    apply (KnnSearch_registry _ _ _ _ _ _ Hknn) in Hin.
    destruct Hin as [<-|[]]. simpl InitialNode.
    eexists. split.
    + rewrite list_lookup_alter_ne by (unfold start_ptr; lia).
      rewrite lookup_app_r by lia. rewrite Nat.sub_diag. reflexivity.
    + repeat split.
  - exact I.
  - destruct IH as (s0 & Hs0 & Hsample & Hkids & Htrajs).
    destruct (reachable_edges _ _ Hprev) as [(_ & Hgoal & _) _].
    destruct (connect_edge _ _ _ _ _ _ Hconnect)
      as (g & s & Hin & Hg & Hs & ->).
    apply (RadiusSearch_registry _ _ _ _ _ _ Hradius) in Hin.
    destruct Hin as [<-|[]]. simpl in Hg. simpl InitialNode.
    assert (s0 = s) as -> by congruence.
    eexists. split; [rewrite list_lookup_alter_eq, Hs; reflexivity|].
    cbn [push_child children trajs_to_children state time].
    rewrite Hkids, Htrajs, (Hgoal _ Hg), Hsample. split; reflexivity.
  - destruct IH as (s0 & Hs0 & Hkids & Htrajs).
    destruct (reachable_well_formed this _ _ _ _ _ Hprev)
      as [_ (_ & Hnot & ->)].
    exists s0. split.
    + rewrite list_lookup_alter_ne by (symmetry; exact Hnot). exact Hs0.
    + split; [exact Hkids|]. left. split; [reflexivity | exact Htrajs].
  - destruct (reachable_star this start goal start_time _ _ Hprev)
      as (_ & _ & Hgoal & _).
    destruct (reachable_well_formed this _ _ _ _ _ Hprev)
      as [_ (_ & _ & ->)].
    destruct (Hgoal _ Hc) as [_ Hnone]. simpl in Hnone.
    unfold better_parent_test in Htest. rewrite Hnone in Htest.
    discriminate.
  - destruct IH as (s & Hs & Hkids & Hcase).
    destruct (reachable_well_formed this _ _ _ _ _ Hprev)
      as [(Hlen & Hranked & _) (_ & Hnot)].
    destruct (reachable_star this start goal start_time _ _ Hprev)
      as (_ & _ & _ & _ & Hsn).
    pose proof (Hsn sn eq_refl) as Htwo.
    unfold UpdateDescendants_body in Hbody. simpl InitialNode in Hbody.
    destruct Hcase as [[Hq Htrajs]|([Hq|Hq] & Htrajs & Htimed)];
      [| |discriminate].
    + (* the visit of the sample node *)
      injection Hq as -> ->.
      destruct (sn =? start_ptr) eqn:Hzero;
        [apply Nat.eqb_eq in Hzero; unfold start_ptr in Hzero; lia|].
      unfold deref in Hbody. rewrite Hs in Hbody. cbn [obind] in Hbody.
      rewrite Hkids in Hbody. cbn [length visit_children] in Hbody.
      destruct (visit_child this sn 0 h []) as [[h1 q1]| |] eqn:Hvisit;
        simpl in Hbody; try discriminate.
      injection Hbody as <- <-.
      destruct (visit_child_exact _ _ _ _ _ _ Hvisit)
        as (current & child & traj & Hcur & Hchild & Htraj & -> & ->).
      assert (current = s) as -> by congruence.
      rewrite Hkids in Hchild. injection Hchild as <-.
      rewrite Htrajs in Htraj. injection Htraj as <-.
      rewrite Htrajs. cbn [insert list_insert].
      assert (Hone : goal_ptr < length h) by (unfold goal_ptr; lia).
      destruct (lookup_lt_is_Some_2 h goal_ptr Hone) as [g Hg].
      eexists. split.
      { rewrite !list_lookup_alter_ne by (symmetry; exact Hnot).
        rewrite list_lookup_alter_eq, Hs. reflexivity. }
      cbn [set_trajs_to_children children trajs_to_children state time
           cost_to_come].
      split; [exact Hkids|]. right.
      split; [left; reflexivity|]. split; [reflexivity|].
      eexists. split.
      { rewrite !list_lookup_alter_eq.
        rewrite list_lookup_alter_ne by exact Hnot. rewrite Hg.
        reflexivity. }
      repeat split.
    + (* the visit of the goal, which has no children *)
      injection Hq as -> ->.
      assert (Hone : goal_ptr < length h) by (unfold goal_ptr; lia).
      destruct (lookup_lt_is_Some_2 h goal_ptr Hone) as [g Hg].
      cbn [Nat.eqb goal_ptr start_ptr] in Hbody.
      unfold deref in Hbody. rewrite Hg in Hbody. cbn [obind] in Hbody.
      rewrite (proj1 (Hranked _ _ Hg) eq_refl) in Hbody.
      injection Hbody as <- <-.
      exists s. split; [exact Hs|]. split; [exact Hkids|]. right.
      split; [right; reflexivity|]. split; assumption.
  - destruct IH as (s & Hs & Hkids & [[Hq _]|(_ & Htrajs & Htimed)]);
      [discriminate|].
    exists s. auto.
  - destruct IH as (s & Hs & Hkids & Htrajs & Htimed).
    destruct (mark_viable_mono _ _ _ _ Hmark) as (Hsize & _ & Hfields).
    assert (Hsn : sn < length h') by
      (rewrite Hsize; eapply lookup_lt_Some; exact Hs).
    destruct (lookup_lt_is_Some_2 h' sn Hsn) as [s' Hs'].
    destruct (Hfields _ _ Hs') as (s0 & Hs0 & Hst & Ht & Hc & _ & Hk & Htr).
    assert (s0 = s) as -> by congruence.
    exists sn, s'. split; [exact Hs'|].
    rewrite Hk, Htr, Hst, Ht. split; [exact Hkids|]. split; [exact Htrajs|].
    apply (goal_timed_frame h h' sn s s'); auto.
    intros g' Hg'.
    destruct (Hfields _ _ Hg') as (g & Hg & _ & Htg & Hcg & Hbg & _).
    eauto.
Qed.

(** X25: what a successful [Plan] returns, when every node of the final
    arena equals itself by [Node::operator==].  The goal's best parent is
    a sample node, timed by the sub-plan from the start to its state.
    The trajectory ends with the sub-plan from that node to the goal,
    re-timed to the time of the node.  If the node equals the start by
    [Node::operator==], this is the whole trajectory and the edge out of
    the start is left out; otherwise the trajectory begins with the
    sub-plan from the start to a child of the start that equals the
    node. *)
Theorem Plan_success_trajectory fuel samples (h : heap St) traj :
  Plan this fuel samples start goal start_time = Done (h, traj, []) ->
  (forall i n, h !! i = Some n -> Node_eq n n = true) ->
  exists r g sn s,
    h !! start_ptr = Some r /\ state r = start /\
    h !! goal_ptr = Some g /\ best_parent g = Some sn /\
    h !! sn = Some s /\ 2 <= sn /\
    time s = (start_time
              + Duration (SubPlan this start (state s) start_time))%D /\
    let to_goal :=
      ResetFirstTime (SubPlan this (state s) goal (time s)) (time s) in
    if Node_eq s r then traj = Concatenate [to_goal]
    else exists c cn,
      c ∈ children r /\ h !! c = Some cn /\ Node_eq cn s = true /\
      traj = Concatenate [SubPlan this start (state cn) start_time; to_goal].
Proof.
  intros Hrun Hself.
  destruct (Plan_success this start goal start_time _ _ _ _ Hrun)
    as [Hreach _].
  destruct (Plan_success_walk this start goal start_time _ _ _ _ Hrun Hself)
    as (r & g & sn & s & to_goal & Hr & Hg & Hparent & Hs & _ & Hedge & Hwalk).
  destruct (reachable_edges _ _ Hreach) as [(Hstart & _ & Hsamples) _].
  destruct (reachable_star this start goal start_time _ _ Hreach)
    as (_ & _ & Hgoal & _).
  destruct (Hgoal _ Hg) as (_ & sn' & _ & Hparent' & Htwo & _).
  assert (sn' = sn) as -> by congruence.
  destruct (reachable_sample_edge _ _ Hreach)
    as (sn' & s' & Hs' & _ & Htrajs & g' & Hg' & Hparent'' & _).
  assert (sn' = sn) as -> by congruence.
  assert (s' = s) as -> by congruence.
  rewrite Htrajs in Hedge. injection Hedge as <-.
  destruct (Hstart _ Hr) as (Hstate & _ & Hedges).
  destruct (Hsamples _ _ Hs Htwo) as [Htime _].
  exists r, g, sn, s. repeat (split; [assumption|]). cbv zeta.
  destruct (Node_eq s r); [exact Hwalk|].
  destruct Hwalk as (ii & c & cn & to_sample & Hc & Hcn & Heq & _ & HT & ->).
  exists c, cn. split; [eapply list_elem_of_lookup_2; exact Hc|].
  split; [exact Hcn|]. split; [exact Heq|].
  rewrite (Hedges _ _ _ _ Hc Hcn HT). reflexivity.
Qed.

(** X27: although the test of [UpdateDescendants] is not the one it was
    meant to be, in [Plan] it re-attaches the goal: when [Plan] returns
    from inside the loop, the goal's best parent is a sample node whose
    only child is the goal and whose only edge is the sub-plan from its
    state to the goal, re-timed to its time; and the goal's time and cost
    to come are those of that node plus the duration and the cost of that
    edge. *)
Theorem Plan_success_goal_time fuel samples (h : heap St) traj :
  Plan this fuel samples start goal start_time = Done (h, traj, []) ->
  exists g sn s,
    h !! goal_ptr = Some g /\ best_parent g = Some sn /\
    h !! sn = Some s /\ children s = [goal_ptr] /\
    let to_goal :=
      ResetFirstTime (SubPlan this (state s) goal (time s)) (time s) in
    trajs_to_children s = [to_goal] /\
    time g = (time s + Duration to_goal)%D /\
    cost_to_come g = (cost_to_come s + Cost this to_goal)%D.
Proof.
  intros Hrun.
  destruct (Plan_success this start goal start_time _ _ _ _ Hrun)
    as [Hreach _].
  destruct (reachable_sample_edge _ _ Hreach)
    as (sn & s & Hs & Hkids & Htrajs & g & Hg & Hparent & Htime & Hcost).
  exists g, sn, s. cbv zeta. auto 10.
Qed.

(** *** The costs to come *)

Lemma costed_frame (h h' : heap St) :
  keeps_costs h h' ->
  costed this start start_time h -> costed this start start_time h'.
Proof.
  intros Hnodes [Hstart Hsamples]. split.
  - intros r' Hr'. destruct (Hnodes _ _ Hr') as (r & Hr & _ & Hc).
    rewrite Hc by (unfold start_ptr, goal_ptr; lia). exact (Hstart _ Hr).
  - intros i n' Hi Htwo. destruct (Hnodes _ _ Hi) as (n & Hn & Hs & Hc).
    rewrite Hs, Hc by (unfold goal_ptr; lia). exact (Hsamples _ _ Hn Htwo).
Qed.

Lemma keeps_costs_refl (h : heap St) : keeps_costs h h.
Proof. intros i n Hi. exists n. auto. Qed.

Lemma keeps_costs_alter (f : Node St -> Node St) k (h h1 : heap St) :
  (forall n, state (f n) = state n /\
             (k <> goal_ptr -> cost_to_come (f n) = cost_to_come n)) ->
  keeps_costs h h1 -> keeps_costs h (alter f k h1).
Proof.
  intros Hf Hprev i n' Hi.
  apply lookup_alter_Some in Hi as (n1 & Hn1 & Hcase).
  destruct (Hprev _ _ Hn1) as (n & Hn & Hs & Hc).
  exists n. split; [exact Hn|].
  destruct Hcase as [[-> ->]|[_ ->]]; [|auto].
  destruct (Hf n1) as [Hfs Hfc]. rewrite Hfs.
  split; [exact Hs|]. intros Hk. rewrite (Hfc Hk). exact (Hc Hk).
Qed.

Lemma visit_child_costed sn q0 cur ii (h : heap St) q h' q' :
  cur <> start_ptr ->
  star (Updating sn q0) h /\ costed this start start_time h ->
  visit_child this cur ii h q = Done (h', q') ->
  star (Updating sn q0) h' /\ costed this start start_time h'.
Proof.
  intros Hcur [Hstar Hcosted] Hrun.
  split; [exact (visit_child_star this _ _ _ _ _ _ _ _ Hstar Hrun)|].
  destruct (visit_child_effect _ _ _ _ _ _ Hrun)
    as (current & child & traj & Hc & Hchild & Htraj & Hh').
  assert (Hgoal : child = goal_ptr).
  { destruct Hstar as (_ & _ & _ & Hkids & _).
    destruct (Hkids cur current child Hc
                (list_elem_of_lookup_2 _ _ _ Hchild)) as [[_ ?]|[? _]];
      [contradiction | assumption]. }
  subst child.
  apply (costed_frame h); [|exact Hcosted].
  assert (Hfirst : keeps_costs h
            (alter (set_trajs_to_children
                      (<[ii := ResetFirstTime traj (time current)]>
                         (trajs_to_children current))) cur h))
    by (apply keeps_costs_alter;
        [intros n; simpl; auto | apply keeps_costs_refl]).
  destruct Hh' as [->|(t & c & ->)]; [exact Hfirst|].
  repeat (apply keeps_costs_alter;
          [intros n; simpl; split; [reflexivity | contradiction]|]).
  exact Hfirst.
Qed.

(** Every arena that [Plan] reaches holds the costs to come as [costed]
    describes. *)
Lemma reachable_costed pt (h : heap St) :
  reachable this start goal start_time pt h ->
  costed this start start_time h.
Proof.
  intros Hreach.
  induction Hreach as
    [ | h sample neighbors h' sn Hprev IH Hknn Hattach
      | h sample sn near h' Hprev IH Hradius Hconnect
      | h sample sn near h' child Hprev IH Hradius Hconnect
      | h sn child c s Hprev IH Hc Hs Htest
      | h sn child c s Hprev IH Hc Hs Htest
      | h sn cur q h' q' Hprev IH Hbody
      | h sn Hprev IH
      | h sn fuel h' Hprev IH Hmark ].
  - split.
    + intros r Hr. injection Hr as <-. reflexivity.
    + intros [|[|i]] n Hi Htwo; [lia | lia | discriminate].
  - destruct IH as [Hstart Hsamples].
    destruct (reachable_edges _ _ Hprev) as [(Hroot & _) _].
    destruct (reachable_well_formed this _ _ _ _ _ Hprev) as [(Hlen & _) _].
    destruct (attach_edge _ _ _ _ _ Hattach)
      as (parent & r & Hin & Hr & -> & ->).
    apply (KnnSearch_registry _ _ _ _ _ _ Hknn) in Hin.
    destruct Hin as [<-|[]]. simpl in Hr. simpl InitialNode.
    destruct (Hroot _ Hr) as (Hstate & Htime & _).
    rewrite Hstate, Htime, (Hstart _ Hr).
    split.
    + intros r' Hr'.
      rewrite list_lookup_alter_eq, (lookup_app_l_Some _ _ _ _ Hr) in Hr'.
      injection Hr' as <-. simpl. exact (Hstart _ Hr).
    + intros i n Hi Htwo.
      rewrite list_lookup_alter_ne in Hi by (unfold start_ptr; lia).
      apply lookup_app_Some in Hi as [Hi|[Hge Hi]];
        [exact (Hsamples _ _ Hi Htwo)|].
      apply list_lookup_singleton_Some in Hi as [_ <-]. reflexivity.
  - rewrite (connect_none_heap this sample sn _ _ _ Hconnect). exact IH.
  - destruct (connect_edge _ _ _ _ _ _ Hconnect)
      as (g & s & _ & _ & _ & ->).
    apply (costed_frame h); [|exact IH].
    apply keeps_costs_alter; [intros n; simpl; auto|].
    apply keeps_costs_refl.
  - apply (costed_frame h); [|exact IH].
    apply keeps_costs_alter; [intros n; simpl; auto|].
    apply keeps_costs_refl.
  - exact IH.
  - pose proof (reachable_star this start goal start_time _ _ Hprev) as Hstar.
    unfold UpdateDescendants_body in Hbody. simpl InitialNode in Hbody.
    destruct (cur =? start_ptr) eqn:Hcur;
      [injection Hbody as <- <-; exact IH|].
    apply Nat.eqb_neq in Hcur.
    destruct (deref h cur) as [current| |]; simpl in Hbody; try discriminate.
    refine (proj2 (visit_children_invariant this
              (fun h => star (Updating sn (cur :: q)) h /\
                        costed this start start_time h) cur
              _ _ _ _ _ _ _ (conj Hstar IH) Hbody)).
    intros ii h0 q0 h1 q1. apply visit_child_costed. exact Hcur.
  - exact IH.
  - destruct (mark_viable_mono _ _ _ _ Hmark) as (_ & _ & Hfields).
    apply (costed_frame h); [|exact IH].
    intros i n' Hi.
    destruct (Hfields _ _ Hi) as (n & Hn & Hs & _ & Hc & _).
    exists n. auto.
Qed.

(** C10, amended: the default cost of a trajectory is its duration, and
    under it every sample node of every arena that [Plan] reaches hangs
    under the start, whose time is [start_time] and whose cost to come
    is zero, with its time and its cost to come those of the start plus
    one and the same amount: the duration of the sub-plan from the start
    to the state of the node. *)
Theorem sample_cost_and_time pt (h : heap St) i n :
  (forall traj, Cost this traj = default_Cost traj) ->
  reachable this start goal start_time pt h ->
  h !! i = Some n -> 2 <= i ->
  (forall traj : Trajectory St, default_Cost traj = Duration traj) /\
  exists r,
    h !! start_ptr = Some r /\ best_parent n = Some start_ptr /\
    time r = start_time /\ cost_to_come r = dZ 0 /\
    let d := Duration (SubPlan this start (state n) start_time) in
    time n = (time r + d)%D /\ cost_to_come n = (cost_to_come r + d)%D.
Proof.
  intros Hdefault Hreach Hi Htwo. split; [reflexivity|].
  destruct (reachable_costed _ _ Hreach) as [Hzero Hcost].
  destruct (reachable_edges _ _ Hreach) as [(Hroot & _ & Hsamples) _].
  destruct (reachable_star this start goal start_time _ _ Hreach)
    as (Hparent & _).
  destruct (reachable_well_formed this _ _ _ _ _ Hreach) as [(Hlen & _) _].
  destruct (lookup_lt_is_Some_2 h start_ptr) as [r Hr];
    [unfold start_ptr; lia|].
  destruct (Hroot _ Hr) as (_ & Htime & _).
  exists r. split; [exact Hr|]. split; [exact (Hparent _ _ Hi Htwo)|].
  split; [exact Htime|]. split; [exact (Hzero _ Hr)|]. cbv zeta.
  rewrite Htime, (Hzero _ Hr). split.
  - exact (proj1 (Hsamples _ _ Hi Htwo)).
  - rewrite (Hcost _ _ Hi Htwo), Hdefault. reflexivity.
Qed.

End Edges.

(** ** The goal gets its parent once *)

Section FirstConnection.
Context {St : Type} `{State St}.
Variable this : GraphDynamicPlanner St.
Variables (start goal : St) (start_time : double).

(** X26: [Plan] returns in the round of its first connection, so that
    whenever it comes to choose the parent of the child it has connected
    to, the child is the goal and has no best parent yet: the test
    [child->best_parent == nullptr || ...] holds by its first half, the
    costs are never compared, and the sample node always becomes the
    goal's best parent. *)
Theorem first_connection_wins sn child (h : heap St) :
  reachable this start goal start_time (Connected sn child) h ->
  child = goal_ptr /\
  exists g s,
    h !! child = Some g /\ best_parent g = None /\
    h !! sn = Some s /\ better_parent_test h g s = Done true /\
    forall fuel h',
      rewire this fuel h sn child (SearchableSet_ctor start_ptr)
             (SearchableSet_ctor goal_ptr) true = Done h' ->
      exists g', h' !! child = Some g' /\ best_parent g' = Some sn.
Proof.
  intros Hreach.
  destruct (reachable_well_formed this _ _ _ _ _ Hreach)
    as [(Hlen & _) (Hsn & Hnot & ->)].
  destruct (reachable_star this start goal start_time _ _ Hreach)
    as (_ & _ & Hgoal & _).
  assert (Hone : goal_ptr < length h) by (unfold goal_ptr; lia).
  destruct (lookup_lt_is_Some_2 h goal_ptr Hone) as [g Hg].
  destruct (lookup_lt_is_Some_2 h sn Hsn) as [s Hs].
  destruct (Hgoal _ Hg) as [_ Hnone]. simpl in Hnone.
  assert (Htest : better_parent_test h g s = Done true)
    by (unfold better_parent_test; rewrite Hnone; reflexivity).
  split; [reflexivity|]. exists g, s. repeat (split; [assumption|]).
  intros fuel h' Hrewire.
  pose proof (reach_new_parent this start goal start_time _ _ _ _ _
                Hreach Hg Hs Htest) as Hupdating.
  unfold rewire, deref in Hrewire. rewrite Hg, Hs in Hrewire.
  cbn [obind] in Hrewire. rewrite Htest in Hrewire.
  cbn [obind InitialNode SearchableSet_ctor] in Hrewire.
  pose proof (reach_updated this start goal start_time _ _
                (UpdateDescendants_loop_reachable this start goal start_time
                   sn fuel _ [sn] _ Hupdating Hrewire)) as Hrewired.
  destruct (reachable_star this start goal start_time _ _ Hrewired)
    as (_ & _ & Hgoal' & _).
  destruct (reachable_well_formed this _ _ _ _ _ Hrewired)
    as [(Hlen' & _) _].
  assert (Hone' : goal_ptr < length h') by (unfold goal_ptr; lia).
  destruct (lookup_lt_is_Some_2 h' goal_ptr Hone') as [g' Hg'].
  destruct (Hgoal' _ Hg') as [_ Hsome]. simpl in Hsome. eauto.
Qed.

End FirstConnection.

(** ** The tracker *)

Section TrackerFacts.
Import tracking.
Variable value_Initialize : NodeHandle -> bool.
Variable append : string -> string -> string.

Lemma LoadParameters_control_topic t n ok t' :
  LoadParameters t n = (ok, t') ->
  control_topic_ t' = control_topic_ t /\
  initialized_ t' = initialized_ t /\ name_ t' = name_ t.
Proof.
  unfold LoadParameters. intros Hload.
  repeat match type of Hload with
         | match ?x with _ => _ end = _ => destruct x
         end;
    injection Hload as <- <-; auto.
Qed.

(** X28: no function of [Tracker] reads the parameter [topic/control]:
    a successful [Initialize] leaves [control_topic_] as it was and
    advertises the control publisher on it, whatever the parameters say;
    for a tracker fresh from its constructor this is the empty topic. *)
Theorem Initialize_control_topic t n t' regs log :
  Initialize value_Initialize append t n = (true, t', regs, log) ->
  control_topic_ t' = control_topic_ t /\
  In (advertise (control_topic_ t) 1 false) regs /\
  forall time_step,
    t = Tracker_ctor time_step -> In (advertise EmptyString 1 false) regs.
Proof.
  unfold Initialize. intros Hrun.
  destruct (value_Initialize n); simpl in Hrun; [|discriminate].
  destruct (LoadParameters _ n) as [[|] t1] eqn:Hload; simpl in Hrun;
    [|discriminate].
  injection Hrun as <- <- <-.
  destruct (LoadParameters_control_topic _ _ _ _ Hload) as (Hsame & _).
  simpl in Hsame. simpl control_topic_ at 1.
  assert (Hin : In (advertise (control_topic_ t) 1 false)
                   (snd (RegisterCallbacks t1))).
  { rewrite <- Hsame. simpl. auto 10. }
  split; [exact Hsame|]. split; [exact Hin|].
  intros time_step ->. exact Hin.
Qed.

(** X29: a call of [Initialize] that fails has registered nothing with
    ROS, has logged exactly one error and has left [initialized_] and
    [control_topic_] alone; the name is set all the same. *)
Theorem Initialize_failure t n t' regs log :
  Initialize value_Initialize append t n = (false, t', regs, log) ->
  regs = [] /\ (exists msg, log = [msg]) /\
  initialized_ t' = initialized_ t /\
  control_topic_ t' = control_topic_ t /\
  name_ t' = append (getNamespace n) "Tracker".
Proof.
  unfold Initialize. intros Hrun.
  destruct (value_Initialize n); simpl in Hrun.
  - destruct (LoadParameters _ n) as [[|] t1] eqn:Hload; simpl in Hrun;
      [discriminate|].
    injection Hrun as <- <- <-.
    destruct (LoadParameters_control_topic _ _ _ _ Hload)
      as (Hc & Hi & Hn).
    simpl in *. eauto 10.
  - injection Hrun as <- <- <-. simpl. eauto 10.
Qed.

(** X30: [LoadParameters] succeeds exactly when its five parameters are
    there, and then the tracker holds them and is otherwise as before;
    the parameters [topic/ready], [topic/control], [vis/bound],
    [frames/planner] and [file_name] of the launch file play no part. *)
Theorem LoadParameters_succeeds t n t' :
  LoadParameters t n = (true, t') <->
  exists tracker_state planner_state bound planner_dynamics time_step,
    getParam_string n "topic/tracker_state" = Some tracker_state /\
    getParam_string n "topic/planner_state" = Some planner_state /\
    getParam_string n "srv/bound" = Some bound /\
    getParam_string n "srv/planner_dynamics" = Some planner_dynamics /\
    getParam_double n "time_step" = Some time_step /\
    t' = {| tracker_state_topic_ := tracker_state;
            planner_state_topic_ := planner_state;
            control_topic_ := control_topic_ t;
            bound_name_ := bound;
            planner_dynamics_name_ := planner_dynamics;
            time_step_ := time_step;
            initialized_ := initialized_ t;
            name_ := name_ t |}.
Proof.
  unfold LoadParameters. split.
  - intros Hload.
    destruct (getParam_string n "topic/tracker_state") as [a|];
      [|discriminate].
    destruct (getParam_string n "topic/planner_state") as [b|];
      [|discriminate].
    destruct (getParam_string n "srv/bound") as [c|]; [|discriminate].
    destruct (getParam_string n "srv/planner_dynamics") as [d|];
      [|discriminate].
    destruct (getParam_double n "time_step") as [e|]; [|discriminate].
    injection Hload as <-. exists a, b, c, d, e. repeat split.
  - intros (a & b & c & d & e & -> & -> & -> & -> & -> & ->). reflexivity.
Qed.

End TrackerFacts.

(** ** The further properties on the line *)

Lemma Plan_grows_a_star_witness :
  (forall i n, arena_before_update !! i = Some n -> 2 <= i ->
     best_parent n = Some start_ptr /\
     forall c, c ∈ children n -> c = goal_ptr) /\
  (forall n, arena_before_update !! start_ptr = Some n ->
     best_parent n = None /\ forall c, c ∈ children n -> 2 <= c) /\
  (forall n, arena_before_update !! goal_ptr = Some n -> children n = []).
Proof.
  apply (Plan_grows_a_star line_planner (dZ 0) (dZ 10) (dZ 0) (Updating 2 [2])
           arena_before_update).
  exact arena_before_update_reachable.
Defined.

Lemma Plan_never_finds_loop_witness :
  ["Planner ran out of time."%string; "No viable loops available."%string]
    = [] \/
  (empty_Trajectory = empty_Trajectory (St := double) /\
   ["Planner ran out of time."%string; "No viable loops available."%string]
   = ["Planner ran out of time."%string;
      "No viable loops available."%string]).
Proof.
  apply (Plan_never_finds_loop line_planner (dZ 0) (dZ 10) (dZ 0) 3 [(dZ 5)]
           arena_out_of_time).
  vm_compute. reflexivity.
Defined.

Lemma Plan_success_chain_witness :
  ExtractTrajectory 4 arena_at_return start_ptr goal_ptr
    = Done path_at_return /\
  exists g sn s r,
    arena_at_return !! goal_ptr = Some g /\ is_viable g = true /\
    best_parent g = Some sn /\ 2 <= sn /\
    arena_at_return !! sn = Some s /\ is_viable s = true /\
    best_parent s = Some start_ptr /\
    arena_at_return !! start_ptr = Some r /\ is_viable r = true /\
    best_parent r = None.
Proof.
  apply (Plan_success_chain line_planner (dZ 0) (dZ 10) (dZ 0) 4 [(dZ 3); (dZ 9)]
           arena_at_return path_at_return).
  vm_compute. reflexivity.
Defined.

Lemma Plan_without_sub_plans_witness :
  Plan stuck_planner 3 [(dZ 5); (dZ 9)] (dZ 0) (dZ 10) (dZ 0)
  = Done (Plan_setup stuck_planner (dZ 0) (dZ 10) (dZ 0), empty_Trajectory,
          ["Planner ran out of time."%string;
           "No viable loops available."%string]).
Proof.
  apply (Plan_without_sub_plans stuck_planner (dZ 0) (dZ 10) (dZ 0) 3 [(dZ 5); (dZ 9)]).
  intros a b t. reflexivity.
Defined.

Lemma ExtractTrajectory_returns_witness :
  exists traj,
    ExtractTrajectory 3 arena_before_update start_ptr goal_ptr = Done traj.
Proof.
  apply (ExtractTrajectory_returns 3 arena_before_update start_ptr goal_ptr).
  - exact (proj2 (proj2 (proj1 (reachable_well_formed _ _ _ _ _ _
                                  arena_before_update_reachable)))).
  - exact (linked_aligned _ _
             (reachable_linked _ _ _ _ _ _ arena_before_update_reachable)).
  - unfold start_ptr. simpl. lia.
  - unfold goal_ptr. simpl. lia.
  - simpl. lia.
Defined.

Lemma Plan_returns_witness :
  exists h traj log,
    Plan line_planner 4 [(dZ 3); (dZ 9)] (dZ 0) (dZ 10) (dZ 0) = Done (h, traj, log).
Proof.
  apply (Plan_returns line_planner (dZ 0) (dZ 10) (dZ 0) 4 [(dZ 3); (dZ 9)]).
  simpl. lia.
Defined.

Lemma best_parent_lists_child_witness :
  exists pn ii traj,
    arena_before_update !! 2 = Some pn /\ children pn !! ii = Some 1 /\
    trajs_to_children pn !! ii = Some traj.
Proof.
  apply (best_parent_lists_child line_planner (dZ 0) (dZ 10) (dZ 0) (Updating 2 [2])
           arena_before_update 1
           {| state := (dZ 10); time := (dZ 1000); cost_to_come := (dZ 1000);
              is_viable := true; best_parent := Some 2; children := [];
              trajs_to_children := [] |} 2).
  - exact arena_before_update_reachable.
  - reflexivity.
  - reflexivity.
Defined.


Lemma first_connection_wins_witness :
  1 = goal_ptr /\
  exists g s,
    arena_connected !! 1 = Some g /\ best_parent g = None /\
    arena_connected !! 2 = Some s /\
    better_parent_test arena_connected g s = Done true /\
    forall fuel h',
      rewire line_planner fuel arena_connected 2 1
             (SearchableSet_ctor start_ptr) (SearchableSet_ctor goal_ptr)
             true = Done h' ->
      exists g', h' !! 1 = Some g' /\ best_parent g' = Some 2.
Proof.
  apply (first_connection_wins line_planner (dZ 0) (dZ 10) (dZ 0) 2 1
           arena_connected).
  exact arena_connected_reachable.
Defined.

Lemma Plan_success_trajectory_witness :
  exists r g sn s,
    arena_at_return !! start_ptr = Some r /\ state r = dZ 0 /\
    arena_at_return !! goal_ptr = Some g /\ best_parent g = Some sn /\
    arena_at_return !! sn = Some s /\ 2 <= sn /\
    time s = (dZ 0 + Duration (SubPlan line_planner (dZ 0) (state s)
                                       (dZ 0)))%D /\
    let to_goal :=
      ResetFirstTime (SubPlan line_planner (state s) (dZ 10) (time s))
                     (time s) in
    if Node_eq s r then path_at_return = Concatenate [to_goal]
    else exists c cn,
      c ∈ children r /\ arena_at_return !! c = Some cn /\
      Node_eq cn s = true /\
      path_at_return
      = Concatenate [SubPlan line_planner (dZ 0) (state cn) (dZ 0); to_goal].
Proof.
  apply (Plan_success_trajectory line_planner (dZ 0) (dZ 10) (dZ 0) 4
           [dZ 3; dZ 9] arena_at_return path_at_return).
  - vm_compute. reflexivity.
  - intros [|[|[|[|i]]]] n Hn; try discriminate;
      injection Hn as <-; vm_compute; reflexivity.
Defined.

Lemma arena_at_a_tenth_reachable :
  reachable zero_timed_planner (dZ 0) (dZ 10) tenth (Attached fifth 2)
            arena_at_a_tenth.
Proof.
  pose proof (reach_setup zero_timed_planner (dZ 0) (dZ 10) tenth) as R0.
  refine (reach_attach zero_timed_planner (dZ 0) (dZ 10) tenth _ fifth [0]
            _ 2 R0 _ _); vm_compute; reflexivity.
Qed.

Lemma sample_cost_and_time_witness :
  (forall traj : Trajectory double, default_Cost traj = Duration traj) /\
  exists r,
    arena_at_a_tenth !! start_ptr = Some r /\
    Some 0 = Some start_ptr /\
    time r = tenth /\ cost_to_come r = dZ 0 /\
    let d := Duration (SubPlan zero_timed_planner (dZ 0) fifth tenth) in
    (tenth + fifth)%D = (time r + d)%D /\
    (dZ 0 + fifth)%D = (cost_to_come r + d)%D.
Proof.
  apply (sample_cost_and_time zero_timed_planner (dZ 0) (dZ 10) tenth
           (Attached fifth 2) arena_at_a_tenth 2
           {| state := fifth; time := (tenth + fifth)%D;
              cost_to_come := (dZ 0 + fifth)%D; is_viable := false;
              best_parent := Some 0; children := [];
              trajs_to_children := [] |}).
  - intros traj. reflexivity.
  - exact arena_at_a_tenth_reachable.
  - reflexivity.
  - lia.
Defined.

(** C10, as worded, fails by the rounding of the doubles.  Under the
    default cost, [Plan(0, 10, 0.1)] with a sub-planner that times its
    trajectories from zero attaches the sample 0.2 with the time
    0.1 + 0.2 = 0.30000000000000004 and the cost to come 0 + 0.2 = 0.2,
    and 0.30000000000000004 - 0.1 = 0.20000000000000004 is another
    double. *)
Lemma cost_is_elapsed_time_counterexample :
  (forall traj : Trajectory double,
     Cost zero_timed_planner traj = Duration traj) /\
  reachable zero_timed_planner (dZ 0) (dZ 10) tenth (Attached fifth 2)
            arena_at_a_tenth /\
  ~ cost_is_elapsed_time tenth arena_at_a_tenth.
Proof.
  split; [intros traj; reflexivity|].
  split; [exact arena_at_a_tenth_reachable|].
  intros Hall.
  specialize (Hall 2 _ eq_refl (le_n 2)).
  vm_compute in Hall. discriminate.
Qed.

Lemma Plan_success_goal_time_witness :
  exists g sn s,
    arena_at_return !! goal_ptr = Some g /\ best_parent g = Some sn /\
    arena_at_return !! sn = Some s /\ children s = [goal_ptr] /\
    let to_goal :=
      ResetFirstTime (SubPlan line_planner (state s) (dZ 10) (time s))
                     (time s) in
    trajs_to_children s = [to_goal] /\
    time g = (time s + Duration to_goal)%D /\
    cost_to_come g = (cost_to_come s + Cost line_planner to_goal)%D.
Proof.
  apply (Plan_success_goal_time line_planner (dZ 0) (dZ 10) (dZ 0) 4 [(dZ 3); (dZ 9)]
           arena_at_return path_at_return).
  vm_compute. reflexivity.
Defined.

Lemma Initialize_control_topic_witness :
  tracking.control_topic_
    (tracking.set_initialized true
       (snd (tracking.LoadParameters
               (tracking.set_name "/tracker/Tracker"
                  (tracking.Tracker_ctor (dZ 0)))
               tracking.launch_file)))
  = tracking.control_topic_ (tracking.Tracker_ctor (dZ 0)) /\
  In (tracking.advertise
        (tracking.control_topic_ (tracking.Tracker_ctor (dZ 0))) 1 false)
     [ tracking.advertiseService "/bound" tracking.TrackingBoundServer;
       tracking.advertiseService "/planner_dynamics"
                                 tracking.PlannerDynamicsServer;
       tracking.subscribe "/state/planner" 1 tracking.PlannerStateCallback;
       tracking.subscribe "/state/tracker" 1 tracking.TrackerStateCallback;
       tracking.advertise EmptyString 1 false;
       tracking.createTimer (dZ 2 / dZ 100)%D tracking.TimerCallback ] /\
  forall time_step,
    tracking.Tracker_ctor (dZ 0) = tracking.Tracker_ctor time_step ->
    In (tracking.advertise EmptyString 1 false)
       [ tracking.advertiseService "/bound" tracking.TrackingBoundServer;
         tracking.advertiseService "/planner_dynamics"
                                   tracking.PlannerDynamicsServer;
         tracking.subscribe "/state/planner" 1 tracking.PlannerStateCallback;
         tracking.subscribe "/state/tracker" 1 tracking.TrackerStateCallback;
         tracking.advertise EmptyString 1 false;
         tracking.createTimer (dZ 2 / dZ 100)%D tracking.TimerCallback ].
Proof.
  apply (Initialize_control_topic (fun _ => true)
           (fun ns name => (ns ++ "/" ++ name)%string)
           (tracking.Tracker_ctor (dZ 0)) tracking.launch_file _ _ []).
  reflexivity.
Defined.

Lemma Initialize_failure_witness :
  @nil tracking.registration = [] /\
  (exists msg, ["Failed to initialize value function."%string] = [msg]) /\
  tracking.initialized_
    (tracking.set_name "/tracker/Tracker" (tracking.Tracker_ctor (dZ 0)))
  = tracking.initialized_ (tracking.Tracker_ctor (dZ 0)) /\
  tracking.control_topic_
    (tracking.set_name "/tracker/Tracker" (tracking.Tracker_ctor (dZ 0)))
  = tracking.control_topic_ (tracking.Tracker_ctor (dZ 0)) /\
  tracking.name_
    (tracking.set_name "/tracker/Tracker" (tracking.Tracker_ctor (dZ 0)))
  = ((tracking.getNamespace tracking.launch_file) ++ "/" ++ "Tracker")%string.
Proof.
  apply (Initialize_failure (fun _ => false)
           (fun ns name => (ns ++ "/" ++ name)%string)
           (tracking.Tracker_ctor (dZ 0)) tracking.launch_file).
  reflexivity.
Defined.
